(** * noxcrypt: block-buffered Blowfish writer and reader, with the Nox CRC

    A shallow embedding of the Go package [crypt] (crc_std.go, reader.go and
    the two variants of writer.go) together with the properties stated for it.

    Conventions of the embedding:
    - Go's fixed-width integers are [Z] with the wrap-around written out
      ([uint32], [int64]); [byte] is [Byte.byte];
    - a byte slice or array is a [list byte]; an in-place write into a slice
      returns the new contents of that slice;
    - a method with a pointer receiver takes the receiver's state and returns
      the new state next to the Go results;
    - Go's [error] results are [option error], [None] being [nil];
    - the interfaces [io.Writer]/[io.WriterAt] and [io.Reader]/[io.Seeker]
      are type classes over the state of the object behind the interface. *)

From Stdlib Require Import ZArith List Lia Bool.
From Stdlib.Strings Require Import Byte.
From Stdlib.Strings Require String.
Import String.StringSyntax.
Delimit Scope string_scope with string.
Import ListNotations.
Local Open Scope Z_scope.

(** ** Machine integers *)

Definition uint32 (z : Z) : Z := z mod 2 ^ 32.

(** Two's complement wrap-around of a Go [int64]. *)
Definition int64 (z : Z) : Z := (z + 2 ^ 63) mod 2 ^ 64 - 2 ^ 63.

(** Go's [^x] on a [uint32]. *)
Definition not32 (z : Z) : Z := uint32 (Z.lnot z).

(** Go's [byte(x)] conversion of an unsigned integer. *)
Definition byte_of_Z (z : Z) : byte :=
  match Byte.of_N (Z.to_N (z mod 256)) with
  | Some b => b
  | None => x00
  end.

Definition Z_of_byte (b : byte) : Z := Z.of_N (Byte.to_N b).

(** ** crc_std.go *)

Module CRC.

(** [crc32.IEEE] of Go's hash/crc32. *)
Definition IEEE : Z := 0xedb88320.

(** The inner loop of [simplePopulateTable]: eight shift-or-reduce steps. *)
Definition populate_step (poly crc : Z) : Z :=
  if Z.land crc 1 =? 1 then Z.lxor (Z.shiftr crc 1) poly else Z.shiftr crc 1.

Definition populate_entry (poly : Z) (i : Z) : Z :=
  Nat.iter 8 (populate_step poly) (uint32 i).

(** [simpleMakeTable]: the 256 entries [t[i]], [i] from 0 to 255. *)
Definition simpleMakeTable (poly : Z) : list Z :=
  map (fun i => populate_entry poly (Z.of_nat i)) (seq 0 256).

Definition crcTable : list Z := simpleMakeTable IEEE.

Definition ZeroCRC : Z := 0xFFFFFFFF.
Definition ZeroCRCStd : Z := 0.

(** One iteration of the loop shared by [simpleUpdate] and [UpdateCRC]:
    [crc = tab[byte(crc)^v] ^ (crc >> 8)]. *)
Definition step (tab : list Z) (crc : Z) (v : byte) : Z :=
  Z.lxor (nth (Z.to_nat (Z.lxor (crc mod 256) (Z_of_byte v))) tab 0)
         (Z.shiftr crc 8).

Definition simpleUpdate (crc : Z) (tab : list Z) (p : list byte) : Z :=
  not32 (fold_left (step tab) p (not32 crc)).

(** [UpdateCRC] omits the first complement and keeps the last one. *)
Definition UpdateCRC (crc : Z) (p : list byte) : Z :=
  not32 (fold_left (step crcTable) p crc).

Definition UpdateCRCStd (crc : Z) (p : list byte) : Z :=
  simpleUpdate crc crcTable p.

End CRC.

(** ** Errors, slices and the collaborators' interfaces *)

Inductive error : Type :=
| EOF                      (* io.EOF *)
| ErrUnexpectedEOF         (* io.ErrUnexpectedEOF *)
| ErrNew (msg : String.string)    (* errors.New(msg) *)
| ErrIO (code : Z).        (* a failure of the underlying sink or source *)

(** Modelled from the spec: the constant [Block] is declared next to
    [NewCipher], in a file that is not part of the sources at hand; the spec
    fixes the cipher's native block width to 8 bytes, and [ReadAligned]
    reads into an [8]byte array. *)
Definition Block : Z := 8.

Definition len {A} (l : list A) : Z := Z.of_nat (length l).

(** [l[k:]] *)
Definition slice_from {A} (l : list A) (k : Z) : list A := skipn (Z.to_nat k) l.

(** [l[:k]] *)
Definition slice_to {A} (l : list A) (k : Z) : list A := firstn (Z.to_nat k) l.

(** Go's builtin [copy(dst, src)]: the new contents of [dst] and the number
    of elements copied, the minimum of the two lengths. *)
Definition copy {A} (dst src : list A) : list A * Z :=
  (firstn (length dst) src ++ skipn (length src) dst,
   Z.min (len dst) (len src)).

(** [var empty [Block]byte] *)
Definition empty : list byte := repeat x00 (Z.to_nat Block).

(** [binary.LittleEndian.PutUint16/32/64] into a fresh array of [k] bytes. *)
Definition PutUint (k : nat) (v : Z) : list byte :=
  map (fun j => byte_of_Z (Z.shiftr v (8 * Z.of_nat j))) (seq 0 k).

(** The conversion [uintN(v)] of a signed value, [N = 8 * k]. *)
Definition to_unsigned (k : nat) (v : Z) : Z := v mod 2 ^ (8 * Z.of_nat k).

(** [binary.LittleEndian.Uint16/32/64]: [b[0] | b[1]<<8 | ...]. *)
Definition Uint (b : list byte) : Z :=
  fold_right (fun v acc => Z.lor (Z_of_byte v) (Z.shiftl acc 8)) 0 b.

(** The conversion [intN(v)] of an unsigned value, [N = 8 * k]. *)
Definition to_signed (k : nat) (v : Z) : Z :=
  if v <? 2 ^ (8 * Z.of_nat k - 1) then v else v - 2 ^ (8 * Z.of_nat k).

(** [*blowfish.Cipher]: [Encrypt(dst, src)] and [Decrypt(dst, src)] read one
    block from [src] and store one block into [dst]. *)
Record Cipher : Type := {
  Encrypt : list byte -> list byte;
  Decrypt : list byte -> list byte
}.

(** A cipher maps blocks to blocks. *)
Definition block_cipher (c : Cipher) : Prop :=
  forall b, len b = Block ->
    len (Encrypt c b) = Block /\ len (Decrypt c b) = Block.

(** Decrypt undoes Encrypt on every block. *)
Definition decrypt_inverts (c : Cipher) : Prop :=
  forall b, len b = Block -> Decrypt c (Encrypt c b) = b.

(** [io.Writer], with the optional [io.WriterAt] found by the type
    assertion [d.(io.WriterAt)]. Both act on the same object. *)
Class Sink (S : Type) : Type := {
  sink_Write : S -> list byte -> Z * option error * S;
  sink_WriterAt : option (S -> list byte -> Z -> Z * option error * S)
}.

(** [io.Reader] as [io.ReadFull] sees it, with the optional [io.Seeker].
    [src_ReadFull s k] gives the bytes stored into the front of a buffer of
    [k] bytes; by the contract of [io.ReadFull] there are [k] of them
    exactly when the error is [nil]. *)
Class Source (S : Type) : Type := {
  src_ReadFull : S -> Z -> list byte * option error * S;
  src_Seeker : option (S -> Z -> Z -> Z * option error * S)
}.

Definition SeekStart : Z := 0.
Definition SeekCurrent : Z := 1.
Definition SeekEnd : Z := 2.

(** A small monad for loops run on fuel: [None] is "fuel exhausted". *)
Definition bind {A B} (m : option A) (k : A -> option B) : option B :=
  match m with
  | Some a => k a
  | None => None
  end.

Notation "x <- m ;; k" := (bind m (fun x => k))
  (at level 61, m at next level, right associativity).

(** ** writer.go, the variant with the checksum and [io.WriterAt] support

    The model is faithful on states whose fill cursor [n] lies in
    [0..Block] and whose buffer holds [Block] bytes: outside of them the
    slice expression [w.buf[w.n:]] panics in Go. *)

Module CrcWriter.
Section WithSink.
Context {S : Type} {sinkS : Sink S}.

Record Writer : Type := {
  w : S;
  at_ : option (S -> list byte -> Z -> Z * option error * S);
  c : Cipher;
  buf : list byte;
  n : Z;
  off : Z;
  crc : Z;
  NoZero : bool
}.

Definition set_buf (x : Writer) (b : list byte) : Writer :=
  {| w := w x; at_ := at_ x; c := c x; buf := b; n := n x; off := off x;
     crc := crc x; NoZero := NoZero x |}.

Definition ResetCRC (x : Writer) : Writer :=
  {| w := w x; at_ := at_ x; c := c x; buf := buf x; n := n x; off := off x;
     crc := CRC.ZeroCRC; NoZero := NoZero x |}.

Definition Reset (x : Writer) (d : S) : Writer :=
  ResetCRC {| w := d; at_ := sink_WriterAt; c := c x; buf := buf x; n := 0;
              off := 0; crc := crc x; NoZero := NoZero x |}.

(** [wr := &Writer{c: c}]: every other field has its zero value. *)
Definition NewWriter (NewCipher : Z -> Cipher + error) (d : S) (key : Z)
  : Writer + error :=
  match NewCipher key with
  | inr err => inr err
  | inl c0 =>
      inl (Reset {| w := d; at_ := None; c := c0; buf := empty; n := 0;
                    off := 0; crc := 0; NoZero := false |} d)
  end.

Definition CRC (x : Writer) : Z := crc x.

Definition Written (x : Writer) : Z := off x.

Definition flush (x : Writer) : option error * Writer :=
  let crc1 := CRC.UpdateCRC (crc x) (buf x) in
  let dst := Encrypt (c x) (buf x) in
  let '(_, err, d) := sink_Write (w x) dst in
  (err,
   {| w := d; at_ := at_ x; c := c x; buf := buf x; n := 0;
      off := int64 (off x + int64 (Block - n x)); crc := crc1;
      NoZero := NoZero x |}).

Definition Flush (x : Writer) : option error * Writer :=
  if n x =? 0 then (None, x)
  else
    let x1 :=
      if negb (NoZero x) && negb (n x =? len (buf x)) then
        set_buf x (slice_to (buf x) (n x)
                   ++ fst (copy (slice_from (buf x) (n x)) empty))
      else x in
    flush x1.

Definition Close (x : Writer) : option error * Writer := Flush x.

Definition write (x : Writer) (p : list byte) : Z * option error * Writer :=
  let '(tl, k) := copy (slice_from (buf x) (n x)) p in
  let x1 :=
    {| w := w x; at_ := at_ x; c := c x;
       buf := slice_to (buf x) (n x) ++ tl;
       n := n x + k; off := int64 (off x + int64 k); crc := crc x;
       NoZero := NoZero x |} in
  if n x1 =? len (buf x1) then
    match flush x1 with
    | (Some err, x2) => (0, Some err, x2)
    | (None, x2) =>
        (k, None,
         if NoZero x2 then set_buf x2 (fst (copy (buf x2) empty)) else x2)
    end
  else (k, None, x1).

(** The loop of [Write]; [total] is the running count. *)
Fixpoint Write_loop (fuel : nat) (x : Writer) (p : list byte) (total : Z)
  : option (Z * option error * Writer) :=
  match fuel with
  | O => None
  | Datatypes.S fuel' =>
      if len p >? 0 then
        let '(k, err, x1) := write x p in
        let total := total + k in
        match err with
        | Some e => Some (total, Some e, x1)
        | None => Write_loop fuel' x1 (slice_from p k) total
        end
      else Some (total, None, x)
  end.

(** Every iteration but possibly the first consumes a byte, so this much
    fuel is never used up on a well-formed state ([Write_total]). *)
Definition Write (x : Writer) (p : list byte)
  : option (Z * option error * Writer) :=
  Write_loop (length p + 2) x p 0.

Definition Write_err (x : Writer) (p : list byte)
  : option (option error * Writer) :=
  r <- Write x p ;; Some (snd (fst r), snd r).

Definition WriteU8 (x : Writer) (v : Z) := Write_err x [byte_of_Z v].
Definition WriteU16 (x : Writer) (v : Z) := Write_err x (PutUint 2 v).
Definition WriteU32 (x : Writer) (v : Z) := Write_err x (PutUint 4 v).
Definition WriteU64 (x : Writer) (v : Z) := Write_err x (PutUint 8 v).
Definition WriteI8 (x : Writer) (v : Z) := WriteU8 x (to_unsigned 1 v).
Definition WriteI16 (x : Writer) (v : Z) := WriteU16 x (to_unsigned 2 v).
Definition WriteI32 (x : Writer) (v : Z) := WriteU32 x (to_unsigned 4 v).
Definition WriteI64 (x : Writer) (v : Z) := WriteU64 x (to_unsigned 8 v).

Definition WriteEmpty (x : Writer) : Z * option error * Writer :=
  match Flush x with
  | (Some err, x1) => (0, Some err, x1)
  | (None, x1) =>
      let crc1 := CRC.UpdateCRC (crc x1) empty in
      let '(_, err, d) := sink_Write (w x1) empty in
      (off x1, err,
       {| w := d; at_ := at_ x1; c := c x1; buf := buf x1; n := n x1;
          off := int64 (off x1 + Block); crc := crc1; NoZero := NoZero x1 |})
  end.

Definition WriteBlockAt (x : Writer) (b : list byte) (o : Z)
  : option error * Writer :=
  match at_ x with
  | None =>
      (Some (ErrNew "WriteAt is not supported by the underlying writer"%string), x)
  | Some WriteAt =>
      let dst := Encrypt (c x) b in
      let '(_, err, d) := WriteAt (w x) dst o in
      (err,
       {| w := d; at_ := at_ x; c := c x; buf := buf x; n := n x;
          off := off x; crc := crc x; NoZero := NoZero x |})
  end.

(** [var buf [Block]byte; binary.LittleEndian.PutUint64(buf[:], v)] *)
Definition WriteU64At (x : Writer) (v o : Z) : option error * Writer :=
  WriteBlockAt x (fst (copy empty (PutUint 8 v))) o.

Definition WriteU32At (x : Writer) (v o : Z) : option error * Writer :=
  WriteBlockAt x (fst (copy empty (PutUint 4 v))) o.

Definition WriteI64At (x : Writer) (v o : Z) : option error * Writer :=
  WriteU64At x (to_unsigned 8 v) o.

Definition WriteI32At (x : Writer) (v o : Z) : option error * Writer :=
  WriteU32At x (to_unsigned 4 v) o.

End WithSink.
Arguments Writer S : clear implicits.
End CrcWriter.

(** ** writer.go, the variant without the checksum and without patching *)

Module PlainWriter.
Section WithSink.
Context {S : Type} {sinkS : Sink S}.

Record Writer : Type := {
  w : S;
  c : Cipher;
  buf : list byte;
  n : Z;
  off : Z;
  NoZero : bool
}.

Definition set_buf (x : Writer) (b : list byte) : Writer :=
  {| w := w x; c := c x; buf := b; n := n x; off := off x;
     NoZero := NoZero x |}.

Definition Reset (x : Writer) (d : S) : Writer :=
  {| w := d; c := c x; buf := buf x; n := 0; off := 0; NoZero := NoZero x |}.

Definition NewWriter (NewCipher : Z -> Cipher + error) (d : S) (key : Z)
  : Writer + error :=
  match NewCipher key with
  | inr err => inr err
  | inl c0 =>
      inl (Reset {| w := d; c := c0; buf := empty; n := 0; off := 0;
                    NoZero := false |} d)
  end.

Definition Written (x : Writer) : Z := off x.

Definition flush (x : Writer) : option error * Writer :=
  let dst := Encrypt (c x) (buf x) in
  let '(_, err, d) := sink_Write (w x) dst in
  (err,
   {| w := d; c := c x; buf := buf x; n := 0;
      off := int64 (off x + int64 (Block - n x)); NoZero := NoZero x |}).

Definition Flush (x : Writer) : option error * Writer :=
  if n x =? 0 then (None, x)
  else
    let x1 :=
      if negb (NoZero x) && negb (n x =? len (buf x)) then
        set_buf x (slice_to (buf x) (n x)
                   ++ fst (copy (slice_from (buf x) (n x)) empty))
      else x in
    flush x1.

Definition Close (x : Writer) : option error * Writer := Flush x.

Definition write (x : Writer) (p : list byte) : Z * option error * Writer :=
  let '(tl, k) := copy (slice_from (buf x) (n x)) p in
  let x1 :=
    {| w := w x; c := c x; buf := slice_to (buf x) (n x) ++ tl;
       n := n x + k; off := int64 (off x + int64 k); NoZero := NoZero x |} in
  if n x1 =? len (buf x1) then
    match flush x1 with
    | (Some err, x2) => (0, Some err, x2)
    | (None, x2) =>
        (k, None,
         if NoZero x2 then set_buf x2 (fst (copy (buf x2) empty)) else x2)
    end
  else (k, None, x1).

Fixpoint Write_loop (fuel : nat) (x : Writer) (p : list byte) (total : Z)
  : option (Z * option error * Writer) :=
  match fuel with
  | O => None
  | Datatypes.S fuel' =>
      if len p >? 0 then
        let '(k, err, x1) := write x p in
        let total := total + k in
        match err with
        | Some e => Some (total, Some e, x1)
        | None => Write_loop fuel' x1 (slice_from p k) total
        end
      else Some (total, None, x)
  end.

Definition Write (x : Writer) (p : list byte)
  : option (Z * option error * Writer) :=
  Write_loop (length p + 2) x p 0.

Definition Write_err (x : Writer) (p : list byte)
  : option (option error * Writer) :=
  r <- Write x p ;; Some (snd (fst r), snd r).

Definition WriteU8 (x : Writer) (v : Z) := Write_err x [byte_of_Z v].
Definition WriteU16 (x : Writer) (v : Z) := Write_err x (PutUint 2 v).
Definition WriteU32 (x : Writer) (v : Z) := Write_err x (PutUint 4 v).
Definition WriteU64 (x : Writer) (v : Z) := Write_err x (PutUint 8 v).
Definition WriteI8 (x : Writer) (v : Z) := WriteU8 x (to_unsigned 1 v).
Definition WriteI16 (x : Writer) (v : Z) := WriteU16 x (to_unsigned 2 v).
Definition WriteI32 (x : Writer) (v : Z) := WriteU32 x (to_unsigned 4 v).
Definition WriteI64 (x : Writer) (v : Z) := WriteU64 x (to_unsigned 8 v).

Definition WriteEmpty (x : Writer) : option error * Writer :=
  match Flush x with
  | (Some err, x1) => (Some err, x1)
  | (None, x1) =>
      let '(_, err, d) := sink_Write (w x1) empty in
      (err,
       {| w := d; c := c x1; buf := buf x1; n := n x1;
          off := int64 (off x1 + Block); NoZero := NoZero x1 |})
  end.

End WithSink.
Arguments Writer S : clear implicits.
End PlainWriter.

(** ** reader.go

    [c] may be [nil], in which case blocks are served as they are read. *)

Module BlockReader.
Section WithSource.
Context {S : Type} {sourceS : Source S}.

Record Reader : Type := {
  r : S;
  s : option (S -> Z -> Z -> Z * option error * S);
  c : option Cipher;
  buf : list byte;
  i : Z
}.

Definition set_i (x : Reader) (k : Z) : Reader :=
  {| r := r x; s := s x; c := c x; buf := buf x; i := k |}.

Definition set_r (x : Reader) (d : S) : Reader :=
  {| r := d; s := s x; c := c x; buf := buf x; i := i x |}.

Definition Reset (x : Reader) (d : S) : Reader :=
  {| r := d; s := src_Seeker; c := c x; buf := buf x; i := -1 |}.

Definition NewReader (NewCipher : Z -> Cipher + error) (d : S) (key : Z)
  : Reader + error :=
  match NewCipher key with
  | inr err => inr err
  | inl c0 =>
      inl (Reset {| r := d; s := None; c := Some c0; buf := empty; i := 0 |} d)
  end.

Definition Buffered (x : Reader) : Z :=
  if (i x <? 0) || (i x >=? Block) then 0 else Block - i x.

(** [io.ReadFull(r.r, r.buf[:])] stores what it read into the front of
    [r.buf], also when it fails half-way. *)
Definition readNext (x : Reader) : option error * Reader :=
  let '(bs, err, d) := src_ReadFull (r x) (len (buf x)) in
  let buf1 := fst (copy (buf x) bs) in
  match err with
  | Some e => (Some e, {| r := d; s := s x; c := c x; buf := buf1; i := i x |})
  | None =>
      (None,
       {| r := d; s := s x; c := c x;
          buf := match c x with
                 | Some c0 => Decrypt c0 buf1
                 | None => buf1
                 end;
          i := 0 |})
  end.

(** [read] also returns the new contents of the caller's slice [p]. *)
Definition read (x : Reader) (p : list byte)
  : Z * option error * Reader * list byte :=
  let '(err, x1) :=
    if (i x <? 0) || (i x >=? Block) then readNext x else (None, x) in
  match err with
  | Some e => (0, Some e, x1, p)
  | None =>
      let '(p1, k) := copy p (slice_from (buf x1) (i x1)) in
      (k, None, set_i x1 (i x1 + k), p1)
  end.

(** The loop of [Read]. [done] is the part of the caller's slice that the
    loop has stepped over with [p = p[n:]]; the slice as the caller sees it
    afterwards is [done ++ p]. *)
Fixpoint Read_loop (fuel : nat) (x : Reader) (done p : list byte) (total : Z)
  : option (Z * option error * Reader * list byte) :=
  match fuel with
  | O => None
  | Datatypes.S fuel' =>
      if len p >? 0 then
        let '(k, err, x1, p1) := read x p in
        let total := total + k in
        match err with
        | Some e => Some (total, Some e, x1, done ++ p1)
        | None =>
            Read_loop fuel' x1 (done ++ slice_to p1 k) (slice_from p1 k) total
        end
      else Some (total, None, x, done ++ p)
  end.

Definition Read (x : Reader) (p : list byte)
  : option (Z * option error * Reader * list byte) :=
  Read_loop (length p + 1) x [] p 0.

(** The typed reads: [var b [k]byte; _, err := r.Read(b[:])], and the
    value of [b] is returned next to the error, whatever the error. *)
Definition ReadUint (k : nat) (x : Reader)
  : option (Z * option error * Reader) :=
  res <- Read x (repeat x00 k) ;;
  let '(_, err, x1, b) := res in Some (Uint b, err, x1).

Definition ReadU8 (x : Reader) : option (Z * option error * Reader) :=
  res <- Read x (repeat x00 1) ;;
  let '(_, err, x1, b) := res in Some (Z_of_byte (nth 0 b x00), err, x1).

Definition ReadU16 (x : Reader) := ReadUint 2 x.
Definition ReadU32 (x : Reader) := ReadUint 4 x.
Definition ReadU64 (x : Reader) := ReadUint 8 x.

Definition ReadI8 (x : Reader) : option (Z * option error * Reader) :=
  res <- ReadU8 x ;;
  let '(v, err, x1) := res in Some (to_signed 1 v, err, x1).

Definition ReadI16 (x : Reader) : option (Z * option error * Reader) :=
  res <- ReadU16 x ;;
  let '(v, err, x1) := res in Some (to_signed 2 v, err, x1).

Definition ReadI32 (x : Reader) : option (Z * option error * Reader) :=
  res <- ReadU32 x ;;
  let '(v, err, x1) := res in Some (to_signed 4 v, err, x1).

Definition ReadI64 (x : Reader) : option (Z * option error * Reader) :=
  res <- ReadU64 x ;;
  let '(v, err, x1) := res in Some (to_signed 8 v, err, x1).

Definition Align (x : Reader) : option error * Reader :=
  if negb (Z.rem (Buffered x) Block =? 0) then
    match readNext x with
    | (Some err, x1) => (Some err, x1)
    | (None, x1) => (None, x1)
    end
  else (None, x).

Definition ReadAligned (x : Reader) (p : list byte)
  : option (Z * option error * Reader * list byte) :=
  match Align x with
  | (Some err, x1) => Some (0, Some err, x1, p)
  | (None, x1) =>
      res <- Read x1 empty ;;
      let '(k, err, x2, b) := res in
      match err with
      | Some e => Some (0, Some e, x2, p)
      | None =>
          if negb (k =? 8) then Some (0, Some ErrUnexpectedEOF, x2, p)
          else let '(p1, k1) := copy p b in Some (k1, None, x2, p1)
      end
  end.

Definition Seek (x : Reader) (off whence : Z) : Z * option error * Reader :=
  match s x with
  | None => (0, Some (ErrNew "reader cannot seek"%string), x)
  | Some seek =>
      let off :=
        if whence =? SeekCurrent then int64 (off - int64 (Buffered x))
        else off in
      let '(cur, err, d) := seek (r x) off whence in
      let x1 := set_i (set_r x d) (-1) in
      match err with
      | Some e => (0, Some e, x1)
      | None =>
          let rem := Z.rem cur Block in
          if rem =? 0 then (cur, None, x1)
          else
            let '(_, err, d) := seek (r x1) (int64 (- rem)) SeekCurrent in
            let x2 := set_r x1 d in
            match err with
            | Some e => (0, Some e, x2)
            | None =>
                match readNext x2 with
                | (Some e, x3) => (0, Some e, x3)
                | (None, x3) => (cur, None, set_i x3 rem)
                end
            end
      end
  end.

End WithSource.
Arguments Reader S : clear implicits.
End BlockReader.

(** ** In-memory collaborators

    The sinks and sources the package is run against: Go's [bytes.Buffer]
    as a sink, a sink of bounded capacity, Go's [bytes.Reader] as a seekable
    source and a plain stream as a source that cannot seek. *)

(** [bytes.Buffer]: [Write] appends and never fails; there is no
    [WriteAt]. *)
Definition Buffer : Type := list byte.

#[export] Instance Buffer_Sink : Sink Buffer := {
  sink_Write := fun d p => (len p, None, d ++ p);
  sink_WriterAt := None
}.

(** A sink that accepts [room] more bytes and then fails, writing nothing. *)
Record Bounded : Type := { stored : list byte; room : Z }.

Definition Bounded_Write (d : Bounded) (p : list byte)
  : Z * option error * Bounded :=
  if len p <=? room d then
    (len p, None, {| stored := stored d ++ p; room := room d - len p |})
  else (0, Some (ErrIO 28), d).

#[export] Instance Bounded_Sink : Sink Bounded := {
  sink_Write := Bounded_Write;
  sink_WriterAt := None
}.

(** [bytes.Reader]: the bytes and the read position. *)
Record BytesReader : Type := { data : list byte; pos : Z }.

(** [io.ReadFull] over [bytes.Reader.Read]: [io.EOF] when nothing is left,
    [io.ErrUnexpectedEOF] when fewer than [k] bytes are. *)
Definition BytesReader_ReadFull (d : BytesReader) (k : Z)
  : list byte * option error * BytesReader :=
  let rest := slice_from (data d) (pos d) in
  if k <=? 0 then ([], None, d)
  else if len rest =? 0 then ([], Some EOF, d)
  else if len rest <? k then
    (rest, Some ErrUnexpectedEOF, {| data := data d; pos := pos d + len rest |})
  else (slice_to rest k, None, {| data := data d; pos := pos d + k |}).

(** [bytes.Reader.Seek] *)
Definition BytesReader_Seek (d : BytesReader) (off whence : Z)
  : Z * option error * BytesReader :=
  let abs :=
    if whence =? SeekStart then Some off
    else if whence =? SeekCurrent then Some (int64 (pos d + off))
    else if whence =? SeekEnd then Some (int64 (len (data d) + off))
    else None in
  match abs with
  | None => (0, Some (ErrNew "bytes.Reader.Seek: invalid whence"%string), d)
  | Some a =>
      if a <? 0 then
        (0, Some (ErrNew "bytes.Reader.Seek: negative position"%string), d)
      else (a, None, {| data := data d; pos := a |})
  end.

#[export] Instance BytesReader_Source : Source BytesReader := {
  src_ReadFull := BytesReader_ReadFull;
  src_Seeker := Some BytesReader_Seek
}.

(** A source that is consumed as it is read and cannot seek. *)
Record Stream : Type := { rest : list byte }.

Definition Stream_ReadFull (d : Stream) (k : Z)
  : list byte * option error * Stream :=
  if k <=? 0 then ([], None, d)
  else if len (rest d) =? 0 then ([], Some EOF, d)
  else if len (rest d) <? k then
    (rest d, Some ErrUnexpectedEOF, {| rest := [] |})
  else (slice_to (rest d) k, None, {| rest := slice_from (rest d) k |}).

#[export] Instance Stream_Source : Source Stream := {
  src_ReadFull := Stream_ReadFull;
  src_Seeker := None
}.

(** A block cipher to run the model on: it reverses the block, and is its
    own inverse. *)
Definition revCipher : Cipher := {| Encrypt := @rev byte; Decrypt := @rev byte |}.

(** A cipher construction that accepts the keys 0..23 (the shape of the
    missing [NewCipher]; used to run the model). *)
Definition revNewCipher (key : Z) : Cipher + error :=
  if (0 <=? key) && (key <? 24) then inl revCipher
  else inr (ErrNew "invalid key"%string).


(** ** Calls made on a writer, and the two variants side by side *)

(** The calls both variants offer. [SetNoZero] is the assignment to the
    public field [NoZero]. *)
Inductive call : Type :=
| CallWrite (p : list byte)
| CallWriteU8 (v : Z) | CallWriteU16 (v : Z)
| CallWriteU32 (v : Z) | CallWriteU64 (v : Z)
| CallWriteI8 (v : Z) | CallWriteI16 (v : Z)
| CallWriteI32 (v : Z) | CallWriteI64 (v : Z)
| CallFlush | CallClose | CallWriteEmpty
| CallSetNoZero (b : bool).

(** What a caller sees of a call: the byte count ([Write] only), the error,
    and the value of [Written()] right after it. *)
Record seen : Type := { seen_count : option Z; seen_err : option error;
                        seen_written : Z }.

Section Calls.
Context {S : Type} {sinkS : Sink S}.

Definition set_NoZero_crc (x : CrcWriter.Writer S) (b : bool)
  : CrcWriter.Writer S :=
  {| CrcWriter.w := CrcWriter.w x; CrcWriter.at_ := CrcWriter.at_ x;
     CrcWriter.c := CrcWriter.c x; CrcWriter.buf := CrcWriter.buf x;
     CrcWriter.n := CrcWriter.n x; CrcWriter.off := CrcWriter.off x;
     CrcWriter.crc := CrcWriter.crc x; CrcWriter.NoZero := b |}.

Definition set_NoZero_plain (y : PlainWriter.Writer S) (b : bool)
  : PlainWriter.Writer S :=
  {| PlainWriter.w := PlainWriter.w y; PlainWriter.c := PlainWriter.c y;
     PlainWriter.buf := PlainWriter.buf y; PlainWriter.n := PlainWriter.n y;
     PlainWriter.off := PlainWriter.off y; PlainWriter.NoZero := b |}.

Definition see_crc (k : option Z) (r : option error * CrcWriter.Writer S)
  : seen * CrcWriter.Writer S :=
  ({| seen_count := k; seen_err := fst r;
      seen_written := CrcWriter.Written (snd r) |}, snd r).

Definition see_plain (k : option Z) (r : option error * PlainWriter.Writer S)
  : seen * PlainWriter.Writer S :=
  ({| seen_count := k; seen_err := fst r;
      seen_written := PlainWriter.Written (snd r) |}, snd r).

Definition do_crc (x : CrcWriter.Writer S) (a : call)
  : option (seen * CrcWriter.Writer S) :=
  match a with
  | CallWrite p =>
      r <- CrcWriter.Write x p ;;
      Some (see_crc (Some (fst (fst r))) (snd (fst r), snd r))
  | CallWriteU8 v => r <- CrcWriter.WriteU8 x v ;; Some (see_crc None r)
  | CallWriteU16 v => r <- CrcWriter.WriteU16 x v ;; Some (see_crc None r)
  | CallWriteU32 v => r <- CrcWriter.WriteU32 x v ;; Some (see_crc None r)
  | CallWriteU64 v => r <- CrcWriter.WriteU64 x v ;; Some (see_crc None r)
  | CallWriteI8 v => r <- CrcWriter.WriteI8 x v ;; Some (see_crc None r)
  | CallWriteI16 v => r <- CrcWriter.WriteI16 x v ;; Some (see_crc None r)
  | CallWriteI32 v => r <- CrcWriter.WriteI32 x v ;; Some (see_crc None r)
  | CallWriteI64 v => r <- CrcWriter.WriteI64 x v ;; Some (see_crc None r)
  | CallFlush => Some (see_crc None (CrcWriter.Flush x))
  | CallClose => Some (see_crc None (CrcWriter.Close x))
  | CallWriteEmpty =>
      let '(_, err, x1) := CrcWriter.WriteEmpty x in
      Some (see_crc None (err, x1))
  | CallSetNoZero b => Some (see_crc None (None, set_NoZero_crc x b))
  end.

Definition do_plain (y : PlainWriter.Writer S) (a : call)
  : option (seen * PlainWriter.Writer S) :=
  match a with
  | CallWrite p =>
      r <- PlainWriter.Write y p ;;
      Some (see_plain (Some (fst (fst r))) (snd (fst r), snd r))
  | CallWriteU8 v => r <- PlainWriter.WriteU8 y v ;; Some (see_plain None r)
  | CallWriteU16 v => r <- PlainWriter.WriteU16 y v ;; Some (see_plain None r)
  | CallWriteU32 v => r <- PlainWriter.WriteU32 y v ;; Some (see_plain None r)
  | CallWriteU64 v => r <- PlainWriter.WriteU64 y v ;; Some (see_plain None r)
  | CallWriteI8 v => r <- PlainWriter.WriteI8 y v ;; Some (see_plain None r)
  | CallWriteI16 v => r <- PlainWriter.WriteI16 y v ;; Some (see_plain None r)
  | CallWriteI32 v => r <- PlainWriter.WriteI32 y v ;; Some (see_plain None r)
  | CallWriteI64 v => r <- PlainWriter.WriteI64 y v ;; Some (see_plain None r)
  | CallFlush => Some (see_plain None (PlainWriter.Flush y))
  | CallClose => Some (see_plain None (PlainWriter.Close y))
  | CallWriteEmpty => Some (see_plain None (PlainWriter.WriteEmpty y))
  | CallSetNoZero b => Some (see_plain None (None, set_NoZero_plain y b))
  end.

(** A sequence of calls; the caller goes on after an error. *)
Fixpoint run_crc (x : CrcWriter.Writer S) (l : list call)
  : option (list seen * CrcWriter.Writer S) :=
  match l with
  | [] => Some ([], x)
  | a :: l' =>
      r <- do_crc x a ;;
      r' <- run_crc (snd r) l' ;;
      Some (fst r :: fst r', snd r')
  end.

Fixpoint run_plain (y : PlainWriter.Writer S) (l : list call)
  : option (list seen * PlainWriter.Writer S) :=
  match l with
  | [] => Some ([], y)
  | a :: l' =>
      r <- do_plain y a ;;
      r' <- run_plain (snd r) l' ;;
      Some (fst r :: fst r', snd r')
  end.

(** The state of the plain variant inside a state of the checksum
    variant. *)
Definition forget (x : CrcWriter.Writer S) : PlainWriter.Writer S :=
  {| PlainWriter.w := CrcWriter.w x; PlainWriter.c := CrcWriter.c x;
     PlainWriter.buf := CrcWriter.buf x; PlainWriter.n := CrcWriter.n x;
     PlainWriter.off := CrcWriter.off x;
     PlainWriter.NoZero := CrcWriter.NoZero x |}.

(** Writer states between two calls: a buffer of [Block] bytes and a fill
    cursor below [Block]. *)
Definition writer_idle (x : CrcWriter.Writer S) : Prop :=
  len (CrcWriter.buf x) = Block /\ 0 <= CrcWriter.n x < Block.

(** The logical offset and the fill cursor agree modulo the block size:
    the offset less the pending bytes is a block boundary. *)
Definition offset_aligned (x : CrcWriter.Writer S) : Prop :=
  (CrcWriter.off x - CrcWriter.n x) mod Block = 0.

End Calls.

(** ** Reader states *)

Section ReaderStates.
Context {S : Type} {sourceS : Source S}.

(** [Decrypt] as [readNext] applies it, the identity for a [nil] cipher. *)
Definition decrypt_of (x : BlockReader.Reader S) (b : list byte) : list byte :=
  match BlockReader.c x with
  | Some c0 => Decrypt c0 b
  | None => b
  end.

(** The reader must fetch a block before it can serve a byte. *)
Definition needs_block (x : BlockReader.Reader S) : Prop :=
  BlockReader.i x < 0 \/ Block <= BlockReader.i x.

(** The bytes of the loaded block not yet served. *)
Definition unread (x : BlockReader.Reader S) : list byte :=
  if (BlockReader.i x <? 0) || (BlockReader.i x >=? Block) then []
  else slice_from (BlockReader.buf x) (BlockReader.i x).

Definition reader_ok (x : BlockReader.Reader S) : Prop :=
  len (BlockReader.buf x) = Block /\
  forall b, len b = Block -> len (decrypt_of x b) = Block.

End ReaderStates.

(** A list of blocks. *)
Definition all_blocks (bs : list (list byte)) : Prop :=
  Forall (fun b => len b = Block) bs.

(** Zero bytes up to the next multiple of [Block]. *)
Definition padding (p : list byte) : list byte :=
  repeat x00 (Z.to_nat ((Block - len p mod Block) mod Block)).

(** ** A reader over [bytes.Reader] *)

(** The source is positioned in front of the blocks [cs], the last of its
    data. *)
Definition at_blocks (x : BlockReader.Reader BytesReader)
           (cs : list (list byte)) : Prop :=
  all_blocks cs /\
  exists pre, data (BlockReader.r x) = pre ++ concat cs
              /\ pos (BlockReader.r x) = len pre.

(** The plaintext a reader positioned in front of [cs] has yet to serve. *)
Definition ahead (x : BlockReader.Reader BytesReader)
           (cs : list (list byte)) : list byte :=
  unread x ++ concat (map (decrypt_of x) cs).

(** The offset, in the data, of the next byte the reader serves: the
    source stands at the end of the loaded block, the unread bytes are
    behind it. *)
Definition lpos (x : BlockReader.Reader BytesReader) : Z :=
  pos (BlockReader.r x) - BlockReader.Buffered x.

(** ** Streams of blocks through the writer *)

Section Streams.
Context {S : Type} {sinkS : Sink S}.

(** A set of sink states on which [Write] never fails. *)
Definition reliable (ok : S -> Prop) : Prop :=
  forall d p, ok d ->
    snd (fst (sink_Write d p)) = None /\ ok (snd (sink_Write d p)).

(** The sink after it was handed the encryption of the block [b]. *)
Definition push (c0 : Cipher) (d : S) (b : list byte) : S :=
  snd (sink_Write d (Encrypt c0 b)).

(** The sink in state [d] accepts the encryptions of the blocks [bs],
    handed to it in order, one [Write] each. *)
Fixpoint accepts (c0 : Cipher) (d : S) (bs : list (list byte)) : Prop :=
  match bs with
  | [] => True
  | b :: bs' =>
      snd (fst (sink_Write d (Encrypt c0 b))) = None
      /\ accepts c0 (push c0 d b) bs'
  end.

(** What the flushes of the blocks [bs] leave in a buffer that held [B]:
    the last block, or zeros when [NoZero] is set. *)
Definition carry (nz : bool) (bs : list (list byte)) (B : list byte)
  : list byte :=
  fold_left (fun _ b => if nz then empty else b) bs B.

(** The writer [x] after the blocks [bs] went to the sink, [k] bytes were
    accepted and the bytes [t] are pending. *)
Definition after_blocks (x : CrcWriter.Writer S) (bs : list (list byte))
           (t : list byte) (k : Z) : CrcWriter.Writer S :=
  {| CrcWriter.w := fold_left (push (CrcWriter.c x)) bs (CrcWriter.w x);
     CrcWriter.at_ := CrcWriter.at_ x; CrcWriter.c := CrcWriter.c x;
     CrcWriter.buf :=
       t ++ slice_from (carry (CrcWriter.NoZero x) bs (CrcWriter.buf x)) (len t);
     CrcWriter.n := len t;
     CrcWriter.off := int64 (CrcWriter.off x + k);
     CrcWriter.crc := fold_left CRC.UpdateCRC bs (CrcWriter.crc x);
     CrcWriter.NoZero := CrcWriter.NoZero x |}.

(** [Write] called on each piece in turn and given up at the first error;
    the count is the total of the counts reported. *)
Fixpoint Write_pieces (x : CrcWriter.Writer S) (ps : list (list byte))
  : option (Z * option error * CrcWriter.Writer S) :=
  match ps with
  | [] => Some (0, None, x)
  | p :: ps' =>
      r <- CrcWriter.Write x p ;;
      let '(k, err, x1) := r in
      match err with
      | Some e => Some (k, Some e, x1)
      | None =>
          r' <- Write_pieces x1 ps' ;;
          let '(k', err', x2) := r' in Some (k + k', err', x2)
      end
  end.

End Streams.

(** The bytes that reached a [bytes.Buffer] which held [d0], and the
    logical offset: whole blocks only, and [Written()] counts them and the
    pending bytes. *)
Definition accounted (d0 : Buffer) (x : CrcWriter.Writer Buffer) : Prop :=
  block_cipher (CrcWriter.c x) /\
  (len (CrcWriter.w x) - len d0) mod Block = 0 /\
  CrcWriter.off x = int64 (len (CrcWriter.w x) - len d0 + CrcWriter.n x).

(** ** Typed values through the writer and the reader *)

Inductive width : Type := W8 | W16 | W32 | W64.

Definition width_bytes (w : width) : nat :=
  match w with W8 => 1 | W16 => 2 | W32 => 4 | W64 => 8 end.

(** A value to write with [WriteU8 .. WriteU64] or [WriteI8 .. WriteI64]. *)
Inductive item : Type :=
| Unsigned (w : width) (v : Z)
| Signed (w : width) (v : Z).

Definition item_kind (it : item) : bool * width :=
  match it with
  | Unsigned w _ => (false, w)
  | Signed w _ => (true, w)
  end.

Definition item_value (it : item) : Z :=
  match it with Unsigned _ v | Signed _ v => v end.

(** The value fits the Go type of its call. *)
Definition item_fits (it : item) : Prop :=
  match it with
  | Unsigned w v => 0 <= v < 2 ^ (8 * Z.of_nat (width_bytes w))
  | Signed w v =>
      - 2 ^ (8 * Z.of_nat (width_bytes w) - 1) <= v
      < 2 ^ (8 * Z.of_nat (width_bytes w) - 1)
  end.

(** The bytes the call hands to [Write]. *)
Definition item_bytes (it : item) : list byte :=
  match it with
  | Unsigned w v => PutUint (width_bytes w) v
  | Signed w v =>
      PutUint (width_bytes w) (to_unsigned (width_bytes w) v)
  end.

Section TypedWrites.
Context {S : Type} {sinkS : Sink S}.

Definition write_item (x : CrcWriter.Writer S) (it : item)
  : option (option error * CrcWriter.Writer S) :=
  match it with
  | Unsigned W8 v => CrcWriter.WriteU8 x v
  | Unsigned W16 v => CrcWriter.WriteU16 x v
  | Unsigned W32 v => CrcWriter.WriteU32 x v
  | Unsigned W64 v => CrcWriter.WriteU64 x v
  | Signed W8 v => CrcWriter.WriteI8 x v
  | Signed W16 v => CrcWriter.WriteI16 x v
  | Signed W32 v => CrcWriter.WriteI32 x v
  | Signed W64 v => CrcWriter.WriteI64 x v
  end.

(** The calls in order, given up at the first error. *)
Fixpoint write_items (x : CrcWriter.Writer S) (l : list item)
  : option (option error * CrcWriter.Writer S) :=
  match l with
  | [] => Some (None, x)
  | it :: l' =>
      r <- write_item x it ;;
      match fst r with
      | Some e => Some (Some e, snd r)
      | None => write_items (snd r) l'
      end
  end.

End TypedWrites.

Section TypedReads.
Context {R : Type} {sourceR : Source R}.

Definition read_item (y : BlockReader.Reader R) (k : bool * width)
  : option (Z * option error * BlockReader.Reader R) :=
  match k with
  | (false, W8) => BlockReader.ReadU8 y
  | (false, W16) => BlockReader.ReadU16 y
  | (false, W32) => BlockReader.ReadU32 y
  | (false, W64) => BlockReader.ReadU64 y
  | (true, W8) => BlockReader.ReadI8 y
  | (true, W16) => BlockReader.ReadI16 y
  | (true, W32) => BlockReader.ReadI32 y
  | (true, W64) => BlockReader.ReadI64 y
  end.

(** The reads in order, given up at the first error; the values read
    before it are returned. *)
Fixpoint read_items (y : BlockReader.Reader R) (ks : list (bool * width))
  : option (list Z * option error * BlockReader.Reader R) :=
  match ks with
  | [] => Some ([], None, y)
  | k :: ks' =>
      r <- read_item y k ;;
      let '(v, err, y1) := r in
      match err with
      | Some e => Some ([], Some e, y1)
      | None =>
          r' <- read_items y1 ks' ;;
          let '(vs, err', y2) := r' in Some (v :: vs, err', y2)
      end
  end.

End TypedReads.

(** ** A sink that can be patched

    A file held in memory, as [*os.File] behaves for [Write] and [WriteAt]
    when the device does not fail: [Write] stores at the file offset and
    advances it, [WriteAt] stores at the offset it is given and leaves the
    file offset alone; both extend the file, a gap being filled with
    zeros. [WriteAt] refuses a negative offset. *)
Record MemFile : Type := { file_bytes : list byte; file_pos : Z }.

(** The bytes [l] with [p] stored at offset [o]. *)
Definition write_at (l p : list byte) (o : Z) : list byte :=
  let l' := l ++ repeat x00 (Z.to_nat (o - len l)) in
  slice_to l' o ++ p ++ slice_from l' (o + len p).

Definition MemFile_Write (d : MemFile) (p : list byte)
  : Z * option error * MemFile :=
  (len p, None,
   {| file_bytes := write_at (file_bytes d) p (file_pos d);
      file_pos := file_pos d + len p |}).

Definition MemFile_WriteAt (d : MemFile) (p : list byte) (o : Z)
  : Z * option error * MemFile :=
  if o <? 0 then (0, Some (ErrNew "negative offset"%string), d)
  else (len p, None,
        {| file_bytes := write_at (file_bytes d) p o;
           file_pos := file_pos d |}).

#[export] Instance MemFile_Sink : Sink MemFile := {
  sink_Write := MemFile_Write;
  sink_WriterAt := Some MemFile_WriteAt
}.

(** The file offset stands at the end of the file. *)
Definition at_end (d : MemFile) : Prop := file_pos d = len (file_bytes d).

(** A file that holds [pre], with the file offset at its end. *)
Definition file_of (pre : list byte) : MemFile :=
  {| file_bytes := pre; file_pos := len pre |}.

(** The calls that patch a typed value into a reserved block. *)
Inductive patch : Type :=
| PatchU64 (v : Z) | PatchU32 (v : Z) | PatchI64 (v : Z) | PatchI32 (v : Z).

(** The value as the typed read of the same type returns it. *)
Definition patch_item (pt : patch) : item :=
  match pt with
  | PatchU64 v => Unsigned W64 v
  | PatchU32 v => Unsigned W32 v
  | PatchI64 v => Signed W64 v
  | PatchI32 v => Signed W32 v
  end.

Section Patches.
Context {S : Type} {sinkS : Sink S}.

Definition write_patch (x : CrcWriter.Writer S) (pt : patch) (o : Z)
  : option error * CrcWriter.Writer S :=
  match pt with
  | PatchU64 v => CrcWriter.WriteU64At x v o
  | PatchU32 v => CrcWriter.WriteU32At x v o
  | PatchI64 v => CrcWriter.WriteI64At x v o
  | PatchI32 v => CrcWriter.WriteI32At x v o
  end.

End Patches.

(** ** Concrete inputs *)

Definition demo_key : Z := 3.

Definition demo_payload : list byte :=
  [x01; x02; x03; x04; x05; x06; x07; x08; x09; x0a; x0b].

(** A writer over [bytes.Buffer] with three bytes pending. *)
Definition demo_pending : CrcWriter.Writer Buffer :=
  {| CrcWriter.w := []; CrcWriter.at_ := None; CrcWriter.c := revCipher;
     CrcWriter.buf := [x01; x02; x03; x00; x00; x00; x00; x00];
     CrcWriter.n := 3; CrcWriter.off := 3; CrcWriter.crc := CRC.ZeroCRC;
     CrcWriter.NoZero := false |}.

(** A writer with three bytes pending over a sink that has room for four
    more bytes. *)
Definition demo_full_sink : CrcWriter.Writer Bounded :=
  {| CrcWriter.w := {| stored := []; room := 4 |}; CrcWriter.at_ := None;
     CrcWriter.c := revCipher;
     CrcWriter.buf := [x01; x02; x03; x00; x00; x00; x00; x00];
     CrcWriter.n := 3; CrcWriter.off := 3; CrcWriter.crc := CRC.ZeroCRC;
     CrcWriter.NoZero := false |}.

(** Two encrypted blocks, and the same followed by three stray bytes. *)
Definition demo_blocks : list (list byte) :=
  [[x08; x07; x06; x05; x04; x03; x02; x01];
   [x10; x0f; x0e; x0d; x0c; x0b; x0a; x09]].

Definition demo_truncated : list byte := concat demo_blocks ++ [x13; x12; x11].

(** A reader over [bytes.Reader] with the block [b] loaded and the cursor
    at [k]. *)
Definition demo_reader (d : BytesReader) (b : list byte) (k : Z)
  : BlockReader.Reader BytesReader :=
  {| BlockReader.r := d; BlockReader.s := Some BytesReader_Seek;
     BlockReader.c := Some revCipher; BlockReader.buf := b;
     BlockReader.i := k |}.

(** A reader over a stream, which cannot seek. *)
Definition demo_stream_reader : BlockReader.Reader Stream :=
  {| BlockReader.r := {| rest := concat demo_blocks |}; BlockReader.s := None;
     BlockReader.c := Some revCipher; BlockReader.buf := empty;
     BlockReader.i := -1 |}.

(** Readers over the truncated data, past its two whole blocks: one with no
    block loaded, one with three bytes of the second block unread. *)
Definition demo_unloaded : BlockReader.Reader BytesReader :=
  demo_reader {| data := demo_truncated; pos := 16 |} empty (-1).

Definition demo_loaded : BlockReader.Reader BytesReader :=
  demo_reader {| data := demo_truncated; pos := 16 |}
              [x09; x0a; x0b; x0c; x0d; x0e; x0f; x10] 5.

(** Readers over the two whole blocks: at the end of the data with the
    block exhausted, fresh, with the first block loaded and untouched, and
    with three bytes of it served. *)
Definition demo_exhausted : BlockReader.Reader BytesReader :=
  demo_reader {| data := concat demo_blocks; pos := 16 |} empty 8.

Definition demo_fresh : BlockReader.Reader BytesReader :=
  demo_reader {| data := concat demo_blocks; pos := 0 |} empty (-1).

Definition demo_whole : BlockReader.Reader BytesReader :=
  demo_reader {| data := concat demo_blocks; pos := 8 |}
              [x01; x02; x03; x04; x05; x06; x07; x08] 0.

Definition demo_inside : BlockReader.Reader BytesReader :=
  demo_reader {| data := concat demo_blocks; pos := 8 |}
              [x01; x02; x03; x04; x05; x06; x07; x08] 3.

Definition demo_calls : list call :=
  [CallWrite demo_payload; CallWriteEmpty; CallSetNoZero true;
   CallWriteU16 258; CallFlush].

(** Pieces of a payload, one of them empty. *)
Definition demo_pieces : list (list byte) :=
  [[x04; x05]; []; [x06; x07; x08; x09; x0a; x0b; x0c; x0d; x0e; x0f]].

(** A writer with [NoZero] set, after a short write was flushed: the block
    it flushed is still in the buffer. *)
Definition demo_nozero : CrcWriter.Writer Buffer :=
  {| CrcWriter.w := []; CrcWriter.at_ := None; CrcWriter.c := revCipher;
     CrcWriter.buf := [x11; x12; x13; x14; x15; x00; x00; x00];
     CrcWriter.n := 0; CrcWriter.off := 8; CrcWriter.crc := CRC.ZeroCRC;
     CrcWriter.NoZero := true |}.

(** A used writer, to be [Reset] onto an in-memory file. *)
Definition demo_used : CrcWriter.Writer MemFile :=
  {| CrcWriter.w := file_of [x55]; CrcWriter.at_ := None;
     CrcWriter.c := revCipher;
     CrcWriter.buf := [x11; x12; x13; x14; x15; x00; x00; x00];
     CrcWriter.n := 5; CrcWriter.off := 21; CrcWriter.crc := 7;
     CrcWriter.NoZero := false |}.

Definition demo_items : list item :=
  [Unsigned W8 200; Signed W16 (-2); Unsigned W32 305419896;
   Signed W64 (-1); Signed W8 (-128); Unsigned W16 65535;
   Signed W32 (-2147483648); Unsigned W64 18446744073709551615].

(** The same state with [NoZero] unset. *)
Definition demo_nozero_unset : CrcWriter.Writer Buffer :=
  set_NoZero_crc demo_nozero false.

(** A reader at the end of the two blocks, with two bytes of the second
    block unread. *)
Definition demo_tail : BlockReader.Reader BytesReader :=
  demo_reader {| data := concat demo_blocks; pos := 16 |}
              [x09; x0a; x0b; x0c; x0d; x0e; x0f; x10] 6.

(** A writer over [bytes.Buffer] with three bytes pending in a buffer that
    still holds the tail of an earlier block. *)
Definition demo_stale : CrcWriter.Writer Buffer :=
  {| CrcWriter.w := []; CrcWriter.at_ := None; CrcWriter.c := revCipher;
     CrcWriter.buf := [x01; x02; x03; x14; x15; x16; x17; x18];
     CrcWriter.n := 3; CrcWriter.off := 11; CrcWriter.crc := CRC.ZeroCRC;
     CrcWriter.NoZero := false |}.

(** A writer with three bytes pending over a sink that has room for one
    block, and twenty-two bytes to write to it. *)
Definition demo_one_block_sink : CrcWriter.Writer Bounded :=
  {| CrcWriter.w := {| stored := []; room := 8 |}; CrcWriter.at_ := None;
     CrcWriter.c := revCipher;
     CrcWriter.buf := [x01; x02; x03; x00; x00; x00; x00; x00];
     CrcWriter.n := 3; CrcWriter.off := 3; CrcWriter.crc := CRC.ZeroCRC;
     CrcWriter.NoZero := false |}.

Definition demo_long : list byte :=
  [x04; x05; x06; x07; x08; x09; x0a; x0b; x0c; x0d; x0e; x0f; x10; x11;
   x12; x13; x14; x15; x16; x17; x18; x19].

(** * Properties *)

(** ** Integers, slices and [copy] *)

Lemma len_nonneg {A} (l : list A) : 0 <= len l.
Proof. unfold len. lia. Qed.

Lemma len_app {A} (l1 l2 : list A) : len (l1 ++ l2) = len l1 + len l2.
Proof. unfold len. rewrite length_app. lia. Qed.

Lemma len_nil_inv {A} (l : list A) : len l = 0 -> l = [].
Proof. destruct l; [reflexivity | unfold len; simpl; lia]. Qed.

Lemma len_slice_from {A} (l : list A) (k : Z) :
  0 <= k <= len l -> len (slice_from l k) = len l - k.
Proof. unfold len, slice_from. intros H. rewrite length_skipn. lia. Qed.

Lemma len_slice_to {A} (l : list A) (k : Z) :
  0 <= k <= len l -> len (slice_to l k) = k.
Proof. unfold len, slice_to. intros H. rewrite length_firstn. lia. Qed.

Lemma slice_to_from {A} (l : list A) (k : Z) :
  slice_to l k ++ slice_from l k = l.
Proof. apply firstn_skipn. Qed.

Lemma slice_from_all {A} (l : list A) (k : Z) :
  len l <= k -> slice_from l k = [].
Proof. unfold len, slice_from. intros H. apply skipn_all2. lia. Qed.

Lemma slice_to_all {A} (l : list A) (k : Z) :
  len l <= k -> slice_to l k = l.
Proof. unfold len, slice_to. intros H. apply firstn_all2. lia. Qed.

Lemma slice_to_app {A} (l1 l2 : list A) :
  slice_to (l1 ++ l2) (len l1) = l1.
Proof.
  unfold slice_to, len. rewrite Nat2Z.id, firstn_app, Nat.sub_diag.
  rewrite firstn_all. simpl. apply app_nil_r.
Qed.

Lemma slice_from_app {A} (l1 l2 : list A) :
  slice_from (l1 ++ l2) (len l1) = l2.
Proof.
  unfold slice_from, len. rewrite Nat2Z.id, skipn_app, Nat.sub_diag.
  rewrite skipn_all. reflexivity.
Qed.

Lemma slice_to_app_len {A} (l1 l2 : list A) (k : Z) :
  len l1 = k -> slice_to (l1 ++ l2) k = l1.
Proof. intros <-. apply slice_to_app. Qed.

Lemma slice_from_app_len {A} (l1 l2 : list A) (k : Z) :
  len l1 = k -> slice_from (l1 ++ l2) k = l2.
Proof. intros <-. apply slice_from_app. Qed.

Lemma len_copy {A} (dst src : list A) : len (fst (copy dst src)) = len dst.
Proof.
  unfold copy, len. simpl. rewrite length_app, length_firstn, length_skipn. lia.
Qed.

(** [copy] into a destination that the source fills or overflows. *)
Lemma copy_fill {A} (dst s1 s2 : list A) :
  len s1 = len dst -> copy dst (s1 ++ s2) = (s1, len dst).
Proof.
  unfold copy, len. intros H. f_equal.
  - assert (E : length dst = length s1) by lia.
    rewrite E, firstn_app, Nat.sub_diag, firstn_all. simpl.
    rewrite skipn_all2; [now rewrite !app_nil_r | rewrite length_app; lia].
  - rewrite length_app. lia.
Qed.

(** [copy] of a source shorter than the destination. *)
Lemma copy_short {A} (d1 d2 src : list A) :
  len d1 = len src -> copy (d1 ++ d2) src = (src ++ d2, len src).
Proof.
  unfold copy, len. intros H. f_equal.
  - assert (E : length src = length d1) by lia.
    rewrite firstn_all2 by (rewrite length_app; lia).
    rewrite E, skipn_app, Nat.sub_diag, skipn_all. reflexivity.
  - rewrite length_app. lia.
Qed.

Lemma int64_small (z : Z) : - 2 ^ 63 <= z < 2 ^ 63 -> int64 z = z.
Proof. unfold int64. intros H. rewrite Z.mod_small; lia. Qed.

Lemma int64_range (z : Z) : - 2 ^ 63 <= int64 z < 2 ^ 63.
Proof.
  unfold int64. pose proof (Z.mod_pos_bound (z + 2 ^ 63) (2 ^ 64)). lia.
Qed.

Lemma int64_idem (z : Z) : int64 (int64 z) = int64 z.
Proof. apply int64_small, int64_range. Qed.

Lemma int64_add_l (a b : Z) : int64 (int64 a + b) = int64 (a + b).
Proof.
  unfold int64. f_equal.
  replace ((a + 2 ^ 63) mod 2 ^ 64 - 2 ^ 63 + b + 2 ^ 63)
    with ((a + 2 ^ 63) mod 2 ^ 64 + b) by lia.
  rewrite Zplus_mod_idemp_l. f_equal. lia.
Qed.

(** Wrapping keeps the residue modulo the block size. *)
Lemma int64_mod_Block (z : Z) : int64 z mod Block = z mod Block.
Proof.
  unfold int64, Block.
  pose proof (Z.div_mod (z + 2 ^ 63) (2 ^ 64)).
  replace ((z + 2 ^ 63) mod 2 ^ 64 - 2 ^ 63)
    with (z + (- (2 ^ 61 * ((z + 2 ^ 63) / 2 ^ 64))) * 8) by lia.
  apply Z.mod_add. lia.
Qed.

(** ** The checksum *)

(** The table and the update steps agree with the CRC-32 check value of
    "123456789". *)
Example crc_check_123456789 :
  CRC.UpdateCRCStd CRC.ZeroCRCStd
    [x31; x32; x33; x34; x35; x36; x37; x38; x39] = 0xCBF43926.
Proof. vm_compute. reflexivity. Qed.

Example crc_nox_123456789 :
  CRC.UpdateCRC CRC.ZeroCRC
    [x31; x32; x33; x34; x35; x36; x37; x38; x39] = 0xCBF43926.
Proof. vm_compute. reflexivity. Qed.

Lemma uint32_range (z : Z) : 0 <= uint32 z < 2 ^ 32.
Proof. unfold uint32. apply Z.mod_pos_bound. lia. Qed.

Lemma not32_range (z : Z) : 0 <= not32 z < 2 ^ 32.
Proof. apply uint32_range. Qed.

Lemma not32_involutive (z : Z) : 0 <= z < 2 ^ 32 -> not32 (not32 z) = z.
Proof.
  intros H. unfold not32, uint32, Z.lnot.
  assert (E : forall y, 0 <= y < 2 ^ 32 ->
                        Z.pred (- y) mod 2 ^ 32 = 2 ^ 32 - 1 - y).
  { intros y Hy. replace (Z.pred (- y)) with (2 ^ 32 - 1 - y + (-1) * 2 ^ 32) by lia.
    rewrite Z.mod_add by lia. apply Z.mod_small. lia. }
  rewrite (E z H), E; lia.
Qed.

Lemma lxor_range (a b : Z) :
  0 <= a < 2 ^ 32 -> 0 <= b < 2 ^ 32 -> 0 <= Z.lxor a b < 2 ^ 32.
Proof.
  intros Ha Hb.
  assert (Hn : 0 <= Z.lxor a b) by (apply Z.lxor_nonneg; lia).
  split; [exact Hn |].
  destruct (Z.eq_dec (Z.lxor a b) 0) as [E | E]; [rewrite E; lia |].
  apply Z.log2_lt_pow2; [lia |].
  eapply Z.le_lt_trans; [apply Z.log2_lxor; lia |].
  apply Z.max_lub_lt.
  - destruct (Z.eq_dec a 0) as [-> | ?]; [simpl; lia |].
    apply Z.log2_lt_pow2; lia.
  - destruct (Z.eq_dec b 0) as [-> | ?]; [simpl; lia |].
    apply Z.log2_lt_pow2; lia.
Qed.

Lemma crcTable_range :
  forallb (fun t => (0 <=? t) && (t <? 2 ^ 32)) CRC.crcTable = true.
Proof. vm_compute. reflexivity. Qed.

Lemma crcTable_nth_range (k : nat) : 0 <= nth k CRC.crcTable 0 < 2 ^ 32.
Proof.
  destruct (Nat.lt_ge_cases k (length CRC.crcTable)) as [Hk | Hk].
  - pose proof crcTable_range as H. rewrite forallb_forall in H.
    specialize (H _ (nth_In _ 0 Hk)). lia.
  - rewrite nth_overflow by exact Hk. lia.
Qed.

Lemma step_range (crc : Z) (v : byte) :
  0 <= crc < 2 ^ 32 -> 0 <= CRC.step CRC.crcTable crc v < 2 ^ 32.
Proof.
  intros H. unfold CRC.step. apply lxor_range.
  - apply crcTable_nth_range.
  - rewrite Z.shiftr_div_pow2 by lia. split.
    + apply Z.div_pos; lia.
    + apply Z.div_lt_upper_bound; lia.
Qed.

Lemma fold_step_range (p : list byte) (crc : Z) :
  0 <= crc < 2 ^ 32 -> 0 <= fold_left (CRC.step CRC.crcTable) p crc < 2 ^ 32.
Proof.
  revert crc. induction p as [| v p IH]; intros crc H; simpl.
  - exact H.
  - apply IH, step_range, H.
Qed.

(** One call from the start value is the standard CRC-32 of the bytes, as
    the comment in [UpdateCRC] says. *)
Lemma UpdateCRC_one_call (p : list byte) :
  CRC.UpdateCRC CRC.ZeroCRC p = CRC.UpdateCRCStd CRC.ZeroCRCStd p.
Proof. reflexivity. Qed.

(** X1: The standard variant can be fed piecewise. *)
Lemma UpdateCRCStd_app (crc : Z) (a b : list byte) :
  CRC.UpdateCRCStd (CRC.UpdateCRCStd crc a) b = CRC.UpdateCRCStd crc (a ++ b).
Proof.
  unfold CRC.UpdateCRCStd, CRC.simpleUpdate.
  rewrite fold_left_app, not32_involutive; [reflexivity |].
  apply fold_step_range, not32_range.
Qed.

(** C2, as stated, fails: feeding two zero bytes one at a time gives
    0x6C24028D, feeding them in one call gives 0x41D912FF. *)
Lemma UpdateCRC_split_counterexample :
  CRC.UpdateCRC (CRC.UpdateCRC CRC.ZeroCRC [x00]) [x00] = 0x6C24028D /\
  CRC.UpdateCRC CRC.ZeroCRC ([x00] ++ [x00]) = 0x41D912FF /\
  CRC.UpdateCRC (CRC.UpdateCRC CRC.ZeroCRC [x00]) [x00]
  <> CRC.UpdateCRC CRC.ZeroCRC ([x00] ++ [x00]).
Proof.
  split; [vm_compute; reflexivity |]. split; [vm_compute; reflexivity |].
  vm_compute. discriminate.
Qed.

(** C2, amended: the value returned by [UpdateCRC] is the complement of the
    running accumulator, so a split is invisible exactly when the
    intermediate value is complemented again before the second call:
    [UpdateCRC (^UpdateCRC(ZeroCRC, A), B) = UpdateCRC (ZeroCRC, A ++ B)]. *)
Theorem UpdateCRC_split_complemented (a b : list byte) :
  CRC.UpdateCRC (not32 (CRC.UpdateCRC CRC.ZeroCRC a)) b
  = CRC.UpdateCRC CRC.ZeroCRC (a ++ b).
Proof.
  unfold CRC.UpdateCRC.
  rewrite fold_left_app, not32_involutive; [reflexivity |].
  apply fold_step_range. unfold CRC.ZeroCRC. lia.
Qed.

(** ** The writer *)

Section WriterFacts.
Context {S : Type} {sinkS : Sink S}.

Lemma NewWriter_inl (NewCipher : Z -> Cipher + error) (d : S) (key : Z)
      (x : CrcWriter.Writer S) :
  CrcWriter.NewWriter NewCipher d key = inl x ->
  exists c0, NewCipher key = inl c0 /\
    x = {| CrcWriter.w := d; CrcWriter.at_ := sink_WriterAt;
           CrcWriter.c := c0; CrcWriter.buf := empty; CrcWriter.n := 0;
           CrcWriter.off := 0; CrcWriter.crc := CRC.ZeroCRC;
           CrcWriter.NoZero := false |}.
Proof.
  unfold CrcWriter.NewWriter. destruct (NewCipher key) as [c0 | e]; intros H.
  - exists c0. split; [reflexivity |]. inversion H. reflexivity.
  - discriminate.
Qed.

Lemma fresh_writer_idle (NewCipher : Z -> Cipher + error) (d : S) (key : Z)
      (x : CrcWriter.Writer S) :
  CrcWriter.NewWriter NewCipher d key = inl x -> writer_idle x.
Proof.
  intros H. apply NewWriter_inl in H as (c0 & _ & ->).
  split; simpl; [reflexivity | unfold Block; lia].
Qed.

(** C3, amended: when the flush of the pending data succeeds, leaving the
    state [x1], [WriteEmpty] hands exactly one block of zero bytes to the
    sink, unencrypted, feeds that same zero block to the checksum, moves
    the logical offset one block further and returns the offset
    at which the placeholder begins; buffer and fill cursor stay as the
    flush left them. On a fresh writer the returned offset is 0. *)
Theorem WriteEmpty_reserves_block :
  (forall x x1 : CrcWriter.Writer S,
     CrcWriter.Flush x = (None, x1) ->
     let res := CrcWriter.WriteEmpty x in
     let x2 := snd res in
     fst (fst res) = CrcWriter.off x1 /\
     snd (fst res) = snd (fst (sink_Write (CrcWriter.w x1) empty)) /\
     CrcWriter.w x2 = snd (sink_Write (CrcWriter.w x1) empty) /\
     empty = [x00; x00; x00; x00; x00; x00; x00; x00] /\
     CrcWriter.crc x2 = CRC.UpdateCRC (CrcWriter.crc x1) empty /\
     CrcWriter.off x2 = int64 (CrcWriter.off x1 + Block) /\
     CrcWriter.buf x2 = CrcWriter.buf x1 /\
     CrcWriter.n x2 = CrcWriter.n x1) /\
  (forall NewCipher d key (x : CrcWriter.Writer S),
     CrcWriter.NewWriter NewCipher d key = inl x ->
     CrcWriter.Flush x = (None, x) /\
     fst (fst (CrcWriter.WriteEmpty x)) = 0).
Proof.
  split.
  - intros x x1 HF. unfold CrcWriter.WriteEmpty. rewrite HF.
    destruct (sink_Write (CrcWriter.w x1) empty) as [[k err] d]. simpl.
    repeat split; reflexivity.
  - intros NewCipher d key x H. apply NewWriter_inl in H as (c0 & _ & ->).
    unfold CrcWriter.WriteEmpty. simpl.
    destruct (sink_Write d empty) as [[k err] d']. split; reflexivity.
Qed.

(** Without [io.WriterAt] behind the sink, [WriteBlockAt] reports the error
    at once and leaves the writer as it was. *)
Lemma WriteBlockAt_unsupported (x : CrcWriter.Writer S) (b : list byte) (o : Z) :
  CrcWriter.at_ x = None ->
  CrcWriter.WriteBlockAt x b o
  = (Some (ErrNew "WriteAt is not supported by the underlying writer"%string), x).
Proof. unfold CrcWriter.WriteBlockAt. intros ->. reflexivity. Qed.

Lemma flush_forget (x : CrcWriter.Writer S) :
  PlainWriter.flush (forget x)
  = (fst (CrcWriter.flush x), forget (snd (CrcWriter.flush x))).
Proof.
  unfold PlainWriter.flush, CrcWriter.flush. simpl.
  destruct (sink_Write _ _) as [[k err] d]. reflexivity.
Qed.

Lemma Flush_forget (x : CrcWriter.Writer S) :
  PlainWriter.Flush (forget x)
  = (fst (CrcWriter.Flush x), forget (snd (CrcWriter.Flush x))).
Proof.
  unfold PlainWriter.Flush, CrcWriter.Flush.
  change (PlainWriter.n (forget x)) with (CrcWriter.n x).
  change (PlainWriter.buf (forget x)) with (CrcWriter.buf x).
  change (PlainWriter.NoZero (forget x)) with (CrcWriter.NoZero x).
  destruct (CrcWriter.n x =? 0); [reflexivity |].
  destruct (negb (CrcWriter.NoZero x)
            && negb (CrcWriter.n x =? len (CrcWriter.buf x))).
  - exact (flush_forget (CrcWriter.set_buf x _)).
  - apply flush_forget.
Qed.

Lemma write_forget (x : CrcWriter.Writer S) (p : list byte) :
  PlainWriter.write (forget x) p
  = (fst (CrcWriter.write x p), forget (snd (CrcWriter.write x p))).
Proof.
  unfold PlainWriter.write, CrcWriter.write.
  change (PlainWriter.n (forget x)) with (CrcWriter.n x).
  change (PlainWriter.buf (forget x)) with (CrcWriter.buf x).
  destruct (copy _ p) as [tl k]. cbv zeta.
  match goal with
  | |- context [CrcWriter.flush ?x1] => set (y1 := x1)
  end.
  match goal with
  | |- context [PlainWriter.flush ?z] => change z with (forget y1)
  end.
  change (PlainWriter.n (forget y1)) with (CrcWriter.n y1).
  change (PlainWriter.buf (forget y1)) with (CrcWriter.buf y1).
  destruct (CrcWriter.n y1 =? len (CrcWriter.buf y1)); [| reflexivity].
  rewrite flush_forget.
  destruct (CrcWriter.flush y1) as [[e |] x2]; cbn [fst snd]; [reflexivity |].
  change (PlainWriter.NoZero (forget x2)) with (CrcWriter.NoZero x2).
  destruct (CrcWriter.NoZero x2); reflexivity.
Qed.

Lemma Write_loop_forget (fuel : nat) :
  forall (x : CrcWriter.Writer S) (p : list byte) (total : Z),
    PlainWriter.Write_loop fuel (forget x) p total
    = option_map (fun r => (fst r, forget (snd r)))
                 (CrcWriter.Write_loop fuel x p total).
Proof.
  induction fuel as [| fuel IH]; intros x p total; [reflexivity |].
  cbn [PlainWriter.Write_loop CrcWriter.Write_loop].
  destruct (len p >? 0); [| reflexivity].
  rewrite write_forget.
  destruct (CrcWriter.write x p) as [[k [e |]] x1]; cbn [fst snd]; [reflexivity |].
  apply IH.
Qed.

Lemma Write_forget (x : CrcWriter.Writer S) (p : list byte) :
  PlainWriter.Write (forget x) p
  = option_map (fun r => (fst r, forget (snd r))) (CrcWriter.Write x p).
Proof. apply Write_loop_forget. Qed.

Lemma Write_err_forget (x : CrcWriter.Writer S) (p : list byte) :
  PlainWriter.Write_err (forget x) p
  = option_map (fun r => (fst r, forget (snd r))) (CrcWriter.Write_err x p).
Proof.
  unfold PlainWriter.Write_err, CrcWriter.Write_err. rewrite Write_forget.
  destruct (CrcWriter.Write x p) as [[[k e] x1] |]; reflexivity.
Qed.

Lemma WriteEmpty_forget (x : CrcWriter.Writer S) :
  PlainWriter.WriteEmpty (forget x)
  = (snd (fst (CrcWriter.WriteEmpty x)), forget (snd (CrcWriter.WriteEmpty x))).
Proof.
  unfold PlainWriter.WriteEmpty, CrcWriter.WriteEmpty. rewrite Flush_forget.
  destruct (CrcWriter.Flush x) as [[e |] x1]; cbn [fst snd]; [reflexivity |].
  change (PlainWriter.w (forget x1)) with (CrcWriter.w x1).
  destruct (sink_Write (CrcWriter.w x1) empty) as [[k err] d]. reflexivity.
Qed.

(** One call on the plain variant is the same call on the checksum variant
    with the checksum forgotten. *)
Lemma do_forget (x : CrcWriter.Writer S) (a : call) :
  do_plain (forget x) a
  = option_map (fun r => (fst r, forget (snd r))) (do_crc x a).
Proof.
  destruct a; cbn [do_plain do_crc];
    unfold PlainWriter.WriteU8, PlainWriter.WriteU16, PlainWriter.WriteU32,
      PlainWriter.WriteU64, PlainWriter.WriteI8, PlainWriter.WriteI16,
      PlainWriter.WriteI32, PlainWriter.WriteI64, CrcWriter.WriteU8,
      CrcWriter.WriteU16, CrcWriter.WriteU32, CrcWriter.WriteU64,
      CrcWriter.WriteI8, CrcWriter.WriteI16, CrcWriter.WriteI32,
      CrcWriter.WriteI64, PlainWriter.WriteU8, PlainWriter.WriteU16,
      PlainWriter.WriteU32, PlainWriter.WriteU64, CrcWriter.WriteU8,
      CrcWriter.WriteU16, CrcWriter.WriteU32, CrcWriter.WriteU64;
    rewrite ?Write_err_forget, ?Write_forget.
  all: try match goal with
    | |- context [CrcWriter.Write_err ?x ?p] =>
        destruct (CrcWriter.Write_err x p) as [[e x1] |]; reflexivity
    | |- context [CrcWriter.Write ?x ?p] =>
        destruct (CrcWriter.Write x p) as [[[k e] x1] |]; reflexivity
    end.
  - unfold see_plain, see_crc. rewrite Flush_forget. reflexivity.
  - unfold see_plain, see_crc, PlainWriter.Close, CrcWriter.Close.
    rewrite Flush_forget. reflexivity.
  - rewrite WriteEmpty_forget.
    destruct (CrcWriter.WriteEmpty x) as [[k e] x1]. reflexivity.
  - reflexivity.
Qed.

Lemma run_forget (l : list call) :
  forall x : CrcWriter.Writer S,
    run_plain (forget x) l
    = option_map (fun r => (fst r, forget (snd r))) (run_crc x l).
Proof.
  induction l as [| a l IH]; intros x; [reflexivity |].
  cbn [run_plain run_crc]. rewrite do_forget.
  destruct (do_crc x a) as [[o x1] |]; [| reflexivity].
  cbn [option_map bind fst snd]. rewrite IH.
  destruct (run_crc x1 l) as [[os x2] |]; reflexivity.
Qed.

(** [write], when the bytes offered do not fill the buffer. *)
Lemma write_partial (x : CrcWriter.Writer S) (p : list byte) :
  writer_idle x -> CrcWriter.n x + len p < Block ->
  CrcWriter.write x p
  = (len p, None,
     {| CrcWriter.w := CrcWriter.w x; CrcWriter.at_ := CrcWriter.at_ x;
        CrcWriter.c := CrcWriter.c x;
        CrcWriter.buf :=
          slice_to (CrcWriter.buf x) (CrcWriter.n x) ++ p
          ++ slice_from (CrcWriter.buf x) (CrcWriter.n x + len p);
        CrcWriter.n := CrcWriter.n x + len p;
        CrcWriter.off := int64 (CrcWriter.off x + int64 (len p));
        CrcWriter.crc := CrcWriter.crc x;
        CrcWriter.NoZero := CrcWriter.NoZero x |}).
Proof.
  intros [Hb Hn] Hp. pose proof (len_nonneg p) as Hp0.
  unfold CrcWriter.write.
  assert (Hsplit : slice_from (CrcWriter.buf x) (CrcWriter.n x)
                   = slice_to (slice_from (CrcWriter.buf x) (CrcWriter.n x)) (len p)
                     ++ slice_from (CrcWriter.buf x) (CrcWriter.n x + len p)).
  { rewrite <- (slice_to_from (slice_from (CrcWriter.buf x) (CrcWriter.n x)) (len p)) at 1.
    f_equal. unfold slice_from. rewrite skipn_skipn. f_equal. lia. }
  rewrite Hsplit, copy_short.
  2:{ rewrite len_slice_to; [reflexivity |]. rewrite len_slice_from; lia. }
  cbv zeta. cbn [CrcWriter.n CrcWriter.buf].
  replace (CrcWriter.n x + len p =? _) with false; [reflexivity |].
  symmetry. apply Z.eqb_neq.
  rewrite !len_app, len_slice_to, len_slice_from by lia. lia.
Qed.

(** [write], when the bytes offered fill the buffer: the block is flushed. *)
Lemma write_full (x : CrcWriter.Writer S) (p : list byte) :
  writer_idle x -> Block <= CrcWriter.n x + len p ->
  let filled := slice_to (CrcWriter.buf x) (CrcWriter.n x)
                ++ slice_to p (Block - CrcWriter.n x) in
  let '(_, err, d) := sink_Write (CrcWriter.w x) (Encrypt (CrcWriter.c x) filled) in
  let x2 :=
    {| CrcWriter.w := d; CrcWriter.at_ := CrcWriter.at_ x;
       CrcWriter.c := CrcWriter.c x; CrcWriter.buf := filled; CrcWriter.n := 0;
       CrcWriter.off := int64 (CrcWriter.off x + (Block - CrcWriter.n x));
       CrcWriter.crc := CRC.UpdateCRC (CrcWriter.crc x) filled;
       CrcWriter.NoZero := CrcWriter.NoZero x |} in
  len filled = Block /\
  CrcWriter.write x p
  = match err with
    | Some e => (0, Some e, x2)
    | None =>
        (Block - CrcWriter.n x, None,
         if CrcWriter.NoZero x then CrcWriter.set_buf x2 empty else x2)
    end.
Proof.
  intros [Hb Hn] Hp filled. pose proof (len_nonneg p) as Hp0.
  assert (Hf : len filled = Block).
  { unfold filled. rewrite len_app, !len_slice_to; lia. }
  destruct (sink_Write _ _) as [[k0 err] d] eqn:HW. split; [exact Hf |].
  unfold CrcWriter.write.
  rewrite <- (slice_to_from p (Block - CrcWriter.n x)) at 1.
  rewrite copy_fill.
  2:{ rewrite len_slice_to, len_slice_from; lia. }
  cbv zeta. cbn [CrcWriter.n CrcWriter.buf].
  fold filled. rewrite len_slice_from by lia.
  replace (CrcWriter.n x + (len (CrcWriter.buf x) - CrcWriter.n x)) with Block by lia.
  rewrite Hf, Z.eqb_refl. unfold CrcWriter.flush.
  cbn [CrcWriter.n CrcWriter.buf CrcWriter.w CrcWriter.c CrcWriter.crc
       CrcWriter.off CrcWriter.at_ CrcWriter.NoZero].
  rewrite HW.
  assert (Hoff : int64 (int64 (CrcWriter.off x + int64 (len (CrcWriter.buf x) - CrcWriter.n x))
                        + int64 (Block - Block))
                 = int64 (CrcWriter.off x + (Block - CrcWriter.n x))).
  { rewrite Z.sub_diag, (int64_small 0) by (unfold Block; lia). rewrite Z.add_0_r, int64_idem.
    rewrite Hb, (int64_small (Block - CrcWriter.n x)); [reflexivity |].
    unfold Block in *. lia. }
  rewrite Hoff. destruct err as [e |]; [reflexivity |].
  rewrite Hb. cbn [CrcWriter.NoZero]. destruct (CrcWriter.NoZero x); [| reflexivity].
  unfold CrcWriter.set_buf. cbn [CrcWriter.buf]. do 2 f_equal.
  f_equal. change empty with (empty ++ []) at 1. rewrite copy_fill; [reflexivity |].
  rewrite Hf. reflexivity.
Qed.

(** A step of the loop of [Write] on pending bytes consumes at least one
    of them, unless the sink fails, and leaves the writer idle. *)
Lemma write_progress (x : CrcWriter.Writer S) (p : list byte) :
  writer_idle x -> 0 < len p ->
  writer_idle (snd (CrcWriter.write x p)) /\
  (snd (fst (CrcWriter.write x p)) = None ->
   1 <= fst (fst (CrcWriter.write x p)) <= len p).
Proof.
  intros Hx Hp. pose proof Hx as [Hb Hn].
  destruct (Z.lt_ge_cases (CrcWriter.n x + len p) Block) as [Hlt | Hge].
  - rewrite (write_partial x p Hx Hlt). cbn [fst snd]. split; [| lia].
    split; cbn [CrcWriter.buf CrcWriter.n]; [| lia].
    rewrite !len_app, len_slice_to, len_slice_from; lia.
  - pose proof (write_full x p Hx Hge) as H. cbv zeta in H.
    destruct (sink_Write _ _) as [[k0 err] d]. destruct H as [Hf ->].
    destruct err as [e |]; cbn [fst snd].
    + split; [| discriminate]. split; cbn; [exact Hf | unfold Block; lia].
    + split; [| lia]. destruct (CrcWriter.NoZero x);
        (split; cbn; [first [exact Hf | reflexivity] | unfold Block; lia]).
Qed.

Lemma Write_loop_total (fuel : nat) :
  forall (x : CrcWriter.Writer S) (p : list byte) (total : Z),
    writer_idle x -> (length p < fuel)%nat ->
    exists res, CrcWriter.Write_loop fuel x p total = Some res
                /\ writer_idle (snd res).
Proof.
  induction fuel as [| fuel IH]; intros x p total Hx Hfuel; [lia |].
  cbn [CrcWriter.Write_loop].
  destruct (len p >? 0) eqn:Hp.
  2:{ eexists. split; [reflexivity | exact Hx]. }
  assert (Hp' : 0 < len p) by lia.
  destruct (write_progress x p Hx Hp') as [Hidle Hk].
  destruct (CrcWriter.write x p) as [[k [e |]] x1]; cbn [fst snd] in *.
  - eexists. split; [reflexivity | exact Hidle].
  - specialize (Hk eq_refl). apply IH; [exact Hidle |].
    unfold slice_from. rewrite length_skipn. unfold len in *. lia.
Qed.

(** [Write] returns on every idle writer: the fuel is enough. *)
Lemma Write_total (x : CrcWriter.Writer S) (p : list byte) :
  writer_idle x ->
  exists res, CrcWriter.Write x p = Some res /\ writer_idle (snd res).
Proof. intros Hx. apply Write_loop_total; [exact Hx | lia]. Qed.

Lemma flush_idle (x : CrcWriter.Writer S) :
  len (CrcWriter.buf x) = Block -> writer_idle (snd (CrcWriter.flush x)).
Proof.
  intros Hb. unfold CrcWriter.flush.
  destruct (sink_Write _ _) as [[k err] d]. split; cbn; [exact Hb | unfold Block; lia].
Qed.

Lemma Flush_idle (x : CrcWriter.Writer S) :
  writer_idle x -> writer_idle (snd (CrcWriter.Flush x)).
Proof.
  intros Hx. pose proof Hx as [Hb Hn]. unfold CrcWriter.Flush.
  destruct (CrcWriter.n x =? 0); [exact Hx |].
  apply flush_idle.
  destruct (negb (CrcWriter.NoZero x) && _); [| exact Hb].
  cbn [CrcWriter.set_buf CrcWriter.buf].
  rewrite len_app, len_copy, len_slice_to, len_slice_from; lia.
Qed.

Lemma WriteEmpty_idle (x : CrcWriter.Writer S) :
  writer_idle x -> writer_idle (snd (CrcWriter.WriteEmpty x)).
Proof.
  intros Hx. apply Flush_idle in Hx. unfold CrcWriter.WriteEmpty.
  destruct (CrcWriter.Flush x) as [[e |] x1]; cbn [snd] in *; [exact Hx |].
  destruct (sink_Write _ _) as [[k err] d]. exact Hx.
Qed.

Lemma Write_err_total (x : CrcWriter.Writer S) (p : list byte) :
  writer_idle x ->
  exists res, CrcWriter.Write_err x p = Some res /\ writer_idle (snd res).
Proof.
  intros Hx. destruct (Write_total x p Hx) as (res & E & Hidle).
  unfold CrcWriter.Write_err. rewrite E. eexists. split; [reflexivity | exact Hidle].
Qed.

Lemma do_crc_total (x : CrcWriter.Writer S) (a : call) :
  writer_idle x ->
  exists res, do_crc x a = Some res /\ writer_idle (snd res).
Proof.
  intros Hx. destruct a; cbn [do_crc];
    unfold CrcWriter.WriteI8, CrcWriter.WriteI16, CrcWriter.WriteI32,
      CrcWriter.WriteI64, CrcWriter.WriteU8, CrcWriter.WriteU16,
      CrcWriter.WriteU32, CrcWriter.WriteU64.
  all: try match goal with
    | |- context [CrcWriter.Write_err ?y ?p] =>
        destruct (Write_err_total y p Hx) as (res & -> & Hidle);
        eexists; split; [reflexivity | exact Hidle]
    end.
  - destruct (Write_total x p Hx) as (res & -> & Hidle).
    eexists; split; [reflexivity | exact Hidle].
  - eexists; split; [reflexivity | exact (Flush_idle x Hx)].
  - eexists; split; [reflexivity | exact (Flush_idle x Hx)].
  - pose proof (WriteEmpty_idle x Hx) as Hidle.
    destruct (CrcWriter.WriteEmpty x) as [[k e] x1].
    eexists; split; [reflexivity | exact Hidle].
  - eexists; split; [reflexivity | exact Hx].
Qed.

Lemma run_crc_total (l : list call) :
  forall x : CrcWriter.Writer S,
    writer_idle x ->
    exists res, run_crc x l = Some res /\ writer_idle (snd res).
Proof.
  induction l as [| a l IH]; intros x Hx.
  - eexists; split; [reflexivity | exact Hx].
  - cbn [run_crc]. destruct (do_crc_total x a Hx) as (r1 & -> & H1).
    destruct (IH _ H1) as (r2 & E2 & H2). cbn [bind]. rewrite E2.
    eexists; split; [reflexivity | exact H2].
Qed.

(** C9: started on the same sink with the same key, the two variants of
    the writer answer every sequence of calls (Write, the typed integer
    writes, Flush, Close, WriteEmpty, and assignments to NoZero) with the
    same byte counts, the same errors and the same Written() values, and
    leave the same bytes in the sink; both return from every call. *)
Theorem writer_variants_agree
        (NewCipher : Z -> Cipher + error) (d : S) (key : Z)
        (xc : CrcWriter.Writer S) (xp : PlainWriter.Writer S)
        (calls : list call) :
  CrcWriter.NewWriter NewCipher d key = inl xc ->
  PlainWriter.NewWriter NewCipher d key = inl xp ->
  exists (obs : list seen) xc' xp',
    run_crc xc calls = Some (obs, xc') /\
    run_plain xp calls = Some (obs, xp') /\
    PlainWriter.w xp' = CrcWriter.w xc' /\
    PlainWriter.Written xp' = CrcWriter.Written xc' /\
    xp' = forget xc'.
Proof.
  intros Hc Hp. pose proof (fresh_writer_idle _ _ _ _ Hc) as Hidle.
  assert (E : xp = forget xc).
  { apply NewWriter_inl in Hc as (c0 & Hkey & ->).
    unfold PlainWriter.NewWriter in Hp. rewrite Hkey in Hp.
    inversion Hp. reflexivity. }
  subst xp. destruct (run_crc_total calls xc Hidle) as ([obs xc'] & Hrun & _).
  exists obs, xc', (forget xc'). rewrite run_forget, Hrun.
  repeat split; reflexivity.
Qed.

Lemma firstn_repeat_min {A} (a : A) (k m : nat) :
  firstn k (repeat a m) = repeat a (Nat.min k m).
Proof.
  revert m. induction k as [| k IH]; intros [| m]; simpl; [reflexivity .. |].
  f_equal. apply IH.
Qed.

(** [Flush] on a partly filled buffer, zeroing enabled: the tail of the
    buffer is zero-filled, and this padded block is what is checksummed
    and encrypted. *)
Lemma Flush_pads (x : CrcWriter.Writer S) :
  writer_idle x -> CrcWriter.NoZero x = false -> 0 < CrcWriter.n x ->
  let padded := slice_to (CrcWriter.buf x) (CrcWriter.n x)
                ++ repeat x00 (Z.to_nat (Block - CrcWriter.n x)) in
  CrcWriter.Flush x
  = (snd (fst (sink_Write (CrcWriter.w x) (Encrypt (CrcWriter.c x) padded))),
     {| CrcWriter.w := snd (sink_Write (CrcWriter.w x)
                                       (Encrypt (CrcWriter.c x) padded));
        CrcWriter.at_ := CrcWriter.at_ x; CrcWriter.c := CrcWriter.c x;
        CrcWriter.buf := padded; CrcWriter.n := 0;
        CrcWriter.off := int64 (CrcWriter.off x + (Block - CrcWriter.n x));
        CrcWriter.crc := CRC.UpdateCRC (CrcWriter.crc x) padded;
        CrcWriter.NoZero := false |}).
Proof.
  intros [Hb Hn] HZ Hpos padded. unfold CrcWriter.Flush.
  replace (CrcWriter.n x =? 0) with false by (symmetry; apply Z.eqb_neq; lia).
  rewrite HZ, Hb.
  replace (CrcWriter.n x =? Block) with false by (symmetry; apply Z.eqb_neq; lia).
  cbn [negb andb].
  assert (E : fst (copy (slice_from (CrcWriter.buf x) (CrcWriter.n x)) empty)
              = repeat x00 (Z.to_nat (Block - CrcWriter.n x))).
  { unfold copy, empty. cbn [fst].
    rewrite skipn_all2.
    2:{ rewrite repeat_length. unfold slice_from. rewrite length_skipn.
        unfold len in Hb. lia. }
    rewrite app_nil_r, firstn_repeat_min. f_equal.
    unfold slice_from. rewrite length_skipn. unfold len in Hb. lia. }
  rewrite E. fold padded. unfold CrcWriter.flush, CrcWriter.set_buf.
  cbn [CrcWriter.w CrcWriter.c CrcWriter.buf CrcWriter.n CrcWriter.off
       CrcWriter.crc CrcWriter.at_ CrcWriter.NoZero].
  destruct (sink_Write _ _) as [[k err] d]. cbn [fst snd].
  rewrite HZ, (int64_small (Block - CrcWriter.n x)) by (unfold Block in *; lia).
  reflexivity.
Qed.

(** C4: on a fresh writer (NoZero unset), writing 01 02 03 hands nothing
    to the sink; the Flush that follows hands it exactly one block, the
    encryption of 01 02 03 00 00 00 00 00; the checksum is taken over this
    padded plaintext. That the padding is zero is the work of [Flush], not
    of the fresh buffer: on every writer between two calls with bytes
    pending (NoZero unset), whatever the buffer holds behind them, [Flush]
    hands the sink, in one [Write], the encryption of the pending bytes
    followed by zeros, checksums that block and leaves it in the
    buffer. *)
Theorem Flush_pads_short_write :
  (forall (NewCipher : Z -> Cipher + error) (d : S) (key : Z)
          (x : CrcWriter.Writer S),
     CrcWriter.NewWriter NewCipher d key = inl x ->
     let plain := [x01; x02; x03; x00; x00; x00; x00; x00] in
     exists x1 x2,
       CrcWriter.Write x [x01; x02; x03] = Some (3, None, x1) /\
       CrcWriter.w x1 = d /\
       CrcWriter.Flush x1
       = (snd (fst (sink_Write d (Encrypt (CrcWriter.c x) plain))), x2) /\
       CrcWriter.w x2 = snd (sink_Write d (Encrypt (CrcWriter.c x) plain)) /\
       CrcWriter.crc x2 = CRC.UpdateCRC CRC.ZeroCRC plain /\
       CrcWriter.Written x2 = Block) /\
  (forall x : CrcWriter.Writer S,
     writer_idle x -> CrcWriter.NoZero x = false -> 0 < CrcWriter.n x ->
     let plain := slice_to (CrcWriter.buf x) (CrcWriter.n x)
                  ++ repeat x00 (Z.to_nat (Block - CrcWriter.n x)) in
     exists x2,
       CrcWriter.Flush x
       = (snd (fst (sink_Write (CrcWriter.w x)
                               (Encrypt (CrcWriter.c x) plain))), x2) /\
       CrcWriter.w x2
       = snd (sink_Write (CrcWriter.w x) (Encrypt (CrcWriter.c x) plain)) /\
       CrcWriter.crc x2 = CRC.UpdateCRC (CrcWriter.crc x) plain /\
       CrcWriter.buf x2 = plain /\ CrcWriter.n x2 = 0 /\
       CrcWriter.Written x2
       = int64 (CrcWriter.off x + (Block - CrcWriter.n x))).
Proof.
  split.
  - intros NewCipher d key x H plain. apply NewWriter_inl in H as (c0 & _ & ->).
    eexists. eexists. split; [vm_compute; reflexivity |].
    split; [reflexivity |].
    rewrite Flush_pads;
      [| split; [reflexivity | cbn; unfold Block; lia] | reflexivity | cbn; lia].
    split; [reflexivity |]. split; [reflexivity |].
    split; [reflexivity |]. vm_compute. reflexivity.
  - intros x Hx HZ Hn plain. eexists.
    rewrite (Flush_pads x Hx HZ Hn). fold plain.
    split; [reflexivity |]. repeat split.
Qed.

Lemma int64_sub_mod_Block (z m : Z) :
  (int64 z - m) mod Block = (z - m) mod Block.
Proof.
  rewrite Zminus_mod, int64_mod_Block, <- Zminus_mod. reflexivity.
Qed.

Lemma flush_offset_aligned (x : CrcWriter.Writer S) :
  0 <= CrcWriter.n x <= Block -> offset_aligned x ->
  offset_aligned (snd (CrcWriter.flush x)).
Proof.
  unfold offset_aligned, CrcWriter.flush. intros Hn H.
  destruct (sink_Write _ _) as [[k err] d]. cbn [snd CrcWriter.off CrcWriter.n].
  rewrite int64_sub_mod_Block, (int64_small (Block - CrcWriter.n x))
    by (unfold Block in *; lia).
  replace (CrcWriter.off x + (Block - CrcWriter.n x) - 0)
    with (CrcWriter.off x - CrcWriter.n x + 1 * Block) by lia.
  rewrite Z.mod_add by (unfold Block; lia). exact H.
Qed.

Lemma Flush_offset_aligned (x : CrcWriter.Writer S) :
  writer_idle x -> offset_aligned x ->
  offset_aligned (snd (CrcWriter.Flush x)).
Proof.
  intros [Hb Hn] H. unfold CrcWriter.Flush.
  destruct (CrcWriter.n x =? 0); [exact H |].
  apply flush_offset_aligned;
    destruct (negb (CrcWriter.NoZero x) && _); cbn; solve [lia | exact H].
Qed.

Lemma write_offset_aligned (x : CrcWriter.Writer S) (p : list byte) :
  writer_idle x -> offset_aligned x ->
  offset_aligned (snd (CrcWriter.write x p)).
Proof.
  intros Hx H. pose proof Hx as [Hb Hn]. pose proof (len_nonneg p) as Hp.
  unfold offset_aligned in *.
  destruct (Z.lt_ge_cases (CrcWriter.n x + len p) Block) as [Hlt | Hge].
  - rewrite (write_partial x p Hx Hlt). cbn [snd CrcWriter.off CrcWriter.n].
    rewrite int64_sub_mod_Block, (int64_small (len p))
      by (unfold Block in *; lia).
    replace (CrcWriter.off x + len p - (CrcWriter.n x + len p))
      with (CrcWriter.off x - CrcWriter.n x) by lia.
    exact H.
  - pose proof (write_full x p Hx Hge) as HW. cbv zeta in HW.
    destruct (sink_Write _ _) as [[k0 err] d]. destruct HW as [_ ->].
    assert (E : (int64 (CrcWriter.off x + (Block - CrcWriter.n x)) - 0)
                mod Block = 0).
    { rewrite int64_sub_mod_Block.
      replace (CrcWriter.off x + (Block - CrcWriter.n x) - 0)
        with (CrcWriter.off x - CrcWriter.n x + 1 * Block) by lia.
      rewrite Z.mod_add by (unfold Block; lia). exact H. }
    destruct err as [e |]; [exact E |].
    destruct (CrcWriter.NoZero x); exact E.
Qed.

Lemma Write_loop_offset_aligned (fuel : nat) :
  forall (x : CrcWriter.Writer S) (p : list byte) (total : Z) res,
    writer_idle x -> offset_aligned x ->
    CrcWriter.Write_loop fuel x p total = Some res ->
    offset_aligned (snd res).
Proof.
  induction fuel as [| fuel IH]; intros x p total res Hx H HL; [discriminate |].
  cbn [CrcWriter.Write_loop] in HL.
  destruct (len p >? 0) eqn:Hp; [| inversion HL; exact H].
  pose proof (write_offset_aligned x p Hx H) as H1.
  destruct (write_progress x p Hx ltac:(lia)) as [Hidle _].
  destruct (CrcWriter.write x p) as [[k [e |]] x1]; cbn [fst snd] in *.
  - inversion HL. exact H1.
  - exact (IH _ _ _ _ Hidle H1 HL).
Qed.

Lemma WriteEmpty_offset_aligned (x : CrcWriter.Writer S) :
  writer_idle x -> offset_aligned x ->
  offset_aligned (snd (CrcWriter.WriteEmpty x)).
Proof.
  intros Hx H. pose proof (Flush_offset_aligned x Hx H) as HF.
  unfold CrcWriter.WriteEmpty.
  destruct (CrcWriter.Flush x) as [[e |] x1]; cbn [snd] in *; [exact HF |].
  destruct (sink_Write _ _) as [[k err] d]. unfold offset_aligned in *.
  cbn [snd CrcWriter.off CrcWriter.n]. rewrite int64_sub_mod_Block.
  replace (CrcWriter.off x1 + Block - CrcWriter.n x1)
    with (CrcWriter.off x1 - CrcWriter.n x1 + 1 * Block) by lia.
  rewrite Z.mod_add by (unfold Block; lia). exact HF.
Qed.

Lemma do_crc_offset_aligned (x : CrcWriter.Writer S) (a : call) res :
  writer_idle x -> offset_aligned x ->
  do_crc x a = Some res -> offset_aligned (snd res).
Proof.
  intros Hx H. destruct a; cbn [do_crc];
    unfold CrcWriter.WriteI8, CrcWriter.WriteI16, CrcWriter.WriteI32,
      CrcWriter.WriteI64, CrcWriter.WriteU8, CrcWriter.WriteU16,
      CrcWriter.WriteU32, CrcWriter.WriteU64, CrcWriter.Write_err.
  all: try match goal with
    | |- context [CrcWriter.Write ?y ?p] =>
        destruct (CrcWriter.Write y p) as [r |] eqn:E; cbn [bind];
        intros HR; inversion HR; cbn [snd see_crc];
        exact (Write_loop_offset_aligned _ _ _ _ _ Hx H E)
    end.
  - intros HR. inversion HR. exact (Flush_offset_aligned x Hx H).
  - intros HR. inversion HR. exact (Flush_offset_aligned x Hx H).
  - pose proof (WriteEmpty_offset_aligned x Hx H) as HE.
    destruct (CrcWriter.WriteEmpty x) as [[k e] x1].
    intros HR. inversion HR. exact HE.
  - intros HR. inversion HR. exact H.
Qed.

(** Every state reached from a fresh writer keeps the logical offset and
    the fill cursor in step, so that a flush always lands the offset on a
    block boundary. *)
Lemma run_crc_offset_aligned (l : list call) :
  forall (x : CrcWriter.Writer S) res,
    writer_idle x -> offset_aligned x ->
    run_crc x l = Some res -> offset_aligned (snd res).
Proof.
  induction l as [| a l IH]; intros x res Hx H HR.
  - inversion HR. exact H.
  - cbn [run_crc] in HR.
    destruct (do_crc_total x a Hx) as (r1 & E1 & Hidle1).
    pose proof (do_crc_offset_aligned x a r1 Hx H E1) as H1.
    rewrite E1 in HR. cbn [bind] in HR.
    destruct (run_crc (snd r1) l) as [r2 |] eqn:E2; [| discriminate].
    inversion HR. cbn [snd]. exact (IH _ _ Hidle1 H1 E2).
Qed.

Lemma fresh_writer_offset_aligned
      (NewCipher : Z -> Cipher + error) (d : S) (key : Z)
      (x : CrcWriter.Writer S) :
  CrcWriter.NewWriter NewCipher d key = inl x -> offset_aligned x.
Proof.
  intros H. apply NewWriter_inl in H as (c0 & _ & ->). reflexivity.
Qed.

End WriterFacts.

(** ** The reader *)

Lemma copy_slices {A} (dst src : list A) :
  copy dst src
  = (slice_to src (len dst) ++ slice_from dst (len src),
     Z.min (len dst) (len src)).
Proof. unfold copy, slice_to, slice_from, len. rewrite !Nat2Z.id. reflexivity. Qed.

Lemma firstn_plus {A} (a b : nat) :
  forall l : list A, firstn (a + b) l = firstn a l ++ firstn b (skipn a l).
Proof.
  induction a as [| a IH]; intros l; [reflexivity |].
  destruct l as [| h l]; simpl.
  - now rewrite firstn_nil.
  - f_equal. apply IH.
Qed.

Lemma slice_to_add {A} (l : list A) (a b : Z) :
  0 <= a -> 0 <= b ->
  slice_to l (a + b) = slice_to l a ++ slice_to (slice_from l a) b.
Proof.
  intros Ha Hb. unfold slice_to, slice_from.
  rewrite Z2Nat.inj_add by lia. apply firstn_plus.
Qed.

Lemma slice_from_add {A} (l : list A) (a b : Z) :
  0 <= a -> 0 <= b -> slice_from l (a + b) = slice_from (slice_from l a) b.
Proof.
  intros Ha Hb. unfold slice_from. rewrite skipn_skipn. f_equal. lia.
Qed.

Lemma slice_to_app_le {A} (l1 l2 : list A) (k : Z) :
  k <= len l1 -> slice_to (l1 ++ l2) k = slice_to l1 k.
Proof.
  unfold slice_to, len. intros H. rewrite firstn_app.
  replace (Z.to_nat k - length l1)%nat with 0%nat by lia.
  simpl. apply app_nil_r.
Qed.

Lemma slice_from_app_le {A} (l1 l2 : list A) (k : Z) :
  k <= len l1 -> slice_from (l1 ++ l2) k = slice_from l1 k ++ l2.
Proof.
  unfold slice_from, len. intros H. rewrite skipn_app.
  replace (Z.to_nat k - length l1)%nat with 0%nat by lia. reflexivity.
Qed.

Section ReaderFacts.
Context {S : Type} {sourceS : Source S}.

Lemma needs_block_test (x : BlockReader.Reader S) :
  needs_block x ->
  (BlockReader.i x <? 0) || (BlockReader.i x >=? Block) = true.
Proof.
  unfold needs_block. intros H.
  destruct (BlockReader.i x <? 0) eqn:E1, (BlockReader.i x >=? Block) eqn:E2;
    try reflexivity; lia.
Qed.

Lemma loaded_test (x : BlockReader.Reader S) :
  0 <= BlockReader.i x < Block ->
  (BlockReader.i x <? 0) || (BlockReader.i x >=? Block) = false.
Proof.
  intros H.
  destruct (BlockReader.i x <? 0) eqn:E1, (BlockReader.i x >=? Block) eqn:E2;
    try reflexivity; lia.
Qed.

Lemma Buffered_needs_block (x : BlockReader.Reader S) :
  needs_block x -> BlockReader.Buffered x = 0.
Proof.
  unfold needs_block, BlockReader.Buffered. intros H.
  destruct (BlockReader.i x <? 0) eqn:E1; [reflexivity |].
  destruct (BlockReader.i x >=? Block) eqn:E2; [reflexivity | lia].
Qed.

Lemma Buffered_loaded (x : BlockReader.Reader S) :
  0 <= BlockReader.i x < Block ->
  BlockReader.Buffered x = Block - BlockReader.i x.
Proof.
  unfold BlockReader.Buffered. intros H.
  destruct (BlockReader.i x <? 0) eqn:E1; [lia |].
  destruct (BlockReader.i x >=? Block) eqn:E2; [lia | reflexivity].
Qed.

Lemma unread_needs_block (x : BlockReader.Reader S) :
  needs_block x -> unread x = [].
Proof.
  unfold needs_block, unread. intros H.
  destruct (BlockReader.i x <? 0) eqn:E1; [reflexivity |].
  destruct (BlockReader.i x >=? Block) eqn:E2; [reflexivity | lia].
Qed.

Lemma unread_loaded (x : BlockReader.Reader S) :
  0 <= BlockReader.i x < Block ->
  unread x = slice_from (BlockReader.buf x) (BlockReader.i x).
Proof.
  unfold unread. intros H.
  destruct (BlockReader.i x <? 0) eqn:E1; [lia |].
  destruct (BlockReader.i x >=? Block) eqn:E2; [lia | reflexivity].
Qed.

Lemma len_unread (x : BlockReader.Reader S) :
  len (BlockReader.buf x) = Block -> len (unread x) = BlockReader.Buffered x.
Proof.
  intros Hb. unfold unread, BlockReader.Buffered.
  destruct (BlockReader.i x <? 0) eqn:E1; [reflexivity |].
  destruct (BlockReader.i x >=? Block) eqn:E2; [reflexivity |].
  cbn [orb]. rewrite len_slice_from; lia.
Qed.

(** [read] on a loaded block serves from it and leaves the source alone. *)
Lemma read_loaded (x : BlockReader.Reader S) (p : list byte) :
  len (BlockReader.buf x) = Block -> 0 <= BlockReader.i x < Block ->
  let k := Z.min (len p) (Block - BlockReader.i x) in
  BlockReader.read x p
  = (k, None, BlockReader.set_i x (BlockReader.i x + k),
     slice_to (unread x) k ++ slice_from p k).
Proof.
  intros Hb Hi k. pose proof (len_nonneg p) as Hp. unfold BlockReader.read.
  rewrite (loaded_test x Hi).
  rewrite copy_slices, unread_loaded by exact Hi.
  rewrite len_slice_from by lia. rewrite Hb. fold k.
  destruct (Z.le_gt_cases (len p) (Block - BlockReader.i x)) as [Hle | Hgt].
  - replace k with (len p) by lia.
    rewrite (slice_from_all p (Block - BlockReader.i x)) by lia.
    rewrite (slice_from_all p (len p)) by lia. reflexivity.
  - replace k with (Block - BlockReader.i x) by lia.
    rewrite (slice_to_all _ (len p)) by (rewrite len_slice_from; lia).
    rewrite (slice_to_all _ (Block - BlockReader.i x)) by (rewrite len_slice_from; lia).
    reflexivity.
Qed.

(** [read] without a loaded block, when the source fails. *)
Lemma read_fails (x : BlockReader.Reader S) (p bs : list byte) (e : error) (d : S) :
  needs_block x ->
  src_ReadFull (BlockReader.r x) (len (BlockReader.buf x)) = (bs, Some e, d) ->
  BlockReader.read x p
  = (0, Some e,
     {| BlockReader.r := d; BlockReader.s := BlockReader.s x;
        BlockReader.c := BlockReader.c x;
        BlockReader.buf := fst (copy (BlockReader.buf x) bs);
        BlockReader.i := BlockReader.i x |}, p).
Proof.
  intros Hn HR. unfold BlockReader.read.
  rewrite (needs_block_test x Hn).
  unfold BlockReader.readNext. rewrite HR. reflexivity.
Qed.
Lemma Read_unfold (x : BlockReader.Reader S) (p : list byte) :
  0 < len p ->
  BlockReader.Read x p
  = let '(k, err, x1, p1) := BlockReader.read x p in
    match err with
    | Some e => Some (0 + k, Some e, x1, [] ++ p1)
    | None =>
        BlockReader.Read_loop (length p) x1 ([] ++ slice_to p1 k)
                              (slice_from p1 k) (0 + k)
    end.
Proof.
  intros Hp. unfold BlockReader.Read.
  replace (length p + 1)%nat with (Datatypes.S (length p)) by lia.
  cbn [BlockReader.Read_loop].
  replace (len p >? 0) with true by (symmetry; apply Z.gtb_lt; lia).
  reflexivity.
Qed.

(** [read] and [Read] when a block is needed and [io.ReadFull] fails. *)
Lemma Read_needs_block_fails
      (x : BlockReader.Reader S) (p bs : list byte) (e : error) (d : S) :
  needs_block x -> 0 < len p ->
  src_ReadFull (BlockReader.r x) (len (BlockReader.buf x)) = (bs, Some e, d) ->
  exists x',
    BlockReader.read x p = (0, Some e, x', p) /\
    BlockReader.Read x p = Some (0, Some e, x', p) /\
    BlockReader.r x' = d /\
    needs_block x' /\ BlockReader.Buffered x' = 0.
Proof.
  intros Hn Hp HR. eexists.
  split; [exact (read_fails x p bs e d Hn HR) |].
  assert (Hn' : needs_block
                  {| BlockReader.r := d; BlockReader.s := BlockReader.s x;
                     BlockReader.c := BlockReader.c x;
                     BlockReader.buf := fst (copy (BlockReader.buf x) bs);
                     BlockReader.i := BlockReader.i x |}) by exact Hn.
  split; [| split; [reflexivity | split;
                     [exact Hn' | exact (Buffered_needs_block _ Hn')]]].
  rewrite (Read_unfold x p Hp), (read_fails x p bs e d Hn HR). reflexivity.
Qed.

(** [Read] when the loaded block runs out before the caller's slice is
    full and [io.ReadFull] fails on the next block. *)
Lemma Read_unread_then_fails
      (x : BlockReader.Reader S) (p bs : list byte) (e : error) (d : S) :
  len (BlockReader.buf x) = Block ->
  0 <= BlockReader.i x < Block ->
  BlockReader.Buffered x < len p ->
  src_ReadFull (BlockReader.r x) (len (BlockReader.buf x)) = (bs, Some e, d) ->
  exists x',
    BlockReader.Read x p
    = Some (BlockReader.Buffered x, Some e, x',
            unread x ++ slice_from p (BlockReader.Buffered x)) /\
    BlockReader.r x' = d /\
    needs_block x' /\ BlockReader.Buffered x' = 0.
Proof.
  intros Hb Hi Hlen HR.
  rewrite (Buffered_loaded x Hi) in *.
  assert (Hp : 0 < len p) by lia.
  set (x1 := BlockReader.set_i x Block).
  assert (Hn1 : needs_block x1) by (right; cbn; lia).
  eexists. split; [| split; [| split]].
  - rewrite (Read_unfold x p Hp), (read_loaded x p Hb Hi). cbv zeta.
    replace (Z.min (len p) (Block - BlockReader.i x))
      with (Block - BlockReader.i x) by lia.
    replace (BlockReader.i x + (Block - BlockReader.i x)) with Block by lia.
    fold x1.
    assert (Hu : len (unread x) = Block - BlockReader.i x).
    { rewrite (len_unread x Hb). apply (Buffered_loaded x Hi). }
    rewrite (slice_to_all (unread x)) by lia.
    assert (Hrest : 0 < len (slice_from p (Block - BlockReader.i x))).
    { rewrite len_slice_from; lia. }
    rewrite <- Hu in *. rewrite slice_to_app, slice_from_app.
    destruct (length p) as [| fuel] eqn:Hfuel; [unfold len in Hp; lia |].
    cbn [BlockReader.Read_loop].
    replace (len (slice_from p (len (unread x))) >? 0) with true
      by (symmetry; apply Z.gtb_lt; lia).
    rewrite (read_fails x1 _ bs e d Hn1 HR).
    rewrite Z.add_0_l, Z.add_0_r. reflexivity.
  - reflexivity.
  - exact Hn1.
  - apply Buffered_needs_block. exact Hn1.
Qed.

(** C7: [Align] does nothing, and does not touch the source, whenever the
    number of buffered bytes is a multiple of the block size, which is
    the case when no block is loaded, when the block is exhausted and when
    the block is untouched; it refills exactly when the cursor is strictly
    inside the block, and a successful refill replaces the block by the
    next one, decrypted, with the cursor at 0. *)
Theorem Align_when_aligned (x : BlockReader.Reader S) :
  (Z.rem (BlockReader.Buffered x) Block = 0 ->
   BlockReader.Align x = (None, x)) /\
  (needs_block x ->
   BlockReader.Buffered x = 0 /\ BlockReader.Align x = (None, x)) /\
  (Z.rem (BlockReader.Buffered x) Block <> 0 <-> 0 < BlockReader.i x < Block) /\
  (0 < BlockReader.i x < Block ->
   BlockReader.Align x = BlockReader.readNext x /\
   forall bs d,
     src_ReadFull (BlockReader.r x) (len (BlockReader.buf x)) = (bs, None, d) ->
     BlockReader.Align x
     = (None,
        {| BlockReader.r := d; BlockReader.s := BlockReader.s x;
           BlockReader.c := BlockReader.c x;
           BlockReader.buf := decrypt_of x (fst (copy (BlockReader.buf x) bs));
           BlockReader.i := 0 |})).
Proof.
  assert (Hiff : Z.rem (BlockReader.Buffered x) Block <> 0
                 <-> 0 < BlockReader.i x < Block).
  { unfold BlockReader.Buffered.
    destruct (BlockReader.i x <? 0) eqn:E1; [cbn; lia |].
    destruct (BlockReader.i x >=? Block) eqn:E2; [cbn; lia |].
    cbn [orb]. unfold Block in *.
    assert (Hi : 0 <= BlockReader.i x < 8) by lia.
    rewrite Z.rem_mod_nonneg by lia.
    assert (Hcase : BlockReader.i x = 0 \/ 0 < BlockReader.i x < 8) by lia.
    destruct Hcase as [-> | Hin]; [cbn; lia |].
    rewrite Z.mod_small by lia. lia. }
  assert (Hnoop : Z.rem (BlockReader.Buffered x) Block = 0 ->
                  BlockReader.Align x = (None, x)).
  { intros H. unfold BlockReader.Align. rewrite H. reflexivity. }
  split; [exact Hnoop |]. split; [| split; [exact Hiff |]].
  - intros Hn. pose proof (Buffered_needs_block x Hn) as HB.
    split; [exact HB |]. apply Hnoop. rewrite HB. reflexivity.
  - intros Hi. apply Hiff in Hi.
    assert (E : BlockReader.Align x = BlockReader.readNext x).
    { unfold BlockReader.Align.
      replace (Z.rem (BlockReader.Buffered x) Block =? 0) with false
        by (symmetry; apply Z.eqb_neq; exact Hi).
      cbn [negb]. destruct (BlockReader.readNext x) as [[e |] x1]; reflexivity. }
    split; [exact E |]. intros bs d HR. rewrite E.
    unfold BlockReader.readNext. rewrite HR. reflexivity.
Qed.

(** Without [io.Seeker] behind the source, [Seek] reports the error at
    once and leaves the reader as it was. *)
Lemma Seek_unsupported (x : BlockReader.Reader S) (off whence : Z) :
  BlockReader.s x = None ->
  BlockReader.Seek x off whence
  = (0, Some (ErrNew "reader cannot seek"%string), x).
Proof. unfold BlockReader.Seek. intros ->. reflexivity. Qed.

End ReaderFacts.

(** ** Reading blocks from [bytes.Reader] *)

Ltac split_all := repeat match goal with |- _ /\ _ => split end.

Lemma len_concat_blocks (cs : list (list byte)) :
  all_blocks cs -> len (concat cs) = Block * len cs.
Proof.
  induction 1 as [| b cs Hb _ IH]; [reflexivity |].
  cbn [concat]. rewrite len_app, Hb, IH. unfold len. cbn [length]. lia.
Qed.

Lemma all_blocks_map (f : list byte -> list byte) (cs : list (list byte)) :
  (forall b, len b = Block -> len (f b) = Block) ->
  all_blocks cs -> all_blocks (map f cs).
Proof.
  intros Hf. induction 1 as [| b cs Hb _ IH]; constructor; auto.
Qed.

(** [readNext] in front of a block: the block is read, decrypted and
    loaded, and the source moves past it. *)
Lemma readNext_block (x : BlockReader.Reader BytesReader)
      (b : list byte) (cs : list (list byte)) :
  reader_ok x -> at_blocks x (b :: cs) ->
  let x' :=
    {| BlockReader.r := {| data := data (BlockReader.r x);
                           pos := pos (BlockReader.r x) + Block |};
       BlockReader.s := BlockReader.s x; BlockReader.c := BlockReader.c x;
       BlockReader.buf := decrypt_of x b; BlockReader.i := 0 |} in
  BlockReader.readNext x = (None, x') /\ reader_ok x' /\ at_blocks x' cs.
Proof.
  intros [Hb Hdec] [Hall (pre & Hdata & Hpos)] x'.
  inversion Hall as [| b' cs' Hlen Hcs]; subst b' cs'.
  assert (Hrest : slice_from (data (BlockReader.r x)) (pos (BlockReader.r x))
                  = b ++ concat cs).
  { rewrite Hdata, Hpos. apply slice_from_app. }
  split; [| split].
  - unfold BlockReader.readNext. cbn [src_ReadFull BytesReader_Source].
    unfold BytesReader_ReadFull. rewrite Hrest, Hb.
    pose proof (len_nonneg (concat cs)) as Hc.
    replace (Block <=? 0) with false by reflexivity.
    replace (len (b ++ concat cs) =? 0) with false
      by (symmetry; apply Z.eqb_neq; rewrite len_app; unfold Block in *; lia).
    replace (len (b ++ concat cs) <? Block) with false
      by (symmetry; apply Z.ltb_ge; rewrite len_app; lia).
    replace (slice_to (b ++ concat cs) Block) with b
      by (rewrite <- Hlen; symmetry; apply slice_to_app).
    replace (copy (BlockReader.buf x) b) with (b, len (BlockReader.buf x))
      by (rewrite <- (app_nil_r b) at 2; symmetry; apply copy_fill; lia).
    reflexivity.
  - split; [apply Hdec, Hlen | exact Hdec].
  - split; [exact Hcs |]. exists (pre ++ b). subst x'.
    cbn [BlockReader.r data pos].
    split; [rewrite Hdata, <- app_assoc; reflexivity |].
    rewrite len_app, Hpos, Hlen. reflexivity.
Qed.

(** Serving [k] bytes of the loaded block. *)
Lemma unread_set_i (x : BlockReader.Reader BytesReader) (k : Z) :
  len (BlockReader.buf x) = Block -> 0 <= BlockReader.i x < Block ->
  0 <= k <= Block - BlockReader.i x ->
  unread (BlockReader.set_i x (BlockReader.i x + k)) = slice_from (unread x) k.
Proof.
  intros Hb Hi Hk. rewrite (unread_loaded x Hi), <- slice_from_add by lia.
  destruct (Z.eq_dec (BlockReader.i x + k) Block) as [E | E].
  - rewrite unread_needs_block by (right; cbn; lia).
    symmetry. apply slice_from_all. lia.
  - apply unread_loaded. cbn. lia.
Qed.

(** A step of [read] in front of enough plaintext: the bytes are served in
    order, and what is ahead shrinks by as much. *)
Lemma read_ahead (x : BlockReader.Reader BytesReader)
      (cs : list (list byte)) (p : list byte) :
  reader_ok x -> at_blocks x cs -> 0 < len p <= len (ahead x cs) ->
  exists k x' cs',
    BlockReader.read x p
    = (k, None, x', slice_to (ahead x cs) k ++ slice_from p k) /\
    1 <= k <= len p /\
    reader_ok x' /\ at_blocks x' cs' /\
    ahead x' cs' = slice_from (ahead x cs) k /\
    BlockReader.c x' = BlockReader.c x /\
    BlockReader.s x' = BlockReader.s x /\
    data (BlockReader.r x') = data (BlockReader.r x).
Proof.
  intros Hok Hat Hp.
  assert (Hloaded : forall (y : BlockReader.Reader BytesReader) ds,
             reader_ok y -> at_blocks y ds ->
             0 <= BlockReader.i y < Block -> 0 < len p ->
             exists k y',
               BlockReader.read y p
               = (k, None, y', slice_to (ahead y ds) k ++ slice_from p k) /\
               1 <= k <= len p /\
               reader_ok y' /\ at_blocks y' ds /\
               ahead y' ds = slice_from (ahead y ds) k /\
               BlockReader.c y' = BlockReader.c y /\
               BlockReader.s y' = BlockReader.s y /\
               BlockReader.r y' = BlockReader.r y).
  { intros y ds [Hb Hdec] Hds Hi Hp0.
    set (k := Z.min (len p) (Block - BlockReader.i y)).
    assert (Hu : len (unread y) = Block - BlockReader.i y).
    { rewrite (len_unread y Hb). apply (Buffered_loaded y Hi). }
    exists k, (BlockReader.set_i y (BlockReader.i y + k)).
    split; [| split; [lia | split; [split; [exact Hb | exact Hdec] |
              split; [exact Hds | split; [| split_all; reflexivity]]]]].
    - rewrite (read_loaded y p Hb Hi). fold k. unfold ahead.
      rewrite slice_to_app_le by lia. reflexivity.
    - unfold ahead. rewrite unread_set_i by (try assumption; lia).
      rewrite slice_from_app_le by lia. reflexivity. }
  destruct (Z.lt_ge_cases (BlockReader.i x) 0) as [Hneg | Hnn];
    [| destruct (Z.lt_ge_cases (BlockReader.i x) Block) as [Hin | Hout]].
  2:{ destruct (Hloaded x cs Hok Hat (conj Hnn Hin) (proj1 Hp))
        as (k & y' & H1 & H2 & H3 & H4 & H5 & H6 & H7 & H8).
      exists k, y', cs. rewrite H8. split_all; assumption || lia || reflexivity. }
  all: assert (Hn : needs_block x) by (unfold needs_block; lia).
  all: unfold ahead in Hp; rewrite (unread_needs_block x Hn) in Hp;
    cbn [app] in Hp;
    destruct cs as [| b cs]; [cbn in Hp; lia |];
    destruct (readNext_block x b cs Hok Hat) as (HR & Hok' & Hat');
    match type of HR with _ = (None, ?y) => set (x1 := y) in * end;
    destruct (Hloaded x1 cs Hok' Hat' ltac:(cbn; unfold Block; lia) (proj1 Hp))
      as (k & y' & H1 & H2 & H3 & H4 & H5 & H6 & H7 & H8);
    exists k, y', cs;
    assert (Ha : ahead x1 cs = ahead x (b :: cs))
      by (unfold ahead; rewrite (unread_needs_block x Hn),
            (unread_loaded x1) by (cbn; unfold Block; lia); reflexivity);
    rewrite Ha in H1, H5;
    assert (Hread : BlockReader.read x p = BlockReader.read x1 p)
      by (unfold BlockReader.read at 1; rewrite (needs_block_test x Hn), HR;
          unfold BlockReader.read;
          rewrite (loaded_test x1) by (cbn; unfold Block; lia); reflexivity);
    rewrite Hread, H8; split_all; assumption || lia || reflexivity.
Qed.

Lemma Read_loop_ahead (fuel : nat) :
  forall (x : BlockReader.Reader BytesReader) (cs : list (list byte))
         (done p : list byte) (total : Z),
    reader_ok x -> at_blocks x cs -> len p <= len (ahead x cs) ->
    (length p < fuel)%nat ->
    exists x' cs',
      BlockReader.Read_loop fuel x done p total
      = Some (total + len p, None, x', done ++ slice_to (ahead x cs) (len p)) /\
      reader_ok x' /\ at_blocks x' cs' /\
      ahead x' cs' = slice_from (ahead x cs) (len p) /\
      BlockReader.c x' = BlockReader.c x /\
      BlockReader.s x' = BlockReader.s x /\
      data (BlockReader.r x') = data (BlockReader.r x).
Proof.
  induction fuel as [| fuel IH]; intros x cs done p total Hok Hat Hp Hfuel;
    [lia |].
  cbn [BlockReader.Read_loop]. pose proof (len_nonneg p) as Hp0.
  destruct (len p >? 0) eqn:Hpos.
  - assert (Hp1 : 0 < len p <= len (ahead x cs)) by lia.
    destruct (read_ahead x cs p Hok Hat Hp1)
      as (k & x1 & cs1 & HR & Hk & Hok1 & Hat1 & Ha1 & Hc1 & Hs1 & Hd1).
    rewrite HR.
    assert (Hlk : len (slice_to (ahead x cs) k) = k)
      by (apply len_slice_to; lia).
    replace (slice_to (slice_to (ahead x cs) k ++ slice_from p k) k)
      with (slice_to (ahead x cs) k)
      by (symmetry; apply slice_to_app_len; exact Hlk).
    replace (slice_from (slice_to (ahead x cs) k ++ slice_from p k) k)
      with (slice_from p k)
      by (symmetry; apply slice_from_app_len; exact Hlk).
    assert (Hlp : len (slice_from p k) = len p - k)
      by (apply len_slice_from; lia).
    destruct (IH x1 cs1 (done ++ slice_to (ahead x cs) k) (slice_from p k)
                 (total + k) Hok1 Hat1)
      as (x2 & cs2 & HL & Hok2 & Hat2 & Ha2 & Hc2 & Hs2 & Hd2).
    { rewrite Hlp, Ha1, len_slice_from; lia. }
    { unfold len in *. lia. }
    exists x2, cs2. rewrite HL, Hlp, Ha1 in *.
    split_all; try assumption; try congruence.
    + replace (total + k + (len p - k)) with (total + len p) by lia.
      rewrite <- app_assoc, <- slice_to_add by lia.
      replace (k + (len p - k)) with (len p) by lia. reflexivity.
    + rewrite Ha2, <- slice_from_add by lia.
      replace (k + (len p - k)) with (len p) by lia. reflexivity.
  - assert (E : len p = 0) by lia. rewrite (len_nil_inv p E).
    exists x, cs. split_all; try assumption; try reflexivity.
    change (len (@nil byte)) with 0. rewrite Z.add_0_r. reflexivity.
Qed.

(** [Read] in front of enough plaintext returns it, in order. *)
Lemma Read_ahead (x : BlockReader.Reader BytesReader)
      (cs : list (list byte)) (p : list byte) :
  reader_ok x -> at_blocks x cs -> len p <= len (ahead x cs) ->
  exists x',
    BlockReader.Read x p
    = Some (len p, None, x', slice_to (ahead x cs) (len p)).
Proof.
  intros Hok Hat Hp.
  destruct (Read_loop_ahead (length p + 1) x cs [] p 0 Hok Hat Hp)
    as (x' & cs' & HL & _); [lia |].
  exists x'. exact HL.
Qed.

Lemma all_blocks_app (cs1 cs2 : list (list byte)) :
  all_blocks (cs1 ++ cs2) <-> all_blocks cs1 /\ all_blocks cs2.
Proof. apply Forall_app. Qed.

(** The block that holds the byte at offset [o], with the blocks before
    and after it. *)
Lemma block_at_offset (cs : list (list byte)) (o : Z) :
  all_blocks cs -> 0 <= o < len (concat cs) ->
  exists cs1 b cs2,
    cs = cs1 ++ b :: cs2 /\
    len (concat cs1) = Block * (o / Block) /\
    nth (Z.to_nat (o / Block)) cs [] = b.
Proof.
  intros Hall Ho. rewrite (len_concat_blocks cs Hall) in Ho.
  set (q := Z.to_nat (o / Block)).
  assert (Hq : (q < length cs)%nat).
  { subst q. unfold len, Block in *.
    assert (o / 8 < Z.of_nat (length cs)) by (apply Z.div_lt_upper_bound; lia).
    assert (0 <= o / 8) by (apply Z.div_pos; lia). lia. }
  destruct (skipn q cs) as [| b cs2] eqn:Hskip.
  { apply (f_equal (@length _)) in Hskip. rewrite length_skipn in Hskip.
    cbn in Hskip. lia. }
  assert (Hcs : cs = firstn q cs ++ b :: cs2)
    by (rewrite <- Hskip; symmetry; apply firstn_skipn).
  exists (firstn q cs), b, cs2. split; [exact Hcs | split].
  - rewrite len_concat_blocks.
    + unfold len. rewrite length_firstn. subst q. unfold Block in *.
      assert (0 <= o / 8) by (apply Z.div_pos; lia). lia.
    + rewrite Hcs in Hall. apply all_blocks_app in Hall. apply Hall.
  - rewrite Hcs at 1. rewrite app_nth2 by (rewrite length_firstn; lia).
    rewrite length_firstn.
    replace (q - Nat.min q (length cs))%nat with 0%nat by lia. reflexivity.
Qed.

(** [Seek] to an absolute offset inside the data leaves the reader in
    front of the plaintext from that offset on. *)
Lemma Seek_start_ahead (x : BlockReader.Reader BytesReader)
      (cs : list (list byte)) (o : Z) :
  reader_ok x -> BlockReader.s x = Some BytesReader_Seek ->
  all_blocks cs -> data (BlockReader.r x) = concat cs ->
  len (concat cs) < 2 ^ 63 -> 0 <= o < len (concat cs) ->
  exists x1 cs1,
    BlockReader.Seek x o SeekStart = (o, None, x1) /\
    reader_ok x1 /\ at_blocks x1 cs1 /\
    ahead x1 cs1 = slice_from (concat (map (decrypt_of x) cs)) o /\
    (Z.rem o Block <> 0 ->
     BlockReader.i x1 = Z.rem o Block /\
     BlockReader.buf x1 = decrypt_of x (nth (Z.to_nat (o / Block)) cs []) /\
     pos (BlockReader.r x1) = Block * (o / Block) + Block).
Proof.
  intros Hok Hs Hall Hdata Hmax Ho.
  destruct (block_at_offset cs o Hall Ho) as (cs1 & b & cs2 & Hcs & Hlen1 & Hnth).
  pose proof Hall as Hall'. rewrite Hcs in Hall'.
  apply all_blocks_app in Hall' as [Hall1 Hall2].
  pose proof (Forall_inv Hall2) as Hb. cbn beta in Hb.
  assert (Hrem : Z.rem o Block = o mod Block)
    by (apply Z.rem_mod_nonneg; unfold Block; lia).
  assert (Hdm : o = Block * (o / Block) + o mod Block)
    by (apply Z.div_mod; unfold Block; lia).
  assert (Hmod : 0 <= o mod Block < Block)
    by (apply Z.mod_pos_bound; unfold Block; lia).
  pose proof Hok as [Hbuf Hdec].
  assert (Hdlen1 : len (concat (map (decrypt_of x) cs1)) = Block * (o / Block)).
  { rewrite len_concat_blocks by (apply all_blocks_map; assumption).
    rewrite <- Hlen1, (len_concat_blocks cs1 Hall1).
    unfold len. rewrite length_map. reflexivity. }
  assert (Hpt : concat (map (decrypt_of x) cs)
                = concat (map (decrypt_of x) cs1)
                  ++ decrypt_of x b ++ concat (map (decrypt_of x) cs2)).
  { rewrite Hcs, map_app, concat_app. reflexivity. }
  unfold BlockReader.Seek. rewrite Hs.
  replace (SeekStart =? SeekCurrent) with false by reflexivity.
  unfold BytesReader_Seek at 1. rewrite Z.eqb_refl.
  replace (o <? 0) with false by (symmetry; apply Z.ltb_ge; lia).
  set (x1 := BlockReader.set_i (BlockReader.set_r x _) (-1)).
  destruct (Z.rem o Block =? 0) eqn:Hz.
  - apply Z.eqb_eq in Hz. exists x1, (b :: cs2).
    assert (Ho' : o = len (concat cs1)) by lia.
    split; [reflexivity |]. split; [exact Hok |]. split; [| split].
    + split; [exact Hall2 |]. exists (concat cs1).
      unfold x1. cbn [BlockReader.r BlockReader.set_r BlockReader.set_i data pos].
      split; [rewrite Hdata, Hcs, concat_app; reflexivity | exact Ho'].
    + unfold ahead. rewrite unread_needs_block by (left; cbn; lia).
      change (decrypt_of x1) with (decrypt_of x). rewrite Hpt.
      symmetry. apply slice_from_app_len. lia.
    + intros Hne. contradiction.
  - apply Z.eqb_neq in Hz.
    unfold BytesReader_Seek. cbn [BlockReader.r x1 BlockReader.set_i
                                   BlockReader.set_r pos data].
    replace (SeekCurrent =? SeekStart) with false by reflexivity.
    rewrite Z.eqb_refl.
    assert (Hback : int64 (o + int64 (- Z.rem o Block)) = Block * (o / Block)).
    { rewrite (int64_small (- Z.rem o Block)) by (unfold Block in *; lia).
      rewrite int64_small; [lia |].
      assert (0 <= Block * (o / Block)) by (rewrite <- Hlen1; apply len_nonneg).
      unfold Block in *. lia. }
    rewrite Hback.
    replace (Block * (o / Block) <? 0) with false
      by (symmetry; apply Z.ltb_ge; rewrite <- Hlen1; apply len_nonneg).
    set (x2 := BlockReader.set_r _ _).
    assert (Hok2 : reader_ok x2) by exact Hok.
    assert (Hat2 : at_blocks x2 (b :: cs2)).
    { split; [exact Hall2 |]. exists (concat cs1).
      unfold x2. cbn [BlockReader.r BlockReader.set_r BlockReader.set_i data pos].
      split; [rewrite Hdata, Hcs, concat_app; reflexivity |].
      symmetry. exact Hlen1. }
    destruct (readNext_block x2 b cs2 Hok2 Hat2) as (HR & Hok3 & Hat3).
    rewrite HR.
    match type of HR with _ = (None, ?y) => set (x3 := y) in * end.
    exists (BlockReader.set_i x3 (Z.rem o Block)), cs2.
    split; [reflexivity |]. split; [exact Hok3 |]. split; [exact Hat3 |].
    split.
    + unfold ahead. rewrite unread_loaded by (cbn; lia).
      change (decrypt_of (BlockReader.set_i x3 (Z.rem o Block)))
        with (decrypt_of x).
      cbn [BlockReader.set_i BlockReader.buf BlockReader.i x3].
      change (decrypt_of x2 b) with (decrypt_of x b).
      rewrite Hrem, Hpt.
      match goal with
      | |- _ = slice_from ?l o =>
          replace (slice_from l o)
            with (slice_from l (Block * (o / Block) + o mod Block))
            by (rewrite <- Hdm; reflexivity)
      end.
      rewrite slice_from_add by (rewrite <- ?Hlen1; try apply len_nonneg; lia).
      rewrite (slice_from_app_len _ _ _ Hdlen1).
      rewrite slice_from_app_le by (rewrite (Hdec b Hb); lia).
      reflexivity.
    + intros _. cbn. split; [reflexivity |]. split; [| lia].
      rewrite Hnth. reflexivity.
Qed.

Lemma slice_from_slice_to {A} (l : list A) (o k : Z) :
  0 <= o -> 0 <= k ->
  slice_from (slice_to l (o + k)) o = slice_to (slice_from l o) k.
Proof.
  intros Ho Hk. unfold slice_from, slice_to.
  rewrite skipn_firstn_comm. f_equal. lia.
Qed.

(** C6: on a seekable source that holds the blocks [cs], for an offset
    [o] inside the data and [k] bytes that end inside it, [Seek] to the
    absolute offset [o] followed by a [Read] of [k] bytes delivers what a
    reader started at offset 0 delivers when it reads [o + k] bytes, minus
    its first [o] bytes. When [o] is not a multiple of the block size the
    seek leaves the block that contains [o] decrypted in the buffer, the
    cursor at [o mod Block] and the source just past that block. *)
Theorem Seek_then_Read_consistent
        (x : BlockReader.Reader BytesReader) (cs : list (list byte))
        (o : Z) (p p0 : list byte) :
  reader_ok x -> BlockReader.s x = Some BytesReader_Seek ->
  all_blocks cs -> data (BlockReader.r x) = concat cs ->
  len (concat cs) < 2 ^ 63 ->
  0 <= o < len (concat cs) -> o + len p <= len (concat cs) ->
  len p0 = o + len p ->
  exists x1 x2 x3 got seq,
    BlockReader.Seek x o SeekStart = (o, None, x1) /\
    BlockReader.Read x1 p = Some (len p, None, x2, got) /\
    BlockReader.Read
      (BlockReader.Reset x {| data := concat cs; pos := 0 |}) p0
    = Some (o + len p, None, x3, seq) /\
    got = slice_from seq o /\
    (Z.rem o Block <> 0 ->
     BlockReader.i x1 = Z.rem o Block /\
     BlockReader.buf x1 = decrypt_of x (nth (Z.to_nat (o / Block)) cs []) /\
     pos (BlockReader.r x1) = Block * (o / Block) + Block).
Proof.
  intros Hok Hs Hall Hdata Hmax Ho Hend Hp0.
  pose proof (len_nonneg p) as Hp.
  set (pt := concat (map (decrypt_of x) cs)).
  assert (Hpt : len pt = len (concat cs)).
  { unfold pt. rewrite len_concat_blocks
      by (apply all_blocks_map; [apply Hok | exact Hall]).
    rewrite (len_concat_blocks cs Hall). unfold len. rewrite length_map.
    reflexivity. }
  destruct (Seek_start_ahead x cs o Hok Hs Hall Hdata Hmax Ho)
    as (x1 & cs1 & HS & Hok1 & Hat1 & Ha1 & Hmid).
  fold pt in Ha1.
  destruct (Read_ahead x1 cs1 p Hok1 Hat1) as (x2 & HR1).
  { rewrite Ha1, len_slice_from; lia. }
  set (x0 := BlockReader.Reset x {| data := concat cs; pos := 0 |}).
  assert (Hok0 : reader_ok x0) by exact Hok.
  assert (Hat0 : at_blocks x0 cs).
  { split; [exact Hall |]. exists []. split; reflexivity. }
  assert (Ha0 : ahead x0 cs = pt).
  { unfold ahead. rewrite unread_needs_block by (left; cbn; lia). reflexivity. }
  destruct (Read_ahead x0 cs p0 Hok0 Hat0) as (x3 & HR0).
  { rewrite Ha0. lia. }
  exists x1, x2, x3, (slice_to (ahead x1 cs1) (len p)),
    (slice_to (ahead x0 cs) (len p0)).
  split; [exact HS |]. split; [exact HR1 |].
  split; [rewrite <- Hp0; exact HR0 |]. split; [| exact Hmid].
  rewrite Ha1, Ha0, Hp0. symmetry. apply slice_from_slice_to; lia.
Qed.

(** ** Writing to [bytes.Buffer] and reading back *)

(** Every byte sequence is a run of blocks followed by less than a
    block. *)
Lemma blocks_and_tail (n : nat) :
  forall p : list byte,
    (length p <= n)%nat ->
    exists bs t, p = concat bs ++ t /\ all_blocks bs /\ len t < Block.
Proof.
  induction n as [| n IH]; intros p Hn.
  - exists [], p. split; [reflexivity |]. split; [constructor |].
    unfold len, Block. lia.
  - destruct (Z.lt_ge_cases (len p) Block) as [Hlt | Hge].
    + exists [], p. split; [reflexivity |]. split; [constructor | exact Hlt].
    + destruct (IH (slice_from p Block)) as (bs & t & Hp & Hall & Ht).
      { unfold slice_from. rewrite length_skipn. unfold len, Block in *. lia. }
      exists (slice_to p Block :: bs), t. split; [| split].
      * cbn [concat]. rewrite <- app_assoc, <- Hp. symmetry.
        apply slice_to_from.
      * constructor; [| exact Hall]. apply len_slice_to.
        unfold Block in *. lia.
      * exact Ht.
Qed.

(** The loop of [Write] over [bytes.Buffer]: the buffered bytes and the
    new ones leave as encrypted blocks, the rest stays in the buffer. *)
Lemma Write_loop_blocks (bs : list (list byte)) :
  forall (t : list byte) (fuel : nat) (x : CrcWriter.Writer Buffer)
         (p : list byte) (total : Z),
    writer_idle x -> all_blocks bs -> len t < Block ->
    slice_to (CrcWriter.buf x) (CrcWriter.n x) ++ p = concat bs ++ t ->
    (length p + 1 < fuel)%nat ->
    exists x',
      CrcWriter.Write_loop fuel x p total = Some (total + len p, None, x') /\
      CrcWriter.w x'
      = CrcWriter.w x ++ concat (map (Encrypt (CrcWriter.c x)) bs) /\
      slice_to (CrcWriter.buf x') (CrcWriter.n x') = t /\
      CrcWriter.n x' = len t /\
      writer_idle x' /\
      CrcWriter.c x' = CrcWriter.c x /\
      CrcWriter.NoZero x' = CrcWriter.NoZero x.
Proof.
  induction bs as [| b bs IH]; intros t fuel x p total Hx Hall Ht Heq Hfuel;
    pose proof Hx as [Hb Hn]; pose proof (len_nonneg p) as Hp0;
    assert (Hu : len (slice_to (CrcWriter.buf x) (CrcWriter.n x)) = CrcWriter.n x)
      by (apply len_slice_to; lia);
    pose proof (f_equal len Heq) as Hlen; rewrite !len_app, Hu in Hlen.
  - cbn [concat app] in *. change (len (@nil byte)) with 0 in Hlen.
    destruct fuel as [| fuel]; [lia |]. cbn [CrcWriter.Write_loop].
    destruct (len p >? 0) eqn:Hpos.
    + rewrite (write_partial x p Hx) by lia.
      destruct fuel as [| fuel]; [lia |]. cbn [CrcWriter.Write_loop].
      rewrite (slice_from_all p (len p)) by lia.
      change (len (@nil byte) >? 0) with false. cbv iota.
      eexists. split; [reflexivity |].
      cbn [CrcWriter.w CrcWriter.buf CrcWriter.n CrcWriter.c CrcWriter.NoZero
           map concat].
      split; [symmetry; apply app_nil_r |].
      split; [rewrite app_assoc, Heq; apply slice_to_app_len; lia |].
      split; [lia |]. split; [| split; reflexivity].
      split; cbn [CrcWriter.buf CrcWriter.n]; [| lia].
      rewrite !len_app, Hu, len_slice_from; lia.
    + assert (E : len p = 0) by lia. apply len_nil_inv in E. subst p.
      rewrite app_nil_r in Heq. change (len (@nil byte)) with 0 in *.
      exists x. rewrite Z.add_0_r. split; [reflexivity |].
      split; [symmetry; apply app_nil_r |].
      split; [exact Heq |]. split; [lia |].
      split; [exact Hx | split; reflexivity].
  - inversion Hall as [| b' bs' Hlb Hall']; subst b' bs'.
    cbn [concat] in *. rewrite !len_app, Hlb in Hlen.
    pose proof (len_nonneg (concat bs)) as Hc. pose proof (len_nonneg t) as Ht0.
    assert (Hge : Block <= CrcWriter.n x + len p) by lia.
    assert (Hfilled : slice_to (CrcWriter.buf x) (CrcWriter.n x)
                      ++ slice_to p (Block - CrcWriter.n x) = b).
    { transitivity (slice_to (slice_to (CrcWriter.buf x) (CrcWriter.n x) ++ p)
                             (CrcWriter.n x + (Block - CrcWriter.n x))).
      - rewrite slice_to_add by lia.
        rewrite (slice_to_app_len _ _ _ Hu), (slice_from_app_len _ _ _ Hu).
        reflexivity.
      - rewrite Heq. replace (CrcWriter.n x + (Block - CrcWriter.n x)) with Block by lia.
        rewrite <- app_assoc. apply slice_to_app_len. exact Hlb. }
    assert (Hrest : slice_from p (Block - CrcWriter.n x) = concat bs ++ t).
    { transitivity (slice_from (slice_to (CrcWriter.buf x) (CrcWriter.n x) ++ p)
                               (CrcWriter.n x + (Block - CrcWriter.n x))).
      - rewrite slice_from_add by lia.
        rewrite (slice_from_app_len _ _ _ Hu). reflexivity.
      - rewrite Heq. replace (CrcWriter.n x + (Block - CrcWriter.n x)) with Block by lia.
        rewrite <- app_assoc. apply slice_from_app_len. exact Hlb. }
    destruct fuel as [| fuel]; [lia |]. cbn [CrcWriter.Write_loop].
    replace (len p >? 0) with true by (symmetry; apply Z.gtb_lt; lia).
    pose proof (write_full x p Hx Hge) as HW. cbv zeta in HW.
    rewrite Hfilled in HW. cbn [sink_Write Buffer_Sink] in HW.
    destruct HW as [_ HW]. rewrite HW. cbv iota beta.
    match goal with
    | |- context [CrcWriter.Write_loop fuel ?y _ _] => set (x2 := y)
    end.
    assert (Hx2 : writer_idle x2 /\ CrcWriter.n x2 = 0
                  /\ CrcWriter.w x2 = CrcWriter.w x ++ Encrypt (CrcWriter.c x) b
                  /\ CrcWriter.c x2 = CrcWriter.c x
                  /\ CrcWriter.NoZero x2 = CrcWriter.NoZero x).
    { subst x2. destruct (CrcWriter.NoZero x) eqn:HZ;
        (split; [split; cbn; [first [exact Hlb | reflexivity] | unfold Block; lia] |
                 cbn; rewrite ?HZ; split_all; reflexivity]). }
    destruct Hx2 as (Hidle2 & Hn2 & Hw2 & Hc2 & Hz2).
    destruct (IH t fuel x2 (slice_from p (Block - CrcWriter.n x))
                 (total + (Block - CrcWriter.n x)) Hidle2 Hall' Ht)
      as (x' & HL & Hw' & Hbuf' & Hn' & Hidle' & Hc' & Hz').
    { rewrite Hn2. cbn [slice_to Z.to_nat firstn app]. exact Hrest. }
    { unfold slice_from. rewrite length_skipn. unfold len, Block in *. lia. }
    exists x'. rewrite HL.
    split; [f_equal; f_equal; f_equal; rewrite len_slice_from; lia |].
    split; [rewrite Hw', Hw2, Hc2, <- app_assoc; reflexivity |].
    split; [exact Hbuf' |]. split; [exact Hn' |]. split; [exact Hidle' |].
    split; congruence.
Qed.

Lemma len_padding (p : list byte) :
  len (padding p) = (Block - len p mod Block) mod Block.
Proof.
  unfold padding, len. rewrite repeat_length.
  pose proof (Z.mod_pos_bound (Block - Z.of_nat (length p) mod Block) Block).
  unfold Block in *. lia.
Qed.

(** [Write] then [Flush] on a fresh writer over [bytes.Buffer]: the sink
    holds the encrypted blocks of the payload with its zero padding. *)
Lemma Write_Flush_blocks (x : CrcWriter.Writer Buffer) (P : list byte) :
  writer_idle x -> CrcWriter.n x = 0 -> CrcWriter.NoZero x = false ->
  exists x1 x2 bs,
    CrcWriter.Write x P = Some (len P, None, x1) /\
    CrcWriter.Flush x1 = (None, x2) /\
    all_blocks bs /\ concat bs = P ++ padding P /\
    CrcWriter.w x2
    = CrcWriter.w x ++ concat (map (Encrypt (CrcWriter.c x)) bs).
Proof.
  intros Hx Hn HZ.
  destruct (blocks_and_tail (length P) P (Nat.le_refl _))
    as (bs & t & HP & Hall & Ht).
  pose proof (len_nonneg t) as Ht0.
  destruct (Write_loop_blocks bs t (length P + 2) x P 0 Hx Hall Ht)
    as (x1 & HW & Hw1 & Hbuf1 & Hn1 & Hidle1 & Hc1 & Hz1).
  { rewrite Hn. exact HP. }
  { lia. }
  assert (HlenP : len P = Block * len bs + len t).
  { rewrite HP, len_app, (len_concat_blocks bs Hall). reflexivity. }
  assert (Hmod : len P mod Block = len t).
  { rewrite HlenP, Z.add_comm, Z.mul_comm, Z.mod_add by (unfold Block; lia).
    apply Z.mod_small. lia. }
  exists x1. destruct (Z.eq_dec (len t) 0) as [E | E].
  - exists x1, bs. split; [exact HW |].
    split; [unfold CrcWriter.Flush; rewrite Hn1, E; reflexivity |].
    split; [exact Hall |]. split; [| exact Hw1].
    unfold padding. rewrite Hmod, E. apply len_nil_inv in E.
    rewrite E, app_nil_r in HP.
    change ((Block - 0) mod Block) with 0. cbn [Z.to_nat repeat].
    rewrite app_nil_r. symmetry. exact HP.
  - set (padded := t ++ repeat x00 (Z.to_nat (Block - len t))).
    pose proof (Flush_pads x1 Hidle1 (eq_trans Hz1 HZ)) as HF.
    rewrite Hbuf1, Hn1 in HF. fold padded in HF. specialize (HF ltac:(lia)).
    cbn [sink_Write Buffer_Sink fst snd] in HF.
    eexists. exists (bs ++ [padded]). split; [exact HW |].
    split; [exact HF |]. split; [| split].
    + apply all_blocks_app. split; [exact Hall |]. constructor; [| constructor].
      unfold padded. rewrite len_app. unfold len at 2. rewrite repeat_length. lia.
    + rewrite concat_app. cbn [concat]. rewrite app_nil_r.
      unfold padded, padding. rewrite Hmod, HP at 1.
      rewrite (Z.mod_small (Block - len t)) by lia.
      rewrite <- app_assoc. reflexivity.
    + cbn [CrcWriter.w]. rewrite Hw1, Hc1, map_app, concat_app. cbn [map concat].
      rewrite app_nil_r, <- app_assoc. reflexivity.
Qed.

Lemma decrypt_encrypt_blocks (c0 : Cipher) (bs : list (list byte)) :
  decrypt_inverts c0 -> all_blocks bs ->
  map (Decrypt c0) (map (Encrypt c0) bs) = bs.
Proof.
  intros Hinv. induction 1 as [| b bs Hb _ IH]; [reflexivity |].
  cbn [map]. rewrite (Hinv b Hb), IH. reflexivity.
Qed.

(** C1: the payload written through a fresh writer (NoZero unset) into a
    [bytes.Buffer] and flushed is read back, through a reader made with the
    same key over the bytes of the sink, as the payload followed by zero
    bytes up to the next multiple of the block size, provided the cipher
    maps blocks to blocks and Decrypt undoes Encrypt. *)
Theorem write_read_round_trip
        (NewCipher : Z -> Cipher + error) (key : Z) (P : list byte)
        (x : CrcWriter.Writer Buffer) :
  CrcWriter.NewWriter NewCipher [] key = inl x ->
  block_cipher (CrcWriter.c x) -> decrypt_inverts (CrcWriter.c x) ->
  exists x1 x2 (rd : BlockReader.Reader BytesReader),
    CrcWriter.Write x P = Some (len P, None, x1) /\
    CrcWriter.Flush x1 = (None, x2) /\
    len (CrcWriter.w x2) = len P + len (padding P) /\
    len (CrcWriter.w x2) mod Block = 0 /\
    BlockReader.NewReader NewCipher
      {| data := CrcWriter.w x2; pos := 0 |} key = inl rd /\
    forall p : list byte,
      len p = len (CrcWriter.w x2) ->
      exists rd',
        BlockReader.Read rd p = Some (len p, None, rd', P ++ padding P).
Proof.
  intros HN Hblock Hinv.
  pose proof (fresh_writer_idle _ _ _ _ HN) as Hidle.
  apply NewWriter_inl in HN as (c0 & Hkey & ->).
  cbn [CrcWriter.c] in Hblock, Hinv.
  destruct (Write_Flush_blocks _ P Hidle eq_refl eq_refl)
    as (x1 & x2 & bs & HW & HF & Hall & Hcat & Hout).
  cbn [CrcWriter.w CrcWriter.c app] in Hout.
  assert (Hall' : all_blocks (map (Encrypt c0) bs)).
  { apply all_blocks_map; [| exact Hall]. intros b Hb. apply (Hblock b Hb). }
  assert (Hlen : len (CrcWriter.w x2) = len (P ++ padding P)).
  { rewrite Hout, <- Hcat, (len_concat_blocks _ Hall'), (len_concat_blocks _ Hall).
    unfold len. rewrite length_map. reflexivity. }
  exists x1, x2. eexists. split; [exact HW |]. split; [exact HF |].
  split; [rewrite Hlen; apply len_app |]. split.
  { rewrite Hout, (len_concat_blocks _ Hall'), Z.mul_comm.
    apply Z.mod_mul. unfold Block. lia. }
  split; [unfold BlockReader.NewReader; rewrite Hkey; reflexivity |].
  intros p Hp.
  match goal with |- context [BlockReader.Read ?y p] => set (rd0 := y) end.
  assert (Hok : reader_ok rd0).
  { split; [reflexivity |]. intros b Hb. apply (Hblock b Hb). }
  assert (Hat : at_blocks rd0 (map (Encrypt c0) bs)).
  { split; [exact Hall' |]. exists []. split; [exact Hout | reflexivity]. }
  assert (Ha : ahead rd0 (map (Encrypt c0) bs) = P ++ padding P).
  { unfold ahead. rewrite unread_needs_block by (left; cbn; lia).
    change (decrypt_of rd0) with (Decrypt c0).
    rewrite (decrypt_encrypt_blocks c0 bs Hinv Hall). exact Hcat. }
  destruct (Read_ahead rd0 _ p Hok Hat) as (rd' & HRd).
  { rewrite Ha, Hp, Hlen. lia. }
  exists rd'. rewrite HRd, Ha, slice_to_all by (rewrite Hp, Hlen; lia).
  reflexivity.
Qed.

(** ** A truncated stream *)

(** [io.ReadFull] on a [bytes.Reader] that has less than a block left. *)
Lemma BytesReader_ReadFull_short (d : BytesReader) :
  len (slice_from (data d) (pos d)) < Block ->
  exists bs e d',
    BytesReader_ReadFull d Block = (bs, Some e, d') /\
    (e = EOF \/ e = ErrUnexpectedEOF) /\ len bs < Block.
Proof.
  intros H. unfold BytesReader_ReadFull.
  replace (Block <=? 0) with false by reflexivity.
  destruct (len (slice_from (data d) (pos d)) =? 0) eqn:E0.
  - exists [], EOF, d. split; [reflexivity |]. split; [left; reflexivity |].
    reflexivity.
  - replace (len (slice_from (data d) (pos d)) <? Block) with true
      by (symmetry; apply Z.ltb_lt; exact H).
    eexists _, ErrUnexpectedEOF, _. split; [reflexivity |].
    split; [right; reflexivity | exact H].
Qed.

(** C5: when the reader needs a block and [io.ReadFull] over the source
    fails, [read] and [Read] return that error with a count of 0, the
    caller's slice is untouched, the source has been asked once and is not
    asked again, and the cursor still says that a block is needed. When
    [Read] comes to need the block only after serving the unread bytes of
    the loaded one, it returns the count of those bytes with the error and
    delivers them and nothing else. Over [bytes.Reader], fewer than [Block]
    bytes left make [io.ReadFull] fail, with [io.EOF] or
    [io.ErrUnexpectedEOF]. *)
Theorem Read_truncated_block :
  (forall (S : Type) (sourceS : Source S) (x : BlockReader.Reader S)
          (p bs : list byte) (e : error) (d : S),
     needs_block x -> 0 < len p ->
     src_ReadFull (BlockReader.r x) (len (BlockReader.buf x)) = (bs, Some e, d) ->
     exists x',
       BlockReader.read x p = (0, Some e, x', p) /\
       BlockReader.Read x p = Some (0, Some e, x', p) /\
       BlockReader.r x' = d /\
       needs_block x' /\ BlockReader.Buffered x' = 0) /\
  (forall (S : Type) (sourceS : Source S) (x : BlockReader.Reader S)
          (p bs : list byte) (e : error) (d : S),
     len (BlockReader.buf x) = Block ->
     0 <= BlockReader.i x < Block ->
     BlockReader.Buffered x < len p ->
     src_ReadFull (BlockReader.r x) (len (BlockReader.buf x)) = (bs, Some e, d) ->
     exists x',
       BlockReader.Read x p
       = Some (BlockReader.Buffered x, Some e, x',
               unread x ++ slice_from p (BlockReader.Buffered x)) /\
       BlockReader.r x' = d /\
       needs_block x' /\ BlockReader.Buffered x' = 0) /\
  (forall x : BlockReader.Reader BytesReader,
     len (BlockReader.buf x) = Block ->
     len (slice_from (data (BlockReader.r x)) (pos (BlockReader.r x))) < Block ->
     exists bs e d,
       src_ReadFull (BlockReader.r x) (len (BlockReader.buf x))
       = (bs, Some e, d) /\
       (e = EOF \/ e = ErrUnexpectedEOF) /\ len bs < Block).
Proof.
  split; [| split].
  - intros S sourceS. apply Read_needs_block_fails.
  - intros S sourceS. apply Read_unread_then_fails.
  - intros x Hb Hshort. rewrite Hb.
    apply BytesReader_ReadFull_short. exact Hshort.
Qed.

(** ** A sink that refuses a block *)

Section RefusingSink.
Context {S : Type} {sinkS : Sink S}.

(** The loop of [Write] on a sink that accepts the blocks [bs] and refuses
    the block [b] that follows them: the count is that of the steps that
    went through, the bytes the failing step took into the buffer are not
    in it. *)
Lemma Write_loop_refused (bs : list (list byte)) :
  forall (fuel : nat) (x : CrcWriter.Writer S) (p b rest : list byte)
         (total : Z) (e : error),
    writer_idle x -> all_blocks bs -> len b = Block ->
    slice_to (CrcWriter.buf x) (CrcWriter.n x) ++ p = concat bs ++ b ++ rest ->
    accepts (CrcWriter.c x) (CrcWriter.w x) bs ->
    snd (fst (sink_Write (fold_left (push (CrcWriter.c x)) bs (CrcWriter.w x))
                         (Encrypt (CrcWriter.c x) b))) = Some e ->
    (length p + 1 < fuel)%nat ->
    CrcWriter.Write_loop fuel x p total
    = Some (total + Z.max 0 (len (concat bs) - CrcWriter.n x), Some e,
            {| CrcWriter.w :=
                 push (CrcWriter.c x)
                      (fold_left (push (CrcWriter.c x)) bs (CrcWriter.w x)) b;
               CrcWriter.at_ := CrcWriter.at_ x; CrcWriter.c := CrcWriter.c x;
               CrcWriter.buf := b; CrcWriter.n := 0;
               CrcWriter.off :=
                 int64 (CrcWriter.off x
                        + (len (concat bs) + Block - CrcWriter.n x));
               CrcWriter.crc :=
                 CRC.UpdateCRC (fold_left CRC.UpdateCRC bs (CrcWriter.crc x)) b;
               CrcWriter.NoZero := CrcWriter.NoZero x |}).
Proof.
  induction bs as [| b0 bs IH];
    intros fuel x p b rest total e Hx Hall Hlb Heq Hacc Hrej Hfuel;
    pose proof Hx as [Hb Hn]; pose proof (len_nonneg p) as Hp0;
    pose proof (len_nonneg rest) as Hr0;
    assert (Hu : len (slice_to (CrcWriter.buf x) (CrcWriter.n x)) = CrcWriter.n x)
      by (apply len_slice_to; lia);
    pose proof (f_equal len Heq) as Hlen; rewrite !len_app, Hu in Hlen.
  - cbn [concat app fold_left] in *. change (len (@nil byte)) with 0 in *.
    rewrite Hlb in Hlen.
    assert (Hge : Block <= CrcWriter.n x + len p) by lia.
    assert (Hfilled : slice_to (CrcWriter.buf x) (CrcWriter.n x)
                      ++ slice_to p (Block - CrcWriter.n x) = b).
    { transitivity (slice_to (slice_to (CrcWriter.buf x) (CrcWriter.n x) ++ p)
                             (CrcWriter.n x + (Block - CrcWriter.n x))).
      - rewrite slice_to_add by lia.
        rewrite (slice_to_app_len _ _ _ Hu), (slice_from_app_len _ _ _ Hu).
        reflexivity.
      - rewrite Heq.
        replace (CrcWriter.n x + (Block - CrcWriter.n x)) with Block by lia.
        apply slice_to_app_len. exact Hlb. }
    destruct fuel as [| fuel]; [lia |]. cbn [CrcWriter.Write_loop].
    replace (len p >? 0) with true by (symmetry; apply Z.gtb_lt; lia).
    pose proof (write_full x p Hx Hge) as HW. cbv zeta in HW.
    rewrite Hfilled in HW. unfold push.
    destruct (sink_Write (CrcWriter.w x) (Encrypt (CrcWriter.c x) b))
      as [[k0 err] d] eqn:HS.
    cbn [fst snd] in Hrej. subst err.
    destruct HW as [_ HW]. rewrite HW. cbv iota beta. cbn [snd].
    rewrite Z.max_l by lia.
    replace (0 + Block - CrcWriter.n x) with (Block - CrcWriter.n x) by lia.
    reflexivity.
  - inversion Hall as [| b' bs' Hlb0 Hall']; subst b' bs'.
    cbn [concat] in *. rewrite !len_app, Hlb0, Hlb in Hlen.
    pose proof (len_nonneg (concat bs)) as Hc.
    destruct Hacc as [Hacc0 Hacc].
    assert (Hge : Block <= CrcWriter.n x + len p) by lia.
    assert (Hfilled : slice_to (CrcWriter.buf x) (CrcWriter.n x)
                      ++ slice_to p (Block - CrcWriter.n x) = b0).
    { transitivity (slice_to (slice_to (CrcWriter.buf x) (CrcWriter.n x) ++ p)
                             (CrcWriter.n x + (Block - CrcWriter.n x))).
      - rewrite slice_to_add by lia.
        rewrite (slice_to_app_len _ _ _ Hu), (slice_from_app_len _ _ _ Hu).
        reflexivity.
      - rewrite Heq.
        replace (CrcWriter.n x + (Block - CrcWriter.n x)) with Block by lia.
        rewrite <- app_assoc. apply slice_to_app_len. exact Hlb0. }
    assert (Hrest : slice_from p (Block - CrcWriter.n x)
                    = concat bs ++ b ++ rest).
    { transitivity (slice_from (slice_to (CrcWriter.buf x) (CrcWriter.n x) ++ p)
                               (CrcWriter.n x + (Block - CrcWriter.n x))).
      - rewrite slice_from_add by lia.
        rewrite (slice_from_app_len _ _ _ Hu). reflexivity.
      - rewrite Heq.
        replace (CrcWriter.n x + (Block - CrcWriter.n x)) with Block by lia.
        rewrite <- app_assoc. apply slice_from_app_len. exact Hlb0. }
    destruct fuel as [| fuel]; [lia |]. cbn [CrcWriter.Write_loop].
    replace (len p >? 0) with true by (symmetry; apply Z.gtb_lt; lia).
    pose proof (write_full x p Hx Hge) as HW. cbv zeta in HW.
    rewrite Hfilled in HW. cbn [fold_left] in Hrej |- *.
    unfold push at 1 in Hacc. unfold push at 2 in Hrej.
    unfold push at 3.
    destruct (sink_Write (CrcWriter.w x) (Encrypt (CrcWriter.c x) b0))
      as [[k0 err] d] eqn:HS.
    cbn [fst snd] in Hacc0, Hacc, Hrej |- *. subst err.
    destruct HW as [_ HW]. rewrite HW. cbv iota beta.
    match goal with
    | |- context [CrcWriter.Write_loop fuel ?y _ _] => set (x2 := y)
    end.
    assert (Hx2 : writer_idle x2 /\ CrcWriter.n x2 = 0
                  /\ CrcWriter.w x2 = d
                  /\ CrcWriter.c x2 = CrcWriter.c x
                  /\ CrcWriter.at_ x2 = CrcWriter.at_ x
                  /\ CrcWriter.NoZero x2 = CrcWriter.NoZero x
                  /\ CrcWriter.off x2
                     = int64 (CrcWriter.off x + (Block - CrcWriter.n x))
                  /\ CrcWriter.crc x2 = CRC.UpdateCRC (CrcWriter.crc x) b0).
    { subst x2. destruct (CrcWriter.NoZero x) eqn:HZ;
        (split; [split; cbn; [first [exact Hlb0 | reflexivity] | unfold Block; lia] |
                 cbn; rewrite ?HZ; repeat split; reflexivity]). }
    destruct Hx2 as (Hidle2 & Hn2 & Hw2 & Hc2 & Hat2 & Hz2 & Ho2 & Hcrc2).
    rewrite (IH fuel x2 (slice_from p (Block - CrcWriter.n x)) b rest
                (total + (Block - CrcWriter.n x)) e Hidle2 Hall' Hlb).
    + rewrite Hw2, Hc2, Hat2, Hz2, Ho2, Hcrc2, Hn2, int64_add_l.
      rewrite !len_app, Hlb0.
      rewrite (Z.max_r 0 (len (concat bs) - 0)) by lia.
      rewrite (Z.max_r 0 (Block + len (concat bs) - CrcWriter.n x)) by lia.
      f_equal. f_equal; [f_equal; lia |]. f_equal. f_equal. lia.
    + rewrite Hn2. cbn [slice_to Z.to_nat firstn app]. exact Hrest.
    + rewrite Hw2, Hc2. exact Hacc.
    + rewrite Hw2, Hc2. exact Hrej.
    + unfold slice_from. rewrite length_skipn. unfold len, Block in *. lia.
Qed.

(** C10: when the sink refuses the block, [flush] has already fed the
    plaintext block to the checksum, and it still moves the logical offset
    to the end of the block (a block boundary, the offset and the cursor
    being in step as [run_crc_offset_aligned] shows) and resets the fill
    cursor before it returns the error, so that the block is dropped from
    the buffer; a [write] or [Write] whose bytes complete that block
    reports a count of 0 for the failing step although it has consumed
    [Block - n] bytes. And wherever in a [Write] the refusal comes: when
    the sink has accepted the blocks [bs] and refuses the block [b] that
    follows, the count [Write] returns is the number of bytes of [p] in
    [bs], those taken by the steps that went through; the bytes the
    failing step took into the buffer are in [Written()] and not in the
    count. *)
Theorem flush_failure_post_state :
  (forall (x : CrcWriter.Writer S) (e : error),
     snd (fst (sink_Write (CrcWriter.w x)
                          (Encrypt (CrcWriter.c x) (CrcWriter.buf x)))) = Some e ->
     let x' := snd (CrcWriter.flush x) in
     fst (CrcWriter.flush x) = Some e /\
     CrcWriter.crc x' = CRC.UpdateCRC (CrcWriter.crc x) (CrcWriter.buf x) /\
     CrcWriter.off x'
     = int64 (CrcWriter.off x + int64 (Block - CrcWriter.n x)) /\
     CrcWriter.n x' = 0 /\
     (0 <= CrcWriter.n x <= Block -> offset_aligned x ->
      CrcWriter.off x' mod Block = 0)) /\
  (forall (x : CrcWriter.Writer S) (p : list byte) (e : error),
     writer_idle x -> Block <= CrcWriter.n x + len p ->
     let filled := slice_to (CrcWriter.buf x) (CrcWriter.n x)
                   ++ slice_to p (Block - CrcWriter.n x) in
     snd (fst (sink_Write (CrcWriter.w x)
                          (Encrypt (CrcWriter.c x) filled))) = Some e ->
     exists x',
       CrcWriter.write x p = (0, Some e, x') /\
       CrcWriter.Write x p = Some (0, Some e, x') /\
       0 < Block - CrcWriter.n x /\
       CrcWriter.crc x' = CRC.UpdateCRC (CrcWriter.crc x) filled /\
       CrcWriter.off x'
       = int64 (CrcWriter.off x + (Block - CrcWriter.n x)) /\
       CrcWriter.n x' = 0) /\
  (forall (x : CrcWriter.Writer S) (p : list byte) (bs : list (list byte))
          (b rest : list byte) (e : error),
     writer_idle x -> all_blocks bs -> len b = Block ->
     slice_to (CrcWriter.buf x) (CrcWriter.n x) ++ p = concat bs ++ b ++ rest ->
     accepts (CrcWriter.c x) (CrcWriter.w x) bs ->
     snd (fst (sink_Write
                 (fold_left (push (CrcWriter.c x)) bs (CrcWriter.w x))
                 (Encrypt (CrcWriter.c x) b))) = Some e ->
     let count := Z.max 0 (len (concat bs) - CrcWriter.n x) in
     let taken := len (concat bs) + Block - CrcWriter.n x - count in
     exists x',
       CrcWriter.Write x p = Some (count, Some e, x') /\
       0 < taken /\ count + taken <= len p /\
       CrcWriter.Written x' = int64 (CrcWriter.off x + (count + taken)) /\
       CrcWriter.crc x'
       = CRC.UpdateCRC (fold_left CRC.UpdateCRC bs (CrcWriter.crc x)) b /\
       CrcWriter.n x' = 0 /\ CrcWriter.buf x' = b).
Proof.
  split; [| split].
  - intros x e HW x'. subst x'. unfold CrcWriter.flush.
    destruct (sink_Write _ _) as [[k err] d]. cbn [fst snd] in *.
    repeat split; try assumption; try reflexivity.
    intros Hn Hoff. cbn [CrcWriter.off].
    rewrite int64_mod_Block, (int64_small (Block - CrcWriter.n x))
      by (unfold Block in *; lia).
    replace (CrcWriter.off x + (Block - CrcWriter.n x))
      with (CrcWriter.off x - CrcWriter.n x + 1 * Block) by lia.
    rewrite Z.mod_add by (unfold Block; lia). exact Hoff.
  - intros x p e Hx Hge filled HW.
    pose proof (write_full x p Hx Hge) as H. cbv zeta in H. fold filled in H.
    destruct (sink_Write _ _) as [[k err] d]. cbn [fst snd] in HW. subst err.
    destruct H as [_ Hw]. eexists. split; [exact Hw |].
    split; [| repeat split; try reflexivity; destruct Hx; lia].
    unfold CrcWriter.Write.
    replace (length p + 2)%nat with (Datatypes.S (length p + 1)) by lia.
    cbn [CrcWriter.Write_loop].
    replace (len p >? 0) with true.
    2:{ symmetry. apply Z.gtb_lt. destruct Hx as [_ Hn].
        pose proof (len_nonneg p). lia. }
    rewrite Hw. reflexivity.
  - intros x p bs b rest e Hx Hall Hlb Heq Hacc Hrej count taken.
    pose proof Hx as [Hb Hn]. pose proof (len_nonneg (concat bs)) as Hc.
    pose proof (len_nonneg rest) as Hr.
    assert (Hlen : CrcWriter.n x + len p = len (concat bs) + Block + len rest).
    { pose proof (f_equal len Heq) as HL.
      rewrite !len_app, Hlb, len_slice_to in HL by lia. lia. }
    eexists. split.
    + unfold CrcWriter.Write.
      rewrite (Write_loop_refused bs (length p + 2) x p b rest 0 e
                 Hx Hall Hlb Heq Hacc Hrej) by lia.
      rewrite Z.add_0_l. reflexivity.
    + unfold CrcWriter.Written. cbn [CrcWriter.off CrcWriter.crc CrcWriter.n
                                     CrcWriter.buf].
      subst taken count. split; [lia |]. split; [lia |].
      split; [f_equal; lia |]. repeat split.
Qed.

End RefusingSink.

(** ** Missing capabilities *)

(** C8: on a writer whose sink has no [io.WriterAt], [WriteBlockAt] and
    the integer patch calls fail with the error "WriteAt is not supported
    by the underlying writer"; on a reader whose source has no
    [io.Seeker], [Seek] fails with the error "reader cannot seek". In both
    cases the call returns at once with the state it was given. [Reset],
    and so [NewWriter] and [NewReader], record the capability of the sink
    or source they are given. *)
Theorem missing_capability_fails
        {S : Type} {sinkS : Sink S} {R : Type} {sourceR : Source R} :
  (forall (x : CrcWriter.Writer S) (b : list byte) (v o : Z),
     CrcWriter.at_ x = None ->
     let unsupported :=
       (Some (ErrNew "WriteAt is not supported by the underlying writer"%string),
        x) in
     CrcWriter.WriteBlockAt x b o = unsupported /\
     CrcWriter.WriteU64At x v o = unsupported /\
     CrcWriter.WriteU32At x v o = unsupported /\
     CrcWriter.WriteI64At x v o = unsupported /\
     CrcWriter.WriteI32At x v o = unsupported) /\
  (forall (y : BlockReader.Reader R) (off whence : Z),
     BlockReader.s y = None ->
     BlockReader.Seek y off whence
     = (0, Some (ErrNew "reader cannot seek"%string), y)) /\
  (forall (x : CrcWriter.Writer S) (d : S),
     CrcWriter.at_ (CrcWriter.Reset x d) = sink_WriterAt) /\
  (forall (y : BlockReader.Reader R) (d : R),
     BlockReader.s (BlockReader.Reset y d) = src_Seeker).
Proof.
  split; [| split; [| split]].
  - intros x b v o H unsupported.
    unfold CrcWriter.WriteI64At, CrcWriter.WriteI32At, CrcWriter.WriteU64At,
      CrcWriter.WriteU32At.
    rewrite !(WriteBlockAt_unsupported x _ o H). split_all; reflexivity.
  - intros y off whence H. apply Seek_unsupported, H.
  - reflexivity.
  - reflexivity.
Qed.

(** ** The claims on concrete inputs *)

Lemma revCipher_block : block_cipher revCipher.
Proof.
  intros b Hb. unfold len in *. cbn [revCipher Encrypt Decrypt].
  rewrite length_rev. split; exact Hb.
Qed.

Lemma revCipher_inverts : decrypt_inverts revCipher.
Proof. intros b _. apply rev_involutive. Qed.

(** C3, as stated, fails: on a fresh writer the checksum is 0xFFFFFFFF
    before [WriteEmpty] and 0x6522DF69 after it; and on a writer with
    pending bytes whose sink refuses the flush, [WriteEmpty] returns 0 with
    the error and writes no placeholder. *)
Lemma WriteEmpty_checksum_counterexample :
  (exists x : CrcWriter.Writer Buffer,
     CrcWriter.NewWriter revNewCipher [] demo_key = inl x /\
     CrcWriter.CRC x = 0xFFFFFFFF /\
     CrcWriter.CRC (snd (CrcWriter.WriteEmpty x)) = 0x6522DF69 /\
     CrcWriter.CRC (snd (CrcWriter.WriteEmpty x)) <> CrcWriter.CRC x) /\
  fst (CrcWriter.WriteEmpty demo_full_sink) = (0, Some (ErrIO 28)) /\
  stored (CrcWriter.w (snd (CrcWriter.WriteEmpty demo_full_sink))) = [].
Proof.
  split; [| split; vm_compute; reflexivity].
  eexists. split; [reflexivity |]. vm_compute.
  split; [reflexivity |]. split; [reflexivity | discriminate].
Qed.

(** The claims applied to the inputs above. *)

Lemma write_read_round_trip_witness :
  exists x : CrcWriter.Writer Buffer,
    CrcWriter.NewWriter revNewCipher [] demo_key = inl x /\
    block_cipher (CrcWriter.c x) /\ decrypt_inverts (CrcWriter.c x) /\
    exists x1 x2 rd rd',
      CrcWriter.Write x demo_payload = Some (11, None, x1) /\
      CrcWriter.Flush x1 = (None, x2) /\
      len (CrcWriter.w x2) = 16 /\
      BlockReader.NewReader revNewCipher
        {| data := CrcWriter.w x2; pos := 0 |} demo_key = inl rd /\
      BlockReader.Read rd (repeat x00 16)
      = Some (16, None, rd', demo_payload ++ [x00; x00; x00; x00; x00]).
Proof.
  eexists. split; [reflexivity |].
  split; [exact revCipher_block |]. split; [exact revCipher_inverts |].
  destruct (write_read_round_trip revNewCipher demo_key demo_payload _ eq_refl
              revCipher_block revCipher_inverts)
    as (x1 & x2 & rd & HW & HF & Hlen & _ & HN & HR).
  destruct (HR (repeat x00 16)) as (rd' & HRd).
  { rewrite Hlen. reflexivity. }
  exists x1, x2, rd, rd'. split; [exact HW |]. split; [exact HF |].
  split; [exact Hlen |]. split; [exact HN | exact HRd].
Defined.

Lemma WriteEmpty_reserves_block_witness :
  CrcWriter.Flush demo_pending = (None, snd (CrcWriter.Flush demo_pending)) /\
  (let x1 := snd (CrcWriter.Flush demo_pending) in
   let res := CrcWriter.WriteEmpty demo_pending in
   fst (fst res) = 8 /\
   CrcWriter.w (snd res) = CrcWriter.w x1 ++ empty /\
   CrcWriter.crc (snd res) = CRC.UpdateCRC (CrcWriter.crc x1) empty /\
   CrcWriter.off (snd res) = 16) /\
  exists x : CrcWriter.Writer Buffer,
    CrcWriter.NewWriter revNewCipher [] demo_key = inl x /\
    fst (fst (CrcWriter.WriteEmpty x)) = 0.
Proof.
  split; [reflexivity |]. split.
  - pose proof (proj1 (@WriteEmpty_reserves_block Buffer Buffer_Sink)
                  demo_pending _ eq_refl) as H.
    cbv zeta in *. destruct H as (H1 & _ & H3 & _ & H5 & H6 & _).
    split; [rewrite H1; reflexivity |]. split; [rewrite H3; reflexivity |].
    split; [exact H5 |]. rewrite H6. reflexivity.
  - eexists. split; [reflexivity |].
    exact (proj2 (proj2 (@WriteEmpty_reserves_block Buffer Buffer_Sink)
                    revNewCipher [] demo_key _ eq_refl)).
Defined.

Lemma Flush_pads_short_write_witness :
  (exists x : CrcWriter.Writer Buffer,
     CrcWriter.NewWriter revNewCipher [] demo_key = inl x /\
     exists x1 x2,
       CrcWriter.Write x [x01; x02; x03] = Some (3, None, x1) /\
       CrcWriter.w x1 = [] /\
       CrcWriter.Flush x1 = (None, x2) /\
       CrcWriter.w x2
       = Encrypt revCipher [x01; x02; x03; x00; x00; x00; x00; x00]) /\
  (writer_idle demo_stale /\
   CrcWriter.buf demo_stale = [x01; x02; x03; x14; x15; x16; x17; x18] /\
   exists x2,
     CrcWriter.Flush demo_stale = (None, x2) /\
     CrcWriter.w x2
     = Encrypt revCipher [x01; x02; x03; x00; x00; x00; x00; x00] /\
     CrcWriter.crc x2
     = CRC.UpdateCRC CRC.ZeroCRC [x01; x02; x03; x00; x00; x00; x00; x00] /\
     CrcWriter.buf x2 = [x01; x02; x03; x00; x00; x00; x00; x00]).
Proof.
  split.
  - eexists. split; [reflexivity |].
    destruct (proj1 (@Flush_pads_short_write Buffer Buffer_Sink) revNewCipher []
                demo_key _ eq_refl) as (x1 & x2 & H1 & H2 & H3 & H4 & _).
    exists x1, x2. split; [exact H1 |]. split; [exact H2 |].
    split; [exact H3 | exact H4].
  - assert (Hidle : writer_idle demo_stale)
      by (split; [reflexivity | cbn; unfold Block; lia]).
    split; [exact Hidle |]. split; [reflexivity |].
    destruct (proj2 (@Flush_pads_short_write Buffer Buffer_Sink) demo_stale
                Hidle eq_refl ltac:(cbn; lia))
      as (x2 & HF & Hw & Hcrc & Hbuf & _).
    exists x2. split; [exact HF |]. split; [exact Hw |].
    split; [exact Hcrc | exact Hbuf].
Defined.

Lemma Read_truncated_block_witness :
  needs_block demo_unloaded /\
  len (BlockReader.buf demo_unloaded) = Block /\
  len (slice_from (data (BlockReader.r demo_unloaded))
                  (pos (BlockReader.r demo_unloaded))) < Block /\
  src_ReadFull (BlockReader.r demo_unloaded) (len (BlockReader.buf demo_unloaded))
  = ([x13; x12; x11], Some ErrUnexpectedEOF,
     {| data := demo_truncated; pos := 19 |}) /\
  (exists x',
     BlockReader.Read demo_unloaded [x00; x00; x00; x00]
     = Some (0, Some ErrUnexpectedEOF, x', [x00; x00; x00; x00])) /\
  BlockReader.Buffered demo_loaded < 4 /\
  (exists y',
     BlockReader.Read demo_loaded [x00; x00; x00; x00]
     = Some (3, Some ErrUnexpectedEOF, y', [x0e; x0f; x10; x00])) /\
  (exists bs e d,
     src_ReadFull (BlockReader.r demo_unloaded)
                  (len (BlockReader.buf demo_unloaded)) = (bs, Some e, d) /\
     (e = EOF \/ e = ErrUnexpectedEOF) /\ len bs < Block).
Proof.
  assert (Hn : needs_block demo_unloaded) by (left; cbn; lia).
  assert (Hs : len (slice_from (data (BlockReader.r demo_unloaded))
                               (pos (BlockReader.r demo_unloaded))) < Block)
    by (vm_compute; reflexivity).
  split; [exact Hn |]. split; [reflexivity |]. split; [exact Hs |].
  split; [reflexivity |]. split; [| split; [| split]].
  - destruct (proj1 Read_truncated_block BytesReader BytesReader_Source
                demo_unloaded [x00; x00; x00; x00] _ _ _ Hn eq_refl eq_refl)
      as (x' & _ & H & _).
    exists x'. exact H.
  - vm_compute. reflexivity.
  - destruct (proj1 (proj2 Read_truncated_block) BytesReader BytesReader_Source
                demo_loaded [x00; x00; x00; x00] [x13; x12; x11]
                ErrUnexpectedEOF {| data := demo_truncated; pos := 19 |}
                eq_refl ltac:(cbn; unfold Block; lia) eq_refl eq_refl)
      as (y' & H & _).
    exists y'. exact H.
  - exact (proj2 (proj2 Read_truncated_block) demo_unloaded eq_refl Hs).
Defined.

Lemma Seek_then_Read_consistent_witness :
  reader_ok demo_exhausted /\ all_blocks demo_blocks /\
  len (concat demo_blocks) < 2 ^ 63 /\
  0 <= 5 < len (concat demo_blocks) /\
  5 + len (repeat x00 6) <= len (concat demo_blocks) /\
  exists x1 x2 x3 got seq,
    BlockReader.Seek demo_exhausted 5 SeekStart = (5, None, x1) /\
    BlockReader.Read x1 (repeat x00 6)
    = Some (len (repeat x00 6), None, x2, got) /\
    BlockReader.Read
      (BlockReader.Reset demo_exhausted
         {| data := concat demo_blocks; pos := 0 |}) (repeat x00 11)
    = Some (5 + len (repeat x00 6), None, x3, seq) /\
    got = slice_from seq 5 /\
    (Z.rem 5 Block <> 0 ->
     BlockReader.i x1 = Z.rem 5 Block /\
     BlockReader.buf x1
     = decrypt_of demo_exhausted (nth (Z.to_nat (5 / Block)) demo_blocks []) /\
     pos (BlockReader.r x1) = Block * (5 / Block) + Block).
Proof.
  assert (Hok : reader_ok demo_exhausted).
  { split; [reflexivity |]. intros b Hb. apply (revCipher_block b Hb). }
  assert (Hall : all_blocks demo_blocks) by (repeat constructor).
  split; [exact Hok |]. split; [exact Hall |].
  split; [vm_compute; reflexivity |].
  split; [split; vm_compute; [discriminate | reflexivity] |].
  split; [vm_compute; discriminate |].
  apply (Seek_then_Read_consistent demo_exhausted demo_blocks 5 (repeat x00 6)
           (repeat x00 11) Hok eq_refl Hall eq_refl).
  - vm_compute. reflexivity.
  - split; vm_compute; [discriminate | reflexivity].
  - vm_compute. discriminate.
  - reflexivity.
Defined.

Lemma Align_when_aligned_witness :
  (Z.rem (BlockReader.Buffered demo_whole) Block = 0 /\
   BlockReader.Align demo_whole = (None, demo_whole)) /\
  (needs_block demo_fresh /\
   BlockReader.Align demo_fresh = (None, demo_fresh)) /\
  (0 < BlockReader.i demo_inside < Block /\
   Z.rem (BlockReader.Buffered demo_inside) Block <> 0 /\
   BlockReader.Align demo_inside = BlockReader.readNext demo_inside).
Proof.
  split; [| split].
  - split; [reflexivity |].
    exact (proj1 (@Align_when_aligned BytesReader BytesReader_Source
                    demo_whole) eq_refl).
  - assert (Hn : needs_block demo_fresh) by (left; cbn; lia).
    split; [exact Hn |].
    exact (proj2 (proj1 (proj2 (@Align_when_aligned BytesReader
                                  BytesReader_Source demo_fresh)) Hn)).
  - assert (Hi : 0 < BlockReader.i demo_inside < Block)
      by (cbn; unfold Block; lia).
    split; [exact Hi |].
    pose proof (@Align_when_aligned BytesReader BytesReader_Source demo_inside)
      as (_ & _ & Hiff & Hre).
    split; [apply Hiff, Hi | exact (proj1 (Hre Hi))].
Defined.

Lemma missing_capability_fails_witness :
  CrcWriter.at_ demo_pending = None /\
  CrcWriter.WriteBlockAt demo_pending empty 0
  = (Some (ErrNew "WriteAt is not supported by the underlying writer"%string),
     demo_pending) /\
  BlockReader.s demo_stream_reader = None /\
  BlockReader.Seek demo_stream_reader 5 SeekStart
  = (0, Some (ErrNew "reader cannot seek"%string), demo_stream_reader).
Proof.
  split; [reflexivity |]. split; [| split; [reflexivity |]].
  - exact (proj1 (proj1 (@missing_capability_fails Buffer Buffer_Sink Stream
                           Stream_Source)
                    demo_pending empty 0 0 eq_refl)).
  - exact (proj1 (proj2 (@missing_capability_fails Buffer Buffer_Sink Stream
                           Stream_Source))
                 demo_stream_reader 5 SeekStart eq_refl).
Defined.

Lemma writer_variants_agree_witness :
  exists (xc : CrcWriter.Writer Buffer) (xp : PlainWriter.Writer Buffer),
    CrcWriter.NewWriter revNewCipher [] demo_key = inl xc /\
    PlainWriter.NewWriter revNewCipher [] demo_key = inl xp /\
    exists obs xc' xp',
      run_crc xc demo_calls
      = Some (obs, xc') /\
      run_plain xp demo_calls
      = Some (obs, xp') /\
      PlainWriter.w xp' = CrcWriter.w xc' /\
      PlainWriter.Written xp' = CrcWriter.Written xc' /\
      xp' = forget xc'.
Proof.
  eexists. eexists. split; [reflexivity |]. split; [reflexivity |].
  exact (@writer_variants_agree Buffer Buffer_Sink revNewCipher [] demo_key
           _ _ demo_calls eq_refl eq_refl).
Defined.

Lemma flush_failure_post_state_witness :
  snd (fst (sink_Write (CrcWriter.w demo_full_sink)
              (Encrypt (CrcWriter.c demo_full_sink)
                       (CrcWriter.buf demo_full_sink)))) = Some (ErrIO 28) /\
  fst (CrcWriter.flush demo_full_sink) = Some (ErrIO 28) /\
  CrcWriter.off (snd (CrcWriter.flush demo_full_sink)) = 8 /\
  CrcWriter.n (snd (CrcWriter.flush demo_full_sink)) = 0 /\
  writer_idle demo_full_sink /\
  Block <= CrcWriter.n demo_full_sink + len demo_payload /\
  (exists x',
     CrcWriter.Write demo_full_sink demo_payload
     = Some (0, Some (ErrIO 28), x') /\
     CrcWriter.off x' = 8 /\ CrcWriter.n x' = 0) /\
  writer_idle demo_one_block_sink /\
  accepts revCipher (CrcWriter.w demo_one_block_sink)
          [[x01; x02; x03; x04; x05; x06; x07; x08]] /\
  exists x',
    CrcWriter.Write demo_one_block_sink demo_long
    = Some (5, Some (ErrIO 28), x') /\
    CrcWriter.Written x' = 16 /\ CrcWriter.n x' = 0 /\
    CrcWriter.buf x' = [x09; x0a; x0b; x0c; x0d; x0e; x0f; x10].
Proof.
  split; [reflexivity |].
  pose proof (proj1 (@flush_failure_post_state Bounded Bounded_Sink)
                demo_full_sink (ErrIO 28) eq_refl) as H.
  cbv zeta in H. destruct H as (H1 & _ & H3 & H4 & _).
  split; [exact H1 |]. split; [rewrite H3; reflexivity |]. split; [exact H4 |].
  assert (Hidle : writer_idle demo_full_sink)
    by (split; [reflexivity | cbn; unfold Block; lia]).
  assert (Hge : Block <= CrcWriter.n demo_full_sink + len demo_payload)
    by (vm_compute; discriminate).
  split; [exact Hidle |]. split; [exact Hge |].
  split.
  { destruct (proj1 (proj2 (@flush_failure_post_state Bounded Bounded_Sink))
                demo_full_sink demo_payload (ErrIO 28) Hidle Hge eq_refl)
      as (x' & _ & HW & _ & _ & Hoff & Hn).
    exists x'. split; [exact HW |].
    split; [rewrite Hoff; reflexivity | exact Hn]. }
  assert (Hidle1 : writer_idle demo_one_block_sink)
    by (split; [reflexivity | cbn; unfold Block; lia]).
  assert (Hacc : accepts revCipher (CrcWriter.w demo_one_block_sink)
                         [[x01; x02; x03; x04; x05; x06; x07; x08]])
    by (split; [reflexivity | exact I]).
  split; [exact Hidle1 |]. split; [exact Hacc |].
  pose proof (proj2 (proj2 (@flush_failure_post_state Bounded Bounded_Sink))
                demo_one_block_sink demo_long
                [[x01; x02; x03; x04; x05; x06; x07; x08]]
                [x09; x0a; x0b; x0c; x0d; x0e; x0f; x10]
                [x11; x12; x13; x14; x15; x16; x17; x18; x19] (ErrIO 28)
                Hidle1 ltac:(repeat constructor) eq_refl eq_refl Hacc eq_refl)
    as Hlate.
  cbv zeta in Hlate. destruct Hlate as (x' & HW & _ & _ & HWr & _ & Hn & Hbuf).
  exists x'. split; [exact HW |]. split; [rewrite HWr; reflexivity |].
  split; [exact Hn | exact Hbuf].
Defined.

(** The round trip of the eleven-byte payload, run: sixteen bytes reach the
    sink and are read back as the payload and five zero bytes. *)
Example round_trip_run :
  match CrcWriter.NewWriter revNewCipher ([] : Buffer) demo_key with
  | inl x =>
      match CrcWriter.Write x demo_payload with
      | Some (_, _, x1) =>
          let out := CrcWriter.w (snd (CrcWriter.Flush x1)) in
          match BlockReader.NewReader revNewCipher
                  {| data := out; pos := 0 |} demo_key with
          | inl rd =>
              option_map (fun res => (fst (fst (fst res)), snd res))
                         (BlockReader.Read rd (repeat x00 16))
              = Some (16, demo_payload ++ [x00; x00; x00; x00; x00])
          | inr _ => False
          end
      | None => False
      end
  | inr _ => False
  end.
Proof. vm_compute. reflexivity. Qed.

(** Reading past the two whole blocks of the truncated data: the sixteen
    bytes are served, then the short block is an error. *)
Example truncated_run :
  option_map (fun res => (fst (fst (fst res)), snd (fst (fst res))))
             (BlockReader.Read
                (demo_reader {| data := demo_truncated; pos := 0 |} empty (-1))
                (repeat x00 17))
  = Some (16, Some ErrUnexpectedEOF).
Proof. vm_compute. reflexivity. Qed.

(** * Further properties of the code *)

(** ** Writing in pieces *)

Section StreamFacts.
Context {S : Type} {sinkS : Sink S}.
Variable ok : S -> Prop.
Hypothesis ok_reliable : reliable ok.

(** The loop of [Write] on a reliable sink, in full: the blocks completed
    by the buffered and the new bytes are flushed in order, the rest is
    pending. *)
Lemma Write_loop_state (bs : list (list byte)) :
  forall (t : list byte) (fuel : nat) (x : CrcWriter.Writer S)
         (p : list byte) (total : Z),
    writer_idle x -> ok (CrcWriter.w x) ->
    int64 (CrcWriter.off x) = CrcWriter.off x ->
    all_blocks bs -> len t < Block ->
    slice_to (CrcWriter.buf x) (CrcWriter.n x) ++ p = concat bs ++ t ->
    (length p + 1 < fuel)%nat ->
    CrcWriter.Write_loop fuel x p total
    = Some (total + len p, None, after_blocks x bs t (len p)).
Proof.
  induction bs as [| b bs IH]; intros t fuel x p total Hx Hok Hoff Hall Ht Heq Hfuel;
    pose proof Hx as [Hb Hn]; pose proof (len_nonneg p) as Hp0;
    assert (Hu : len (slice_to (CrcWriter.buf x) (CrcWriter.n x)) = CrcWriter.n x)
      by (apply len_slice_to; lia);
    pose proof (f_equal len Heq) as Hlen; rewrite !len_app, Hu in Hlen.
  - cbn [concat app] in *. change (len (@nil byte)) with 0 in Hlen.
    unfold after_blocks. cbn [fold_left carry].
    destruct fuel as [| fuel]; [lia |]. cbn [CrcWriter.Write_loop].
    destruct (len p >? 0) eqn:Hpos.
    + rewrite (write_partial x p Hx) by lia.
      destruct fuel as [| fuel]; [lia |]. cbn [CrcWriter.Write_loop].
      rewrite (slice_from_all p (len p)) by lia.
      change (len (@nil byte) >? 0) with false. cbv iota.
      rewrite (int64_small (len p)) by (unfold Block in *; lia).
      replace (CrcWriter.n x + len p) with (len t) by lia.
      rewrite app_assoc, Heq. reflexivity.
    + assert (E : len p = 0) by lia. apply len_nil_inv in E. subst p.
      rewrite app_nil_r in Heq. change (len (@nil byte)) with 0 in *.
      rewrite !Z.add_0_r, Hoff, <- Heq, Hu, slice_to_from.
      destruct x; reflexivity.
  - inversion Hall as [| b' bs' Hlb Hall']; subst b' bs'.
    cbn [concat] in *. rewrite !len_app, Hlb in Hlen.
    pose proof (len_nonneg (concat bs)) as Hc. pose proof (len_nonneg t) as Ht0.
    assert (Hge : Block <= CrcWriter.n x + len p) by lia.
    assert (Hfilled : slice_to (CrcWriter.buf x) (CrcWriter.n x)
                      ++ slice_to p (Block - CrcWriter.n x) = b).
    { transitivity (slice_to (slice_to (CrcWriter.buf x) (CrcWriter.n x) ++ p)
                             (CrcWriter.n x + (Block - CrcWriter.n x))).
      - rewrite slice_to_add by lia.
        rewrite (slice_to_app_len _ _ _ Hu), (slice_from_app_len _ _ _ Hu).
        reflexivity.
      - rewrite Heq.
        replace (CrcWriter.n x + (Block - CrcWriter.n x)) with Block by lia.
        rewrite <- app_assoc. apply slice_to_app_len. exact Hlb. }
    assert (Hrest : slice_from p (Block - CrcWriter.n x) = concat bs ++ t).
    { transitivity (slice_from (slice_to (CrcWriter.buf x) (CrcWriter.n x) ++ p)
                               (CrcWriter.n x + (Block - CrcWriter.n x))).
      - rewrite slice_from_add by lia.
        rewrite (slice_from_app_len _ _ _ Hu). reflexivity.
      - rewrite Heq.
        replace (CrcWriter.n x + (Block - CrcWriter.n x)) with Block by lia.
        rewrite <- app_assoc. apply slice_from_app_len. exact Hlb. }
    destruct fuel as [| fuel]; [lia |]. cbn [CrcWriter.Write_loop].
    replace (len p >? 0) with true by (symmetry; apply Z.gtb_lt; lia).
    pose proof (write_full x p Hx Hge) as HW. cbv zeta in HW.
    rewrite Hfilled in HW.
    destruct (ok_reliable (CrcWriter.w x) (Encrypt (CrcWriter.c x) b) Hok)
      as [Herr Hok'].
    destruct (sink_Write (CrcWriter.w x) (Encrypt (CrcWriter.c x) b))
      as [[k0 err] d] eqn:HS.
    cbn [fst snd] in Herr, Hok'. subst err.
    destruct HW as [_ HW]. rewrite HW. cbv iota beta.
    match goal with
    | |- context [CrcWriter.Write_loop fuel ?y _ _] => set (x2 := y)
    end.
    assert (Hx2 : writer_idle x2 /\ CrcWriter.n x2 = 0
                  /\ CrcWriter.w x2 = push (CrcWriter.c x) (CrcWriter.w x) b
                  /\ CrcWriter.c x2 = CrcWriter.c x
                  /\ CrcWriter.at_ x2 = CrcWriter.at_ x
                  /\ CrcWriter.NoZero x2 = CrcWriter.NoZero x
                  /\ CrcWriter.buf x2
                     = (if CrcWriter.NoZero x then empty else b)
                  /\ CrcWriter.off x2
                     = int64 (CrcWriter.off x + (Block - CrcWriter.n x))
                  /\ CrcWriter.crc x2 = CRC.UpdateCRC (CrcWriter.crc x) b).
    { unfold push. rewrite HS. subst x2. destruct (CrcWriter.NoZero x) eqn:HZ;
        (split; [split; cbn; [first [exact Hlb | reflexivity] | unfold Block; lia] |
                 cbn; rewrite ?HZ; repeat split; reflexivity]). }
    destruct Hx2 as (Hidle2 & Hn2 & Hw2 & Hc2 & Hat2 & Hz2 & Hb2 & Ho2 & Hcrc2).
    rewrite (IH t fuel x2 (slice_from p (Block - CrcWriter.n x))
                (total + (Block - CrcWriter.n x)) Hidle2).
    + assert (Hlp : len (slice_from p (Block - CrcWriter.n x))
                    = len p - (Block - CrcWriter.n x))
        by (apply len_slice_from; lia).
      unfold after_blocks. cbn [fold_left carry].
      rewrite Hw2, Hc2, Hat2, Hz2, Hb2, Ho2, Hcrc2, Hlp, int64_add_l.
      replace (total + (Block - CrcWriter.n x) + (len p - (Block - CrcWriter.n x)))
        with (total + len p) by lia.
      replace (CrcWriter.off x + (Block - CrcWriter.n x)
               + (len p - (Block - CrcWriter.n x)))
        with (CrcWriter.off x + len p) by lia.
      reflexivity.
    + rewrite Hw2. unfold push. rewrite HS. exact Hok'.
    + rewrite Ho2. apply int64_idem.
    + exact Hall'.
    + exact Ht.
    + rewrite Hn2. cbn [slice_to Z.to_nat firstn app]. exact Hrest.
    + unfold slice_from. rewrite length_skipn. unfold len, Block in *. lia.
Qed.
End StreamFacts.

Lemma carry_app (nz : bool) (bs1 bs2 : list (list byte)) (B : list byte) :
  carry nz (bs1 ++ bs2) B = carry nz bs2 (carry nz bs1 B).
Proof. apply fold_left_app. Qed.

Lemma carry_cons (nz : bool) (b : list byte) (bs : list (list byte))
      (B B' : list byte) :
  carry nz (b :: bs) B = carry nz (b :: bs) B'.
Proof. reflexivity. Qed.

Lemma len_carry (nz : bool) (bs : list (list byte)) :
  forall B, len B = Block -> all_blocks bs -> len (carry nz bs B) = Block.
Proof.
  induction bs as [| b bs IH]; intros B HB Hall; [exact HB |].
  inversion Hall as [| b' bs' Hb Hall']; subst b' bs'.
  cbn [carry fold_left]. apply IH; [| exact Hall'].
  destruct nz; [reflexivity | exact Hb].
Qed.

Section WriteStateFacts.
Context {S : Type} {sinkS : Sink S}.
Variable ok : S -> Prop.
Hypothesis ok_reliable : reliable ok.

Lemma ok_pushes (c0 : Cipher) (bs : list (list byte)) :
  forall d, ok d -> ok (fold_left (push c0) bs d).
Proof.
  induction bs as [| b bs IH]; intros d Hd; [exact Hd |].
  cbn [fold_left]. apply IH. apply (ok_reliable d (Encrypt c0 b) Hd).
Qed.

Lemma after_blocks_idle (x : CrcWriter.Writer S) (bs : list (list byte))
      (t : list byte) (k : Z) :
  writer_idle x -> all_blocks bs -> len t < Block ->
  writer_idle (after_blocks x bs t k) /\
  slice_to (CrcWriter.buf (after_blocks x bs t k))
           (CrcWriter.n (after_blocks x bs t k)) = t.
Proof.
  intros [Hb Hn] Hall Ht. pose proof (len_nonneg t) as Ht0.
  pose proof (len_carry (CrcWriter.NoZero x) bs _ Hb Hall) as Hc.
  unfold writer_idle, after_blocks. cbn [CrcWriter.buf CrcWriter.n]. split.
  - split; [| lia]. rewrite len_app, len_slice_from; lia.
  - apply slice_to_app.
Qed.

(** [Write] on a reliable sink accepts all of [p] and leaves the state
    [after_blocks]. *)
Lemma Write_state (x : CrcWriter.Writer S) (p : list byte)
      (bs : list (list byte)) (t : list byte) :
  writer_idle x -> ok (CrcWriter.w x) ->
  int64 (CrcWriter.off x) = CrcWriter.off x ->
  all_blocks bs -> len t < Block ->
  slice_to (CrcWriter.buf x) (CrcWriter.n x) ++ p = concat bs ++ t ->
  CrcWriter.Write x p = Some (len p, None, after_blocks x bs t (len p)).
Proof.
  intros Hx Hok Hoff Hall Ht Heq. unfold CrcWriter.Write.
  rewrite (Write_loop_state ok ok_reliable bs t _ x p 0 Hx Hok Hoff Hall Ht Heq)
    by lia.
  reflexivity.
Qed.

(** Writing [p1] and then [p2] leaves the writer, sink included, in the
    state in which one [Write] of [p1 ++ p2] leaves it. *)
Lemma Write_app (x : CrcWriter.Writer S) (p1 p2 : list byte) :
  writer_idle x -> ok (CrcWriter.w x) ->
  int64 (CrcWriter.off x) = CrcWriter.off x ->
  exists x1 x2,
    CrcWriter.Write x p1 = Some (len p1, None, x1) /\
    CrcWriter.Write x1 p2 = Some (len p2, None, x2) /\
    CrcWriter.Write x (p1 ++ p2) = Some (len p1 + len p2, None, x2).
Proof.
  intros Hx Hok Hoff. pose proof Hx as [Hb Hn].
  destruct (blocks_and_tail _ (slice_to (CrcWriter.buf x) (CrcWriter.n x) ++ p1)
              (Nat.le_refl _)) as (bs1 & t1 & H1 & Hall1 & Ht1).
  destruct (blocks_and_tail _ (t1 ++ p2) (Nat.le_refl _))
    as (bs2 & t2 & H2 & Hall2 & Ht2).
  pose proof (len_nonneg t1) as Ht10. pose proof (len_nonneg t2) as Ht20.
  set (x1 := after_blocks x bs1 t1 (len p1)).
  destruct (after_blocks_idle x bs1 t1 (len p1) Hx Hall1 Ht1) as [Hx1 Hpend1].
  fold x1 in Hx1, Hpend1.
  exists x1, (after_blocks x1 bs2 t2 (len p2)).
  split; [exact (Write_state x p1 bs1 t1 Hx Hok Hoff Hall1 Ht1 H1) |].
  split.
  { apply Write_state; try assumption.
    - apply ok_pushes. exact Hok.
    - apply int64_idem.
    - rewrite Hpend1. exact H2. }
  rewrite (Write_state x (p1 ++ p2) (bs1 ++ bs2) t2 Hx Hok Hoff).
  - rewrite len_app. do 2 f_equal. unfold x1, after_blocks.
    cbn [CrcWriter.w CrcWriter.at_ CrcWriter.c CrcWriter.buf CrcWriter.n
         CrcWriter.off CrcWriter.crc CrcWriter.NoZero].
    rewrite !fold_left_app, int64_add_l, Z.add_assoc, carry_app.
    f_equal. f_equal.
    destruct bs2 as [| b2 bs2].
    + cbn [carry fold_left]. fold (carry (CrcWriter.NoZero x) bs1 (CrcWriter.buf x)).
      cbn [concat app] in H2. pose proof (f_equal len H2) as HL.
      rewrite len_app in HL. pose proof (len_nonneg p2).
      replace (len t2) with (len t1 + (len t2 - len t1)) by lia.
      rewrite !slice_from_add by lia. rewrite slice_from_app. reflexivity.
    + reflexivity.
  - apply all_blocks_app. split; assumption.
  - exact Ht2.
  - rewrite app_assoc, H1, <- app_assoc, H2, concat_app, <- app_assoc.
    reflexivity.
Qed.
End WriteStateFacts.

(** ** What a flushed payload leaves behind *)

Section FlushFacts.
Context {S : Type} {sinkS : Sink S}.
Variable ok : S -> Prop.
Hypothesis ok_reliable : reliable ok.

(** [Write] of a payload and [Flush], zeroing enabled, on a reliable sink:
    the blocks of the padded payload go to the sink in order, each is fed
    to the checksum, and the offset moves by their total length. *)
Lemma Write_Flush_state (x : CrcWriter.Writer S) (P : list byte) :
  writer_idle x -> CrcWriter.n x = 0 -> CrcWriter.NoZero x = false ->
  ok (CrcWriter.w x) -> int64 (CrcWriter.off x) = CrcWriter.off x ->
  exists x1 x2 bs,
    CrcWriter.Write x P = Some (len P, None, x1) /\
    CrcWriter.Flush x1 = (None, x2) /\
    all_blocks bs /\ concat bs = P ++ padding P /\
    CrcWriter.w x2 = fold_left (push (CrcWriter.c x)) bs (CrcWriter.w x) /\
    CrcWriter.crc x2 = fold_left CRC.UpdateCRC bs (CrcWriter.crc x) /\
    CrcWriter.off x2 = int64 (CrcWriter.off x + len (P ++ padding P)) /\
    CrcWriter.n x2 = 0 /\ ok (CrcWriter.w x2) /\
    writer_idle x2 /\ CrcWriter.c x2 = CrcWriter.c x /\
    CrcWriter.NoZero x2 = false /\ CrcWriter.at_ x2 = CrcWriter.at_ x.
Proof.
  intros Hx Hn HZ Hok Hoff.
  destruct (blocks_and_tail (length P) P (Nat.le_refl _))
    as (bs & t & HP & Hall & Ht).
  pose proof (len_nonneg t) as Ht0.
  assert (Heq : slice_to (CrcWriter.buf x) (CrcWriter.n x) ++ P = concat bs ++ t).
  { rewrite Hn. exact HP. }
  pose proof (Write_state ok ok_reliable x P bs t Hx Hok Hoff Hall Ht Heq) as HW.
  destruct (after_blocks_idle x bs t (len P) Hx Hall Ht) as [Hidle1 Hpend1].
  assert (HlenP : len P = Block * len bs + len t).
  { rewrite HP at 1. rewrite len_app, (len_concat_blocks bs Hall). reflexivity. }
  assert (Hmod : len P mod Block = len t).
  { rewrite HlenP, Z.add_comm, Z.mul_comm, Z.mod_add by (unfold Block; lia).
    apply Z.mod_small. lia. }
  pose proof (ok_pushes ok ok_reliable (CrcWriter.c x) bs _ Hok) as Hok1.
  exists (after_blocks x bs t (len P)).
  destruct (Z.eq_dec (len t) 0) as [E | E].
  - exists (after_blocks x bs t (len P)), bs. split; [exact HW |].
    split; [unfold CrcWriter.Flush; cbn [after_blocks CrcWriter.n];
            rewrite E; reflexivity |].
    assert (Hpad : padding P = []).
    { unfold padding. rewrite Hmod, E. reflexivity. }
    rewrite Hpad, app_nil_r. apply len_nil_inv in E.
    rewrite E, app_nil_r in HP.
    split; [exact Hall |]. split; [symmetry; exact HP |].
    split; [reflexivity |]. split; [reflexivity |]. split; [reflexivity |].
    split; [cbn; rewrite E; reflexivity |]. split; [exact Hok1 |].
    split; [exact Hidle1 |]. split; [reflexivity |].
    split; [exact HZ | reflexivity].
  - set (padded := t ++ repeat x00 (Z.to_nat (Block - len t))).
    pose proof (Flush_pads (after_blocks x bs t (len P)) Hidle1 HZ) as HF.
    rewrite Hpend1 in HF. cbn [after_blocks CrcWriter.n CrcWriter.w CrcWriter.c
                               CrcWriter.off CrcWriter.crc CrcWriter.at_] in HF.
    fold padded in HF. specialize (HF ltac:(lia)).
    destruct (ok_reliable _ (Encrypt (CrcWriter.c x) padded) Hok1) as [Herr Hok2].
    rewrite Herr in HF.
    assert (Hpad : padding P = repeat x00 (Z.to_nat (Block - len t))).
    { unfold padding. rewrite Hmod, (Z.mod_small (Block - len t)) by lia.
      reflexivity. }
    eexists. exists (bs ++ [padded]). split; [exact HW |]. split; [exact HF |].
    cbn [CrcWriter.w CrcWriter.crc CrcWriter.off CrcWriter.n].
    assert (Hlpad : len padded = Block).
    { unfold padded. rewrite len_app. unfold len at 2. rewrite repeat_length. lia. }
    split_all.
    + apply all_blocks_app. split; [exact Hall |]. constructor; [| constructor].
      exact Hlpad.
    + rewrite concat_app. cbn [concat]. rewrite app_nil_r, Hpad. unfold padded.
      rewrite app_assoc, <- HP. reflexivity.
    + rewrite fold_left_app. reflexivity.
    + rewrite fold_left_app. reflexivity.
    + assert (Hlp : len (padding P) = Block - len t)
        by (rewrite Hpad; unfold len in *; rewrite repeat_length; lia).
      rewrite int64_add_l, len_app, Hlp. f_equal. lia.
    + reflexivity.
    + exact Hok2.
    + unfold writer_idle. cbn [CrcWriter.buf CrcWriter.n].
      split; [exact Hlpad | unfold Block; lia].
    + reflexivity.
    + cbn [CrcWriter.NoZero after_blocks]. first [reflexivity | exact HZ].
    + reflexivity.
Qed.
End FlushFacts.

(** A byte sequence splits into blocks in one way only. *)
Lemma blocks_unique (bs : list (list byte)) :
  forall bs', all_blocks bs -> all_blocks bs' -> concat bs = concat bs' ->
              bs = bs'.
Proof.
  induction bs as [| b bs IH]; intros bs' Hall Hall' Heq.
  - destruct bs' as [| b' bs']; [reflexivity |].
    inversion Hall' as [| ? ? Hb' _]; subst. cbn [concat] in Heq.
    apply (f_equal len) in Heq. rewrite len_app, Hb' in Heq.
    pose proof (len_nonneg (concat bs')). change (len (@nil byte)) with 0 in Heq.
    unfold Block in *. lia.
  - inversion Hall as [| ? ? Hb Hall1]; subst.
    destruct bs' as [| b' bs'].
    + cbn [concat] in Heq. apply (f_equal len) in Heq. rewrite len_app, Hb in Heq.
      pose proof (len_nonneg (concat bs)). change (len (@nil byte)) with 0 in Heq.
      unfold Block in *. lia.
    + inversion Hall' as [| ? ? Hb' Hall1']; subst. cbn [concat] in Heq.
      assert (E : b = b').
      { rewrite <- (slice_to_app_len b (concat bs) Block Hb).
        rewrite <- (slice_to_app_len b' (concat bs') Block Hb'), Heq.
        reflexivity. }
      subst b'. apply app_inv_head in Heq. f_equal. apply IH; assumption.
Qed.

Section PayloadFacts.
Context {S : Type} {sinkS : Sink S}.
Variable ok : S -> Prop.
Hypothesis ok_reliable : reliable ok.

Lemma flush_reliable (x : CrcWriter.Writer S) :
  ok (CrcWriter.w x) ->
  CrcWriter.flush x
  = (None,
     {| CrcWriter.w := push (CrcWriter.c x) (CrcWriter.w x) (CrcWriter.buf x);
        CrcWriter.at_ := CrcWriter.at_ x; CrcWriter.c := CrcWriter.c x;
        CrcWriter.buf := CrcWriter.buf x; CrcWriter.n := 0;
        CrcWriter.off :=
          int64 (CrcWriter.off x + int64 (Block - CrcWriter.n x));
        CrcWriter.crc := CRC.UpdateCRC (CrcWriter.crc x) (CrcWriter.buf x);
        CrcWriter.NoZero := CrcWriter.NoZero x |}).
Proof.
  intros Hok. unfold CrcWriter.flush, push.
  destruct (ok_reliable _ (Encrypt (CrcWriter.c x) (CrcWriter.buf x)) Hok)
    as [Herr _].
  destruct (sink_Write _ _) as [[k err] d']. cbn [fst snd] in *. subst err.
  reflexivity.
Qed.

(** X2: The checksum a fresh writer holds after a payload was written and
    flushed (zeroing enabled) is the chain of [UpdateCRC] over the blocks of
    the zero-padded plaintext: each block's value is fed back as the start
    value of the next. It depends neither on the cipher nor on the sink. For a
    payload of at most one block it is the standard CRC-32 of the padded
    block. *)
Theorem Writer_checksum_of_payload
        (NewCipher : Z -> Cipher + error) (d : S) (key : Z)
        (x : CrcWriter.Writer S) (P : list byte) :
  CrcWriter.NewWriter NewCipher d key = inl x -> ok d ->
  exists x1 x2,
    CrcWriter.Write x P = Some (len P, None, x1) /\
    CrcWriter.Flush x1 = (None, x2) /\
    (forall bs, all_blocks bs -> concat bs = P ++ padding P ->
                CrcWriter.CRC x2 = fold_left CRC.UpdateCRC bs CRC.ZeroCRC) /\
    (0 < len P <= Block ->
     CrcWriter.CRC x2 = CRC.UpdateCRCStd CRC.ZeroCRCStd (P ++ padding P)).
Proof.
  intros HN Hok. pose proof (fresh_writer_idle _ _ _ _ HN) as Hidle.
  apply NewWriter_inl in HN as (c0 & _ & ->).
  destruct (Write_Flush_state ok ok_reliable _ P Hidle eq_refl eq_refl Hok eq_refl)
    as (x1 & x2 & bs & HW & HF & Hall & Hcat & _ & Hcrc & _).
  cbn [CrcWriter.crc] in Hcrc.
  exists x1, x2. split; [exact HW |]. split; [exact HF |]. split.
  - intros bs' Hall' Hcat'. rewrite (blocks_unique bs' bs Hall' Hall); [exact Hcrc |].
    congruence.
  - intros HP. assert (Hone : len (P ++ padding P) = Block).
    { rewrite len_app, len_padding. unfold Block in *.
      destruct (Z.eq_dec (len P) 8) as [-> | Hne]; [reflexivity |].
      rewrite (Z.mod_small (len P)), Z.mod_small by lia. lia. }
    rewrite <- UpdateCRC_one_call.
    rewrite (blocks_unique bs [P ++ padding P] Hall) in Hcrc.
    + exact Hcrc.
    + constructor; [exact Hone | constructor].
    + cbn [concat]. rewrite app_nil_r. exact Hcat.
Qed.

(** X3: A writer that is [Reset] onto a sink produces, with zeroing enabled,
    the stream, the checksum and the offset of the payload alone: whatever the
    earlier use left in the buffer, the cursor, the offset and the checksum
    has no effect. *)
Theorem Reset_starts_clean (x x' : CrcWriter.Writer S) (d : S) (P : list byte) :
  len (CrcWriter.buf x) = Block -> len (CrcWriter.buf x') = Block ->
  CrcWriter.NoZero x = false -> CrcWriter.NoZero x' = false ->
  CrcWriter.c x = CrcWriter.c x' -> ok d ->
  exists y1 y2 y1' y2',
    CrcWriter.Write (CrcWriter.Reset x d) P = Some (len P, None, y1) /\
    CrcWriter.Flush y1 = (None, y2) /\
    CrcWriter.Write (CrcWriter.Reset x' d) P = Some (len P, None, y1') /\
    CrcWriter.Flush y1' = (None, y2') /\
    CrcWriter.w y2 = CrcWriter.w y2' /\
    CrcWriter.CRC y2 = CrcWriter.CRC y2' /\
    CrcWriter.Written y2 = CrcWriter.Written y2' /\
    CrcWriter.Written y2 = int64 (len P + len (padding P)).
Proof.
  intros Hb Hb' HZ HZ' Hc Hok.
  assert (Hidle : forall z, len (CrcWriter.buf z) = Block ->
                            writer_idle (CrcWriter.Reset z d)).
  { intros z Hz. split; [exact Hz | cbn; unfold Block; lia]. }
  destruct (Write_Flush_state ok ok_reliable (CrcWriter.Reset x d) P
              (Hidle x Hb) eq_refl HZ Hok eq_refl)
    as (y1 & y2 & bs & HW & HF & Hall & Hcat & Hw & Hcrc & Hoff & _).
  destruct (Write_Flush_state ok ok_reliable (CrcWriter.Reset x' d) P
              (Hidle x' Hb') eq_refl HZ' Hok eq_refl)
    as (y1' & y2' & bs' & HW' & HF' & Hall' & Hcat' & Hw' & Hcrc' & Hoff' & _).
  assert (E : bs = bs') by (apply blocks_unique; congruence).
  subst bs'. cbn [CrcWriter.Reset CrcWriter.ResetCRC CrcWriter.w CrcWriter.c
                  CrcWriter.crc CrcWriter.off] in *.
  exists y1, y2, y1', y2'. unfold CrcWriter.CRC, CrcWriter.Written.
  rewrite Hw, Hw', Hcrc, Hcrc', Hoff, Hoff', Hc, len_app.
  repeat split; assumption || reflexivity.
Qed.

(** X4: With [NoZero] set, a [Flush] after a short [Write] hands the sink, and
    the checksum, the new bytes followed by whatever the buffer held behind
    them: the old bytes leave in the block. A [Write] that completes a block
    leaves the buffer zeroed. *)
Theorem NoZero_flush_keeps_old_bytes (x : CrcWriter.Writer S) (p : list byte) :
  writer_idle x -> CrcWriter.n x = 0 -> CrcWriter.NoZero x = true ->
  ok (CrcWriter.w x) -> int64 (CrcWriter.off x) = CrcWriter.off x ->
  (0 < len p < Block ->
   let block := p ++ slice_from (CrcWriter.buf x) (len p) in
   exists x1 x2,
     CrcWriter.Write x p = Some (len p, None, x1) /\
     CrcWriter.Flush x1 = (None, x2) /\
     CrcWriter.w x2 = push (CrcWriter.c x) (CrcWriter.w x) block /\
     CrcWriter.crc x2 = CRC.UpdateCRC (CrcWriter.crc x) block /\
     CrcWriter.buf x2 = block) /\
  (len p = Block ->
   exists x1,
     CrcWriter.Write x p = Some (len p, None, x1) /\
     CrcWriter.w x1 = push (CrcWriter.c x) (CrcWriter.w x) p /\
     CrcWriter.buf x1 = empty /\ CrcWriter.n x1 = 0).
Proof.
  intros Hx Hn HZ Hok Hoff. split.
  - intros Hp block.
    assert (Heq : slice_to (CrcWriter.buf x) (CrcWriter.n x) ++ p = concat [] ++ p).
    { rewrite Hn. reflexivity. }
    pose proof (Write_state ok ok_reliable x p [] p Hx Hok Hoff
                  (Forall_nil _) (proj2 Hp) Heq) as HW.
    set (x1 := after_blocks x [] p (len p)) in *.
    exists x1. eexists. split; [exact HW |].
    assert (HF : CrcWriter.Flush x1 = CrcWriter.flush x1).
    { unfold CrcWriter.Flush, x1, after_blocks.
      cbn [CrcWriter.n CrcWriter.NoZero]. rewrite HZ.
      replace (len p =? 0) with false by (symmetry; apply Z.eqb_neq; lia).
      reflexivity. }
    rewrite HF, (flush_reliable x1) by exact Hok.
    split; [reflexivity |]. repeat split; reflexivity.
  - intros Hp.
    assert (Heq : slice_to (CrcWriter.buf x) (CrcWriter.n x) ++ p
                  = concat [p] ++ []).
    { rewrite Hn. cbn [concat]. rewrite !app_nil_r. reflexivity. }
    pose proof (Write_state ok ok_reliable x p [p] [] Hx Hok Hoff
                  (Forall_cons _ Hp (Forall_nil _))
                  ltac:(cbn; unfold Block; lia) Heq) as HW.
    eexists. split; [exact HW |].
    cbn [after_blocks CrcWriter.w CrcWriter.buf CrcWriter.n fold_left carry].
    rewrite HZ. repeat split; reflexivity.
Qed.
End PayloadFacts.

(** ** What reaches the sink, and [Written()] *)

Lemma flush_accounted (d0 : Buffer) (x : CrcWriter.Writer Buffer) :
  len (CrcWriter.buf x) = Block -> 0 <= CrcWriter.n x <= Block ->
  accounted d0 x -> accounted d0 (snd (CrcWriter.flush x)).
Proof.
  intros Hb Hn (Hc & Hm & Ho). unfold CrcWriter.flush.
  cbn [sink_Write Buffer_Sink snd]. unfold accounted.
  cbn [CrcWriter.c CrcWriter.w CrcWriter.off CrcWriter.n].
  destruct (Hc _ Hb) as [He _].
  split; [exact Hc |]. rewrite len_app, He. split.
  - replace (len (CrcWriter.w x) + Block - len d0)
      with (len (CrcWriter.w x) - len d0 + 1 * Block) by lia.
    rewrite Z.mod_add by (unfold Block; lia). exact Hm.
  - rewrite Ho, (int64_small (Block - CrcWriter.n x))
      by (unfold Block in *; lia).
    rewrite int64_add_l. f_equal. lia.
Qed.

Lemma Flush_accounted (d0 : Buffer) (x : CrcWriter.Writer Buffer) :
  writer_idle x -> accounted d0 x -> accounted d0 (snd (CrcWriter.Flush x)).
Proof.
  intros [Hb Hn] H. unfold CrcWriter.Flush.
  destruct (CrcWriter.n x =? 0); [exact H |].
  apply flush_accounted;
    destruct (negb (CrcWriter.NoZero x) && _); cbn [CrcWriter.set_buf
      CrcWriter.buf CrcWriter.n]; try lia; try exact H; try exact Hb.
  rewrite len_app, len_copy, len_slice_to, len_slice_from; lia.
Qed.

Lemma write_accounted (d0 : Buffer) (x : CrcWriter.Writer Buffer)
      (p : list byte) :
  writer_idle x -> accounted d0 x -> accounted d0 (snd (CrcWriter.write x p)).
Proof.
  intros Hx H. pose proof Hx as [Hb Hn]. pose proof (len_nonneg p) as Hp.
  pose proof H as (Hc & Hm & Ho).
  destruct (Z.lt_ge_cases (CrcWriter.n x + len p) Block) as [Hlt | Hge].
  - rewrite (write_partial x p Hx Hlt). unfold accounted.
    cbn [snd CrcWriter.c CrcWriter.w CrcWriter.off CrcWriter.n].
    split; [exact Hc |]. split; [exact Hm |].
    rewrite Ho, (int64_small (len p)) by (unfold Block in *; lia).
    rewrite int64_add_l. f_equal. lia.
  - pose proof (write_full x p Hx Hge) as HW. cbv zeta in HW.
    cbn [sink_Write Buffer_Sink] in HW. destruct HW as [Hf ->].
    destruct (Hc _ Hf) as [He _].
    assert (E : forall B,
      accounted d0
        {| CrcWriter.w := CrcWriter.w x ++ Encrypt (CrcWriter.c x)
                            (slice_to (CrcWriter.buf x) (CrcWriter.n x)
                             ++ slice_to p (Block - CrcWriter.n x));
           CrcWriter.at_ := CrcWriter.at_ x; CrcWriter.c := CrcWriter.c x;
           CrcWriter.buf := B; CrcWriter.n := 0;
           CrcWriter.off := int64 (CrcWriter.off x + (Block - CrcWriter.n x));
           CrcWriter.crc :=
             CRC.UpdateCRC (CrcWriter.crc x)
               (slice_to (CrcWriter.buf x) (CrcWriter.n x)
                ++ slice_to p (Block - CrcWriter.n x));
           CrcWriter.NoZero := CrcWriter.NoZero x |}).
    { intros B. unfold accounted.
      cbn [CrcWriter.c CrcWriter.w CrcWriter.off CrcWriter.n].
      split; [exact Hc |]. rewrite len_app, He. split.
      - replace (len (CrcWriter.w x) + Block - len d0)
          with (len (CrcWriter.w x) - len d0 + 1 * Block) by lia.
        rewrite Z.mod_add by (unfold Block; lia). exact Hm.
      - rewrite Ho, int64_add_l. f_equal. lia. }
    destruct (CrcWriter.NoZero x); apply E.
Qed.

Lemma Write_loop_accounted (d0 : Buffer) (fuel : nat) :
  forall (x : CrcWriter.Writer Buffer) (p : list byte) (total : Z) res,
    writer_idle x -> accounted d0 x ->
    CrcWriter.Write_loop fuel x p total = Some res ->
    accounted d0 (snd res).
Proof.
  induction fuel as [| fuel IH]; intros x p total res Hx H HL; [discriminate |].
  cbn [CrcWriter.Write_loop] in HL.
  destruct (len p >? 0) eqn:Hp; [| inversion HL; exact H].
  pose proof (write_accounted d0 x p Hx H) as H1.
  destruct (write_progress x p Hx ltac:(lia)) as [Hidle _].
  destruct (CrcWriter.write x p) as [[k [e |]] x1]; cbn [fst snd] in *.
  - inversion HL. exact H1.
  - exact (IH _ _ _ _ Hidle H1 HL).
Qed.

Lemma WriteEmpty_accounted (d0 : Buffer) (x : CrcWriter.Writer Buffer) :
  writer_idle x -> accounted d0 x ->
  accounted d0 (snd (CrcWriter.WriteEmpty x)).
Proof.
  intros Hx H. pose proof (Flush_accounted d0 x Hx H) as HF.
  unfold CrcWriter.WriteEmpty.
  destruct (CrcWriter.Flush x) as [[e |] x1]; cbn [snd] in *; [exact HF |].
  destruct HF as (Hc & Hm & Ho). cbn [sink_Write Buffer_Sink]. unfold accounted.
  cbn [snd CrcWriter.c CrcWriter.w CrcWriter.off CrcWriter.n].
  split; [exact Hc |]. rewrite len_app. change (len empty) with Block. split.
  - replace (len (CrcWriter.w x1) + Block - len d0)
      with (len (CrcWriter.w x1) - len d0 + 1 * Block) by lia.
    rewrite Z.mod_add by (unfold Block; lia). exact Hm.
  - rewrite Ho, int64_add_l. f_equal. lia.
Qed.

Lemma do_crc_accounted (d0 : Buffer) (x : CrcWriter.Writer Buffer)
      (a : call) res :
  writer_idle x -> accounted d0 x ->
  do_crc x a = Some res -> accounted d0 (snd res).
Proof.
  intros Hx H. destruct a; cbn [do_crc];
    unfold CrcWriter.WriteI8, CrcWriter.WriteI16, CrcWriter.WriteI32,
      CrcWriter.WriteI64, CrcWriter.WriteU8, CrcWriter.WriteU16,
      CrcWriter.WriteU32, CrcWriter.WriteU64, CrcWriter.Write_err.
  all: try match goal with
    | |- context [CrcWriter.Write ?y ?p] =>
        destruct (CrcWriter.Write y p) as [r |] eqn:E; cbn [bind];
        intros HR; inversion HR; cbn [snd see_crc];
        exact (Write_loop_accounted d0 _ _ _ _ _ Hx H E)
    end.
  - intros HR. inversion HR. exact (Flush_accounted d0 x Hx H).
  - intros HR. inversion HR. exact (Flush_accounted d0 x Hx H).
  - pose proof (WriteEmpty_accounted d0 x Hx H) as HE.
    destruct (CrcWriter.WriteEmpty x) as [[k e] x1].
    intros HR. inversion HR. exact HE.
  - intros HR. inversion HR. exact H.
Qed.

Lemma run_crc_accounted (d0 : Buffer) (l : list call) :
  forall (x : CrcWriter.Writer Buffer) res,
    writer_idle x -> accounted d0 x ->
    run_crc x l = Some res -> accounted d0 (snd res) /\ writer_idle (snd res).
Proof.
  induction l as [| a l IH]; intros x res Hx H HR.
  - inversion HR. split; assumption.
  - cbn [run_crc] in HR.
    destruct (do_crc_total x a Hx) as (r1 & E1 & Hidle1).
    pose proof (do_crc_accounted d0 x a r1 Hx H E1) as H1.
    rewrite E1 in HR. cbn [bind] in HR.
    destruct (run_crc (snd r1) l) as [r2 |] eqn:E2; [| discriminate].
    inversion HR. cbn [snd]. exact (IH _ _ Hidle1 H1 E2).
Qed.

(** X5: Whatever calls are made on a fresh writer over a [bytes.Buffer], the
    bytes it has added to the buffer are a whole number of blocks, and
    [Written()] is their count plus the number of pending bytes (as an
    [int64]); the pending bytes are fewer than a block, and there are none
    right after [Flush], [Close] or [WriteEmpty]. *)
Theorem Written_counts_sink_and_pending
        (NewCipher : Z -> Cipher + error) (d0 : Buffer) (key : Z)
        (x : CrcWriter.Writer Buffer) (calls : list call) :
  CrcWriter.NewWriter NewCipher d0 key = inl x ->
  block_cipher (CrcWriter.c x) ->
  exists obs x',
    run_crc x calls = Some (obs, x') /\
    (len (CrcWriter.w x') - len d0) mod Block = 0 /\
    CrcWriter.Written x'
    = int64 (len (CrcWriter.w x') - len d0 + CrcWriter.n x') /\
    0 <= CrcWriter.n x' < Block /\
    CrcWriter.n (snd (CrcWriter.Flush x')) = 0 /\
    CrcWriter.n (snd (CrcWriter.WriteEmpty x')) = 0.
Proof.
  intros HN Hc. pose proof (fresh_writer_idle _ _ _ _ HN) as Hidle.
  destruct (run_crc_total calls x Hidle) as ([obs x'] & HR & _).
  exists obs, x'. split; [exact HR |].
  assert (Hacc : accounted d0 x).
  { apply NewWriter_inl in HN as (c0 & _ & ->). split; [exact Hc |].
    cbn [CrcWriter.w CrcWriter.off CrcWriter.n]. rewrite Z.sub_diag.
    split; reflexivity. }
  destruct (run_crc_accounted d0 calls x (obs, x') Hidle Hacc HR)
    as [(_ & Hm & Ho) Hx']. cbn [snd] in *.
  split; [exact Hm |]. split; [exact Ho |]. split; [apply Hx' |].
  assert (HF : CrcWriter.n (snd (CrcWriter.Flush x')) = 0).
  { unfold CrcWriter.Flush. destruct (CrcWriter.n x' =? 0) eqn:E;
      [apply Z.eqb_eq in E; exact E |].
    unfold CrcWriter.flush. destruct (sink_Write _ _) as [[k err] d].
    reflexivity. }
  split; [exact HF |]. unfold CrcWriter.WriteEmpty.
  destruct (CrcWriter.Flush x') as [[e |] x1]; cbn [snd] in *; [exact HF |].
  destruct (sink_Write _ _) as [[k err] d]. exact HF.
Qed.

(** ** Reading a stream of blocks to its end *)

Lemma Buffered_range {S : Type} {sourceS : Source S} (x : BlockReader.Reader S) :
  0 <= BlockReader.Buffered x <= Block.
Proof.
  unfold BlockReader.Buffered.
  destruct (BlockReader.i x <? 0) eqn:E1; [cbn; unfold Block; lia |].
  destruct (BlockReader.i x >=? Block) eqn:E2; cbn [orb]; unfold Block in *; lia.
Qed.

Lemma Buffered_set_i {S : Type} {sourceS : Source S}
      (x : BlockReader.Reader S) (j : Z) :
  0 <= j <= Block -> BlockReader.Buffered (BlockReader.set_i x j) = Block - j.
Proof.
  intros Hj. unfold BlockReader.Buffered. cbn [BlockReader.set_i BlockReader.i].
  destruct (j <? 0) eqn:E1; [lia |].
  destruct (j >=? Block) eqn:E2; cbn [orb]; lia.
Qed.

(** A step of [read] while plaintext is ahead, however much is asked
    for. *)
Lemma read_step (x : BlockReader.Reader BytesReader)
      (cs : list (list byte)) (p : list byte) :
  reader_ok x -> at_blocks x cs -> 0 < len p -> 0 < len (ahead x cs) ->
  exists k x' cs',
    BlockReader.read x p
    = (k, None, x', slice_to (ahead x cs) k ++ slice_from p k) /\
    1 <= k <= len p /\ k <= len (ahead x cs) /\
    reader_ok x' /\ at_blocks x' cs' /\
    ahead x' cs' = slice_from (ahead x cs) k /\
    lpos x' = lpos x + k /\
    BlockReader.Buffered x' < Block /\
    BlockReader.c x' = BlockReader.c x /\
    BlockReader.s x' = BlockReader.s x /\
    data (BlockReader.r x') = data (BlockReader.r x).
Proof.
  intros Hok Hat Hp Ha.
  assert (Hloaded : forall (y : BlockReader.Reader BytesReader) ds,
             reader_ok y -> at_blocks y ds ->
             0 <= BlockReader.i y < Block ->
             exists k y',
               BlockReader.read y p
               = (k, None, y', slice_to (ahead y ds) k ++ slice_from p k) /\
               1 <= k <= len p /\ k <= len (ahead y ds) /\
               reader_ok y' /\ at_blocks y' ds /\
               ahead y' ds = slice_from (ahead y ds) k /\
               lpos y' = lpos y + k /\
               BlockReader.Buffered y' < Block /\
               BlockReader.c y' = BlockReader.c y /\
               BlockReader.s y' = BlockReader.s y /\
               BlockReader.r y' = BlockReader.r y).
  { intros y ds [Hb Hdec] Hds Hi.
    set (k := Z.min (len p) (Block - BlockReader.i y)).
    assert (Hu : len (unread y) = Block - BlockReader.i y).
    { rewrite (len_unread y Hb). apply (Buffered_loaded y Hi). }
    exists k, (BlockReader.set_i y (BlockReader.i y + k)).
    split; [| split; [lia | split; [| split; [split; [exact Hb | exact Hdec] |
              split; [exact Hds | split; [| split; [| split;
              [| split_all; reflexivity]]]]]]]].
    - rewrite (read_loaded y p Hb Hi). fold k. unfold ahead.
      rewrite slice_to_app_le by lia. reflexivity.
    - unfold ahead. rewrite len_app, Hu.
      pose proof (len_nonneg (concat (map (decrypt_of y) ds))). lia.
    - unfold ahead. rewrite unread_set_i by (try assumption; lia).
      rewrite slice_from_app_le by lia. reflexivity.
    - unfold lpos. rewrite Buffered_set_i, (Buffered_loaded y Hi) by lia.
      cbn [BlockReader.set_i BlockReader.r]. lia.
    - rewrite Buffered_set_i by lia. lia. }
  destruct (Z.lt_ge_cases (BlockReader.i x) 0) as [Hneg | Hnn];
    [| destruct (Z.lt_ge_cases (BlockReader.i x) Block) as [Hin | Hout]].
  2:{ destruct (Hloaded x cs Hok Hat (conj Hnn Hin))
        as (k & y' & H1 & H2 & H2' & H3 & H4 & H5 & H5' & H5b & H6 & H7 & H8).
      exists k, y', cs. rewrite H8. split_all; assumption || lia || reflexivity. }
  all: assert (Hn : needs_block x) by (unfold needs_block; lia).
  all: unfold ahead in Ha; rewrite (unread_needs_block x Hn) in Ha;
    cbn [app] in Ha;
    destruct cs as [| b cs]; [cbn in Ha; lia |];
    destruct (readNext_block x b cs Hok Hat) as (HR & Hok' & Hat');
    match type of HR with _ = (None, ?y) => set (x1 := y) in * end;
    destruct (Hloaded x1 cs Hok' Hat' ltac:(cbn; unfold Block; lia))
      as (k & y' & H1 & H2 & H2' & H3 & H4 & H5 & H5' & H5b & H6 & H7 & H8);
    exists k, y', cs;
    assert (Hae : ahead x1 cs = ahead x (b :: cs))
      by (unfold ahead; rewrite (unread_needs_block x Hn),
            (unread_loaded x1) by (cbn; unfold Block; lia); reflexivity);
    rewrite Hae in H1, H2', H5;
    assert (Hl : lpos x1 = lpos x)
      by (unfold lpos; rewrite (Buffered_needs_block x Hn),
            (Buffered_loaded x1) by (cbn; unfold Block; lia);
          cbn [x1 BlockReader.r BlockReader.i pos]; lia);
    rewrite Hl in H5';
    assert (Hread : BlockReader.read x p = BlockReader.read x1 p)
      by (unfold BlockReader.read at 1; rewrite (needs_block_test x Hn), HR;
          unfold BlockReader.read;
          rewrite (loaded_test x1) by (cbn; unfold Block; lia); reflexivity);
    rewrite Hread, H8; split_all; assumption || lia || reflexivity.
Qed.
Lemma ahead_nil_inv (x : BlockReader.Reader BytesReader)
      (cs : list (list byte)) :
  reader_ok x -> at_blocks x cs -> len (ahead x cs) = 0 ->
  needs_block x /\ cs = [] /\
  slice_from (data (BlockReader.r x)) (pos (BlockReader.r x)) = [].
Proof.
  intros [Hb Hdec] [Hall (pre & Hdata & Hpos)] Ha.
  unfold ahead in Ha. rewrite len_app in Ha.
  pose proof (len_nonneg (unread x)) as Hu.
  pose proof (len_nonneg (concat (map (decrypt_of x) cs))) as Hc.
  assert (Hcs : cs = []).
  { destruct cs as [| b cs]; [reflexivity |].
    rewrite (len_concat_blocks _ (all_blocks_map _ _ Hdec Hall)) in Ha, Hc.
    unfold len, Block in *. cbn [map length] in *. lia. }
  assert (Hn : needs_block x).
  { rewrite (len_unread x Hb) in Ha, Hu. unfold BlockReader.Buffered in Ha.
    unfold needs_block.
    destruct (BlockReader.i x <? 0) eqn:E1; [lia |].
    destruct (BlockReader.i x >=? Block) eqn:E2; [lia |].
    cbn [orb] in Ha. lia. }
  split; [exact Hn |]. split; [exact Hcs |].
  subst cs. cbn [concat] in Hdata. rewrite app_nil_r in Hdata.
  rewrite Hdata, Hpos. apply slice_from_all. lia.
Qed.

(** The loop of [Read] over a stream of whole blocks: the bytes asked for
    are served in order while there are any, the source is at end of data
    otherwise. *)
Lemma Read_loop_stream (fuel : nat) :
  forall (x : BlockReader.Reader BytesReader) (cs : list (list byte))
         (done p : list byte) (total : Z),
    reader_ok x -> at_blocks x cs -> (length p < fuel)%nat ->
    (len p <= len (ahead x cs) ->
     exists x' cs',
       BlockReader.Read_loop fuel x done p total
       = Some (total + len p, None, x', done ++ slice_to (ahead x cs) (len p)) /\
       reader_ok x' /\ at_blocks x' cs' /\
       ahead x' cs' = slice_from (ahead x cs) (len p) /\
       lpos x' = lpos x + len p /\
       (BlockReader.Buffered x < Block \/ 0 < len p ->
        BlockReader.Buffered x' < Block) /\
       BlockReader.c x' = BlockReader.c x /\
       BlockReader.s x' = BlockReader.s x /\
       data (BlockReader.r x') = data (BlockReader.r x)) /\
    (len (ahead x cs) < len p ->
     exists x',
       BlockReader.Read_loop fuel x done p total
       = Some (total + len (ahead x cs), Some EOF, x',
               done ++ ahead x cs ++ slice_from p (len (ahead x cs))) /\
       needs_block x' /\ reader_ok x' /\ at_blocks x' [] /\
       lpos x' = lpos x + len (ahead x cs) /\
       BlockReader.c x' = BlockReader.c x /\
       BlockReader.s x' = BlockReader.s x /\
       data (BlockReader.r x') = data (BlockReader.r x)).
Proof.
  induction fuel as [| fuel IH]; intros x cs done p total Hok Hat Hfuel; [lia |].
  cbn [BlockReader.Read_loop]. pose proof (len_nonneg p) as Hp0.
  pose proof (len_nonneg (ahead x cs)) as Ha0.
  destruct (len p >? 0) eqn:Hpos.
  2:{ assert (E : len p = 0) by lia. split; [intros _ | lia].
      rewrite (len_nil_inv p E). change (len (@nil byte)) with 0.
      exists x, cs. rewrite !Z.add_0_r.
      split_all; try assumption; try reflexivity. intros [H | H]; [exact H | lia]. }
  destruct (Z.eq_dec (len (ahead x cs)) 0) as [Hz | Hnz].
  - split; [lia |]. intros _.
    destruct (ahead_nil_inv x cs Hok Hat Hz) as (Hn & Hcs & Hrest).
    assert (HR : src_ReadFull (BlockReader.r x) (len (BlockReader.buf x))
                 = ([], Some EOF, BlockReader.r x)).
    { cbn [src_ReadFull BytesReader_Source]. unfold BytesReader_ReadFull.
      rewrite Hrest, (proj1 Hok). reflexivity. }
    rewrite (read_fails x p [] EOF _ Hn HR).
    apply len_nil_inv in Hz. rewrite Hz. change (len (@nil byte)) with 0.
    eexists. rewrite !Z.add_0_r. split; [reflexivity |].
    split; [exact Hn |]. split; [| split; [| split; [| split_all; reflexivity]]].
    + split; [cbn [BlockReader.buf]; rewrite len_copy; apply Hok | apply Hok].
    + subst cs. exact Hat.
    + unfold lpos. rewrite !Buffered_needs_block by exact Hn. reflexivity.
  - destruct (read_step x cs p Hok Hat ltac:(lia) ltac:(lia))
      as (k & x1 & cs1 & HR & Hk & Hka & Hok1 & Hat1 & Ha1 & Hl1 & Hb1 & Hc1 & Hs1 & Hd1).
    rewrite HR.
    assert (Hlk : len (slice_to (ahead x cs) k) = k)
      by (apply len_slice_to; lia).
    replace (slice_to (slice_to (ahead x cs) k ++ slice_from p k) k)
      with (slice_to (ahead x cs) k)
      by (symmetry; apply slice_to_app_len; exact Hlk).
    replace (slice_from (slice_to (ahead x cs) k ++ slice_from p k) k)
      with (slice_from p k)
      by (symmetry; apply slice_from_app_len; exact Hlk).
    assert (Hlp : len (slice_from p k) = len p - k)
      by (apply len_slice_from; lia).
    assert (Hla : len (ahead x1 cs1) = len (ahead x cs) - k)
      by (rewrite Ha1; apply len_slice_from; lia).
    destruct (IH x1 cs1 (done ++ slice_to (ahead x cs) k) (slice_from p k)
                 (total + k) Hok1 Hat1) as [IH1 IH2].
    { unfold len in *. unfold slice_from. rewrite length_skipn.
      unfold slice_from in Hlp. rewrite length_skipn in Hlp. lia. }
    split.
    + intros Hle. destruct IH1 as (x2 & cs2 & HL & Hok2 & Hat2 & Ha2 & Hl2 & Hb2 & Hc2 & Hs2 & Hd2);
        [lia |].
      exists x2, cs2. rewrite HL, Hlp, Ha1 in *.
      split_all; try assumption; try congruence; try lia;
        try (intros _; apply Hb2; left; exact Hb1).
      * replace (total + k + (len p - k)) with (total + len p) by lia.
        rewrite <- app_assoc, <- slice_to_add by lia.
        replace (k + (len p - k)) with (len p) by lia. reflexivity.
      * rewrite Ha2, <- slice_from_add by lia.
        replace (k + (len p - k)) with (len p) by lia. reflexivity.
    + intros Hgt.
      destruct IH2 as (x2 & HL & Hn2 & Hok2 & Hat2 & Hl2 & Hc2 & Hs2 & Hd2); [lia |].
      exists x2. rewrite HL, Hla.
      split_all; try assumption; try lia; try congruence.
      replace (total + k + (len (ahead x cs) - k))
        with (total + len (ahead x cs)) by lia.
      rewrite Ha1, <- slice_from_add by lia.
      replace (k + (len (ahead x cs) - k)) with (len (ahead x cs)) by lia.
      rewrite <- !app_assoc, (app_assoc (slice_to _ _)), slice_to_from.
      reflexivity.
Qed.

(** [Read] over a stream of whole blocks, for any number of bytes. *)
Lemma Read_stream (x : BlockReader.Reader BytesReader)
      (cs : list (list byte)) (p : list byte) :
  reader_ok x -> at_blocks x cs ->
  (len p <= len (ahead x cs) ->
   exists x' cs',
     BlockReader.Read x p
     = Some (len p, None, x', slice_to (ahead x cs) (len p)) /\
     reader_ok x' /\ at_blocks x' cs' /\
     ahead x' cs' = slice_from (ahead x cs) (len p) /\
     lpos x' = lpos x + len p /\
     (BlockReader.Buffered x < Block \/ 0 < len p ->
      BlockReader.Buffered x' < Block) /\
     BlockReader.c x' = BlockReader.c x /\
     BlockReader.s x' = BlockReader.s x /\
     data (BlockReader.r x') = data (BlockReader.r x)) /\
  (len (ahead x cs) < len p ->
   exists x',
     BlockReader.Read x p
     = Some (len (ahead x cs), Some EOF, x',
             ahead x cs ++ slice_from p (len (ahead x cs))) /\
     needs_block x' /\ reader_ok x' /\ at_blocks x' [] /\
     lpos x' = lpos x + len (ahead x cs) /\
     BlockReader.c x' = BlockReader.c x /\
     BlockReader.s x' = BlockReader.s x /\
     data (BlockReader.r x') = data (BlockReader.r x)).
Proof.
  intros Hok Hat.
  exact (Read_loop_stream (length p + 1) x cs [] p 0 Hok Hat ltac:(lia)).
Qed.

(** X6: Two reads deliver, one after the other, the bytes that one read of the
    joint length delivers, and leave the reader at the same offset. *)
Theorem Read_in_pieces (x : BlockReader.Reader BytesReader)
        (cs : list (list byte)) (p1 p2 : list byte) :
  reader_ok x -> at_blocks x cs ->
  len p1 + len p2 <= len (ahead x cs) ->
  exists x1 x2 x12 b1 b2,
    BlockReader.Read x p1 = Some (len p1, None, x1, b1) /\
    BlockReader.Read x1 p2 = Some (len p2, None, x2, b2) /\
    BlockReader.Read x (p1 ++ p2)
    = Some (len p1 + len p2, None, x12, b1 ++ b2) /\
    lpos x2 = lpos x12.
Proof.
  intros Hok Hat Hle.
  pose proof (len_nonneg p1) as H1. pose proof (len_nonneg p2) as H2.
  destruct (proj1 (Read_stream x cs p1 Hok Hat) ltac:(lia))
    as (x1 & cs1 & HR1 & Hok1 & Hat1 & Ha1 & Hl1 & _).
  destruct (proj1 (Read_stream x1 cs1 p2 Hok1 Hat1))
    as (x2 & cs2 & HR2 & _ & _ & _ & Hl2 & _).
  { rewrite Ha1, len_slice_from; lia. }
  destruct (proj1 (Read_stream x cs (p1 ++ p2) Hok Hat))
    as (x12 & cs12 & HR12 & _ & _ & _ & Hl12 & _).
  { rewrite len_app. lia. }
  exists x1, x2, x12, (slice_to (ahead x cs) (len p1)),
    (slice_to (ahead x1 cs1) (len p2)).
  split; [exact HR1 |]. split; [exact HR2 |]. split.
  - rewrite HR12, len_app, Ha1, <- slice_to_add by lia. reflexivity.
  - rewrite Hl2, Hl1, Hl12, len_app. lia.
Qed.

(** X7: A [Read] that asks for more than the stream still holds delivers what
    is left, reports its count and returns [io.EOF]; so does, with a count of
    0, every later [Read]. *)
Theorem Read_past_end (x : BlockReader.Reader BytesReader)
        (cs : list (list byte)) (p : list byte) :
  reader_ok x -> at_blocks x cs -> len (ahead x cs) < len p ->
  exists x',
    BlockReader.Read x p
    = Some (len (ahead x cs), Some EOF, x',
            ahead x cs ++ slice_from p (len (ahead x cs))) /\
    forall q, 0 < len q ->
      exists x'', BlockReader.Read x' q = Some (0, Some EOF, x'', q).
Proof.
  intros Hok Hat Hlt.
  destruct (proj2 (Read_stream x cs p Hok Hat) Hlt)
    as (x' & HR & Hn & Hok' & Hat' & _).
  exists x'. split; [exact HR |]. intros q Hq.
  assert (Ha : ahead x' [] = []).
  { unfold ahead. rewrite (unread_needs_block x' Hn). reflexivity. }
  destruct (proj2 (Read_stream x' [] q Hok' Hat'))
    as (x'' & HR' & _).
  { rewrite Ha. exact Hq. }
  exists x''. rewrite HR', Ha. reflexivity.
Qed.

(** ** Seeking *)

(** A seek relative to the current position is the seek to the absolute
    offset of the next unread byte plus the distance, the source standing
    ahead of that byte by the number of buffered bytes. *)
Lemma Seek_current_is_absolute (x : BlockReader.Reader BytesReader) (d : Z) :
  BlockReader.s x = Some BytesReader_Seek ->
  0 <= pos (BlockReader.r x) < 2 ^ 62 -> - 2 ^ 62 <= d < 2 ^ 62 ->
  BlockReader.Seek x d SeekCurrent
  = BlockReader.Seek x (lpos x + d) SeekStart.
Proof.
  intros Hs Hpos Hd. pose proof (Buffered_range x) as HB.
  unfold BlockReader.Seek. rewrite Hs.
  replace (SeekCurrent =? SeekCurrent) with true by reflexivity.
  replace (SeekStart =? SeekCurrent) with false by reflexivity.
  rewrite (int64_small (BlockReader.Buffered x)) by (unfold Block in *; lia).
  rewrite (int64_small (d - BlockReader.Buffered x)) by (unfold Block in *; lia).
  assert (E : BytesReader_Seek (BlockReader.r x)
                (d - BlockReader.Buffered x) SeekCurrent
              = BytesReader_Seek (BlockReader.r x) (lpos x + d) SeekStart).
  { unfold BytesReader_Seek.
    replace (SeekCurrent =? SeekStart) with false by reflexivity.
    replace (SeekCurrent =? SeekCurrent) with true by reflexivity.
    replace (SeekStart =? SeekStart) with true by reflexivity.
    rewrite int64_small by (unfold Block in *; lia).
    unfold lpos.
    replace (pos (BlockReader.r x) + (d - BlockReader.Buffered x))
      with (pos (BlockReader.r x) - BlockReader.Buffered x + d) by lia.
    reflexivity. }
  rewrite E. reflexivity.
Qed.

Lemma at_blocks_pos (x : BlockReader.Reader BytesReader)
      (cs cs0 : list (list byte)) :
  at_blocks x cs -> all_blocks cs0 -> data (BlockReader.r x) = concat cs0 ->
  pos (BlockReader.r x) mod Block = 0.
Proof.
  intros [Hall (pre & Hdata & Hpos)] Hall0 Hd0.
  pose proof (f_equal len Hdata) as HL.
  rewrite Hd0, len_app, (len_concat_blocks _ Hall), (len_concat_blocks _ Hall0)
    in HL.
  rewrite Hpos. replace (len pre) with ((len cs0 - len cs) * Block) by lia.
  apply Z.mod_mul. unfold Block. lia.
Qed.

(** X8: After [Read] has delivered bytes from the start of the data, [Seek(0,
    io.SeekCurrent)] reports how many; and the source has been read up to the
    end of the block that holds the last of them, no further. *)
Theorem Seek_current_reports_position
        (x : BlockReader.Reader BytesReader) (cs : list (list byte))
        (p : list byte) :
  reader_ok x -> BlockReader.s x = Some BytesReader_Seek ->
  all_blocks cs -> data (BlockReader.r x) = concat cs ->
  pos (BlockReader.r x) = 0 -> needs_block x ->
  len (concat cs) < 2 ^ 61 -> len p <= len (concat cs) ->
  exists x1 b x2,
    BlockReader.Read x p = Some (len p, None, x1, b) /\
    BlockReader.Seek x1 0 SeekCurrent = (len p, None, x2) /\
    (0 < len p ->
     pos (BlockReader.r x1) mod Block = 0 /\
     len p <= pos (BlockReader.r x1) < len p + Block).
Proof.
  intros Hok Hs Hall Hdata Hpos Hn Hmax Hp.
  pose proof (len_nonneg p) as Hp0.
  assert (Hat : at_blocks x cs).
  { split; [exact Hall |]. exists []. split; [exact Hdata | exact Hpos]. }
  assert (Ha : len (ahead x cs) = len (concat cs)).
  { unfold ahead. rewrite (unread_needs_block x Hn). cbn [app].
    rewrite (len_concat_blocks _ (all_blocks_map _ _ (proj2 Hok) Hall)).
    rewrite (len_concat_blocks _ Hall). unfold len. rewrite length_map.
    reflexivity. }
  destruct (proj1 (Read_stream x cs p Hok Hat) ltac:(lia))
    as (x1 & cs1 & HR & Hok1 & Hat1 & _ & Hl1 & Hb1 & _ & Hs1 & Hd1).
  assert (Hl0 : lpos x = 0).
  { unfold lpos. rewrite (Buffered_needs_block x Hn), Hpos. reflexivity. }
  rewrite Hl0, Z.add_0_l in Hl1.
  pose proof (Buffered_range x1) as HB1.
  assert (Hpos1 : pos (BlockReader.r x1) = len p + BlockReader.Buffered x1)
    by (unfold lpos in Hl1; lia).
  rewrite Hs in Hs1. rewrite Hdata in Hd1.
  exists x1, (slice_to (ahead x cs) (len p)).
  assert (HS : exists x2, BlockReader.Seek x1 0 SeekCurrent = (len p, None, x2)).
  { rewrite (Seek_current_is_absolute x1 0 Hs1)
      by (unfold Block in *; lia).
    rewrite Hl1, Z.add_0_r.
    destruct (Z.eq_dec (len p) (len (concat cs))) as [E | E].
    - unfold BlockReader.Seek. rewrite Hs1.
      replace (SeekStart =? SeekCurrent) with false by reflexivity.
      unfold BytesReader_Seek. rewrite Z.eqb_refl.
      replace (len p <? 0) with false by (symmetry; apply Z.ltb_ge; lia).
      replace (Z.rem (len p) Block =? 0) with true; [eexists; reflexivity |].
      symmetry. apply Z.eqb_eq. rewrite Z.rem_mod_nonneg by (unfold Block; lia).
      rewrite E, (len_concat_blocks _ Hall), Z.mul_comm.
      apply Z.mod_mul. unfold Block. lia.
    - destruct (Seek_start_ahead x1 cs (len p) Hok1 Hs1 Hall Hd1)
        as (x2 & _ & HS & _); [lia | lia |].
      exists x2. exact HS. }
  destruct HS as (x2 & HS). exists x2.
  split; [exact HR |]. split; [exact HS |]. intros Hpp.
  split; [exact (at_blocks_pos x1 cs1 cs Hat1 Hall Hd1) |].
  specialize (Hb1 (or_intror Hpp)). lia.
Qed.

(** [Read] into a block-sized slice when a whole block is loaded: the
    block is delivered and the source is left alone. *)
Lemma Read_whole_block {S : Type} {sourceS : Source S}
      (x : BlockReader.Reader S) :
  len (BlockReader.buf x) = Block -> BlockReader.i x = 0 ->
  BlockReader.Read x empty
  = Some (8, None, BlockReader.set_i x 8, BlockReader.buf x).
Proof.
  intros Hb Hi.
  assert (Hi' : 0 <= BlockReader.i x < Block) by (rewrite Hi; unfold Block; lia).
  rewrite (Read_unfold x empty) by reflexivity.
  rewrite (read_loaded x empty Hb Hi'). cbv zeta.
  rewrite (unread_loaded x Hi'), Hi.
  change (Z.min (len empty) (Block - 0)) with 8.
  change (slice_from (BlockReader.buf x) 0) with (BlockReader.buf x).
  change (slice_from empty 8) with (@nil byte).
  rewrite (slice_to_all (BlockReader.buf x)) by (rewrite Hb; reflexivity).
  rewrite app_nil_r.
  rewrite (slice_to_all (BlockReader.buf x)) by (rewrite Hb; reflexivity).
  rewrite (slice_from_all (BlockReader.buf x)) by (rewrite Hb; reflexivity).
  change (length empty) with 8%nat. cbn [BlockReader.Read_loop].
  change (len (@nil byte) >? 0) with false. cbv iota.
  rewrite app_nil_r. reflexivity.
Qed.

(** [read] without a loaded block, when the next block arrives, goes on
    as [read] does with that block loaded. *)
Lemma Read_after_fetch {S : Type} {sourceS : Source S}
      (x x1 : BlockReader.Reader S) (p : list byte) :
  needs_block x -> BlockReader.readNext x = (None, x1) ->
  0 <= BlockReader.i x1 < Block -> 0 < len p ->
  BlockReader.Read x p = BlockReader.Read x1 p.
Proof.
  intros Hn HN Hi Hp.
  rewrite (Read_unfold x p Hp), (Read_unfold x1 p Hp).
  unfold BlockReader.read.
  rewrite (needs_block_test x Hn), HN, (loaded_test x1 Hi). reflexivity.
Qed.

(** X9: [ReadAligned] never serves the rest of a block that was partly served:
    it delivers one whole block, the loaded one if no byte of it was served
    yet, the next one from the source otherwise, and leaves no byte buffered.
    The caller's slice receives as much of the block as it can hold. *)
Theorem ReadAligned_delivers_block
        (x : BlockReader.Reader BytesReader) (b : list byte)
        (cs : list (list byte)) (p : list byte) :
  reader_ok x -> at_blocks x (b :: cs) ->
  let blk := if BlockReader.i x =? 0 then BlockReader.buf x
             else decrypt_of x b in
  exists x',
    BlockReader.ReadAligned x p
    = Some (Z.min (len p) Block, None, x', fst (copy p blk)) /\
    BlockReader.Buffered x' = 0 /\
    at_blocks x' (if BlockReader.i x =? 0 then b :: cs else cs).
Proof.
  intros Hok Hat blk. pose proof Hok as [Hb Hdec].
  pose proof Hat as [Hall _]. pose proof (Forall_inv Hall) as Hlb.
  cbn beta in Hlb.
  assert (Hfin : forall (y' : BlockReader.Reader BytesReader) bb,
             len bb = Block ->
             (let '(p1, k1) := copy p bb in Some (k1, @None error, y', p1))
             = Some (Z.min (len p) Block, None, y', fst (copy p bb))).
  { intros y' bb Hbb. unfold copy. rewrite Hbb. reflexivity. }
  destruct (readNext_block x b cs Hok Hat) as (HN & Hok1 & Hat1).
  match type of HN with _ = (None, ?y) => set (x1 := y) in * end.
  assert (HR1 : BlockReader.Read x1 empty
                = Some (8, None, BlockReader.set_i x1 8, decrypt_of x b)).
  { apply (Read_whole_block x1); [exact (proj1 Hok1) | reflexivity]. }
  assert (Hi1 : 0 <= BlockReader.i x1 < Block) by (cbn; unfold Block; lia).
  unfold BlockReader.ReadAligned. subst blk.
  destruct (Z.eq_dec (BlockReader.i x) 0) as [Hi0 | Hi0].
  - rewrite Hi0. cbn [Z.eqb].
    assert (HA : BlockReader.Align x = (None, x)).
    { unfold BlockReader.Align, BlockReader.Buffered. rewrite Hi0. reflexivity. }
    rewrite HA, (Read_whole_block x Hb Hi0). cbn [bind]. cbv iota beta.
    replace (8 =? 8) with true by reflexivity. cbn [negb].
    rewrite (Hfin _ _ Hb). eexists. split; [reflexivity |].
    split; [reflexivity | exact Hat].
  - replace (BlockReader.i x =? 0) with false
      by (symmetry; apply Z.eqb_neq; exact Hi0).
    assert (Hres : exists y, BlockReader.Align x = (None, y) /\
                             BlockReader.Read y empty
                             = Some (8, None, BlockReader.set_i x1 8,
                                     decrypt_of x b)).
    { destruct (Z.lt_ge_cases (BlockReader.i x) 0) as [Hneg | Hnn];
        [| destruct (Z.lt_ge_cases (BlockReader.i x) Block) as [Hin | Hout]].
      2:{ exists x1. split; [| exact HR1].
          assert (Hrem : (Z.rem (Block - BlockReader.i x) Block =? 0) = false).
          { apply Z.eqb_neq. unfold Block in *.
            rewrite Z.rem_mod_nonneg, Z.mod_small by lia. lia. }
          unfold BlockReader.Align.
          rewrite (Buffered_loaded x (conj Hnn Hin)), Hrem.
          cbn [negb]. rewrite HN. reflexivity. }
      all: assert (Hn : needs_block x) by (unfold needs_block; lia).
      all: exists x; split;
        [ unfold BlockReader.Align; rewrite (Buffered_needs_block x Hn);
          reflexivity |].
      all: rewrite (Read_after_fetch x x1 empty Hn HN Hi1) by reflexivity.
      all: exact HR1. }
    destruct Hres as (y & HA & Hres).
    rewrite HA, Hres. cbn [bind]. cbv iota beta.
    replace (8 =? 8) with true by reflexivity. cbn [negb].
    rewrite (Hfin _ _ (Hdec b Hlb)). eexists. split; [reflexivity |].
    split; [reflexivity | exact Hat1].
Qed.

(** X10: A reader that is [Reset] onto a source serves that source from its
    position on: the block it had loaded is dropped. *)
Theorem Reader_Reset_drops_block
        (x : BlockReader.Reader BytesReader) (d : BytesReader)
        (cs : list (list byte)) (p : list byte) :
  reader_ok x -> all_blocks cs ->
  slice_from (data d) (pos d) = concat cs -> 0 <= pos d <= len (data d) ->
  len p <= len (concat cs) ->
  exists x',
    BlockReader.Read (BlockReader.Reset x d) p
    = Some (len p, None, x',
            slice_to (concat (map (decrypt_of x) cs)) (len p)).
Proof.
  intros Hok Hall Hrest Hpos Hp.
  set (y := BlockReader.Reset x d).
  assert (Hoky : reader_ok y) by exact Hok.
  assert (Hat : at_blocks y cs).
  { split; [exact Hall |]. exists (slice_to (data d) (pos d)).
    cbn [y BlockReader.Reset BlockReader.r].
    split; [rewrite <- Hrest; symmetry; apply slice_to_from |].
    symmetry. apply len_slice_to. exact Hpos. }
  assert (Ha : ahead y cs = concat (map (decrypt_of x) cs)).
  { unfold ahead. rewrite unread_needs_block by (left; cbn; lia). reflexivity. }
  destruct (proj1 (Read_stream y cs p Hoky Hat)) as (x' & _ & HR & _).
  { rewrite Ha, (len_concat_blocks _ (all_blocks_map _ _ (proj2 Hok) Hall)).
    rewrite (len_concat_blocks _ Hall) in Hp. unfold len in *.
    rewrite length_map. exact Hp. }
  exists x'. rewrite HR, Ha. reflexivity.
Qed.

(** X11: A [Seek] that the source refuses still invalidates the loaded block:
    the source has not moved, the unread bytes of the block are never served,
    and the next [Read] goes on with the block that follows. *)
Theorem Seek_failure_drops_unread
        (x : BlockReader.Reader BytesReader) (cs : list (list byte)) (o : Z) :
  reader_ok x -> BlockReader.s x = Some BytesReader_Seek ->
  at_blocks x cs -> o < 0 ->
  exists x',
    BlockReader.Seek x o SeekStart
    = (0, Some (ErrNew "bytes.Reader.Seek: negative position"%string), x') /\
    BlockReader.r x' = BlockReader.r x /\
    BlockReader.Buffered x' = 0 /\
    forall p, len p <= len (concat (map (decrypt_of x) cs)) ->
      exists x'',
        BlockReader.Read x' p
        = Some (len p, None, x'',
                slice_to (concat (map (decrypt_of x) cs)) (len p)).
Proof.
  intros Hok Hs Hat Ho.
  unfold BlockReader.Seek. rewrite Hs.
  replace (SeekStart =? SeekCurrent) with false by reflexivity.
  unfold BytesReader_Seek. rewrite Z.eqb_refl.
  replace (o <? 0) with true by (symmetry; apply Z.ltb_lt; exact Ho).
  set (y := BlockReader.set_i _ (-1)).
  exists y. split; [reflexivity |]. split; [reflexivity |].
  split; [reflexivity |]. intros p Hp.
  assert (Hoky : reader_ok y) by exact Hok.
  assert (Haty : at_blocks y cs) by exact Hat.
  assert (Ha : ahead y cs = concat (map (decrypt_of x) cs)).
  { unfold ahead. rewrite unread_needs_block by (left; cbn; lia). reflexivity. }
  destruct (proj1 (Read_stream y cs p Hoky Haty)) as (x'' & _ & HR & _).
  { rewrite Ha. exact Hp. }
  exists x''. rewrite HR, Ha. reflexivity.
Qed.

(** ** Little-endian integers *)

Lemma Z_of_byte_range (b : byte) : 0 <= Z_of_byte b < 256.
Proof.
  unfold Z_of_byte. pose proof (Byte.to_N_bounded b) as H. lia.
Qed.

Lemma Z_of_byte_of_Z (z : Z) : Z_of_byte (byte_of_Z z) = z mod 256.
Proof.
  unfold Z_of_byte, byte_of_Z.
  pose proof (Z.mod_pos_bound z 256 ltac:(lia)) as Hm.
  destruct (Byte.of_N (Z.to_N (z mod 256))) as [b |] eqn:E.
  - apply Byte.to_of_N in E. rewrite E. lia.
  - apply Byte.of_N_None_iff in E. lia.
Qed.

Lemma Uint_nonneg (b : list byte) : 0 <= Uint b.
Proof.
  induction b as [| v b IH]; cbn [Uint fold_right]; [lia |].
  apply Z.lor_nonneg. split; [apply Z_of_byte_range |].
  apply Z.shiftl_nonneg. exact IH.
Qed.

Lemma Uint_cons (v : byte) (b : list byte) :
  Uint (v :: b) = Z_of_byte v + 256 * Uint b.
Proof.
  change (Uint (v :: b)) with (Z.lor (Z_of_byte v) (Z.shiftl (Uint b) 8)).
  pose proof (Z_of_byte_range v) as Hv. pose proof (Uint_nonneg b) as Hb.
  rewrite <- Z.lxor_lor, <- Z.add_nocarry_lxor.
  - rewrite Z.shiftl_mul_pow2 by lia. lia.
  - apply Z.bits_inj'. intros n Hn.
    rewrite Z.land_spec, Z.bits_0.
    destruct (Z.lt_ge_cases n 8) as [Hlt | Hge].
    + rewrite (Z.shiftl_spec_low _ _ _ Hlt). apply andb_false_r.
    + rewrite (Z.bits_above_log2 (Z_of_byte v) n); [reflexivity | lia |].
      destruct (Z.eq_dec (Z_of_byte v) 0) as [-> | Hne]; [cbn; lia |].
      apply Z.log2_lt_pow2; [lia |].
      apply Z.lt_le_trans with (2 ^ 8); [lia |].
      apply Z.pow_le_mono_r; lia.
  - apply Z.bits_inj'. intros n Hn.
    rewrite Z.land_spec, Z.bits_0.
    destruct (Z.lt_ge_cases n 8) as [Hlt | Hge].
    + rewrite (Z.shiftl_spec_low _ _ _ Hlt). apply andb_false_r.
    + rewrite (Z.bits_above_log2 (Z_of_byte v) n); [reflexivity | lia |].
      destruct (Z.eq_dec (Z_of_byte v) 0) as [-> | Hne]; [cbn; lia |].
      apply Z.log2_lt_pow2; [lia |].
      apply Z.lt_le_trans with (2 ^ 8); [lia |].
      apply Z.pow_le_mono_r; lia.
Qed.

Lemma PutUint_S (k : nat) (v : Z) :
  PutUint (S k) v = byte_of_Z v :: PutUint k (Z.shiftr v 8).
Proof.
  unfold PutUint. cbn [seq map]. f_equal.
  rewrite <- seq_shift, map_map. apply map_ext. intros j.
  rewrite Z.shiftr_shiftr by lia. do 2 f_equal. lia.
Qed.

Lemma len_PutUint (k : nat) (v : Z) : len (PutUint k v) = Z.of_nat k.
Proof. unfold PutUint, len. rewrite length_map, length_seq. reflexivity. Qed.

(** Reading back the bytes that [PutUintN] stored gives the value, as an
    unsigned integer of that width. *)
Lemma Uint_PutUint (k : nat) :
  forall v, Uint (PutUint k v) = v mod 2 ^ (8 * Z.of_nat k).
Proof.
  induction k as [| k IH]; intros v.
  - cbn. symmetry. apply Z.mod_1_r.
  - rewrite PutUint_S, Uint_cons, Z_of_byte_of_Z, IH.
    rewrite Z.shiftr_div_pow2 by lia.
    replace (8 * Z.of_nat (S k)) with (8 + 8 * Z.of_nat k) by lia.
    rewrite Z.pow_add_r by lia.
    change (2 ^ 8) with 256.
    rewrite (Z.rem_mul_r v 256 (2 ^ (8 * Z.of_nat k))) by lia.
    reflexivity.
Qed.

Lemma to_signed_to_unsigned (k : nat) (v : Z) :
  (0 < k)%nat ->
  - 2 ^ (8 * Z.of_nat k - 1) <= v < 2 ^ (8 * Z.of_nat k - 1) ->
  to_signed k (to_unsigned k v) = v.
Proof.
  intros Hk Hv. unfold to_signed, to_unsigned.
  set (h := 2 ^ (8 * Z.of_nat k - 1)) in *.
  assert (Hh : 0 < h) by (apply Z.pow_pos_nonneg; lia).
  assert (E : 2 ^ (8 * Z.of_nat k) = 2 * h).
  { unfold h. rewrite <- Z.pow_succ_r by lia. f_equal. lia. }
  rewrite E. destruct (Z.lt_ge_cases v 0) as [Hneg | Hpos].
  - replace (v mod (2 * h)) with (v + 2 * h).
    + replace (v + 2 * h <? h) with false by (symmetry; apply Z.ltb_ge; lia). lia.
    + symmetry. replace v with (v + 2 * h + (-1) * (2 * h)) at 1 by lia.
      rewrite Z.mod_add by lia. apply Z.mod_small. lia.
  - rewrite Z.mod_small by lia.
    replace (v <? h) with true by (symmetry; apply Z.ltb_lt; lia). reflexivity.
Qed.

(** ** Typed values, written and read back *)

Lemma Buffer_reliable : reliable (fun _ : Buffer => True).
Proof. intros d p _. split; [reflexivity | exact I]. Qed.

Lemma Buffer_pushes (c0 : Cipher) (bs : list (list byte)) :
  forall d : Buffer,
    fold_left (push c0) bs d = d ++ concat (map (Encrypt c0) bs).
Proof.
  induction bs as [| b bs IH]; intros d; cbn [fold_left map concat].
  - symmetry. apply app_nil_r.
  - rewrite IH. unfold push. cbn [sink_Write Buffer_Sink snd].
    rewrite <- app_assoc. reflexivity.
Qed.

Section TypedWriteFacts.
Context {S : Type} {sinkS : Sink S}.
Variable ok : S -> Prop.
Hypothesis ok_reliable : reliable ok.

Lemma Write_ok (x : CrcWriter.Writer S) (p : list byte) :
  writer_idle x -> ok (CrcWriter.w x) ->
  int64 (CrcWriter.off x) = CrcWriter.off x ->
  exists x1,
    CrcWriter.Write x p = Some (len p, None, x1) /\
    writer_idle x1 /\ ok (CrcWriter.w x1) /\
    int64 (CrcWriter.off x1) = CrcWriter.off x1.
Proof.
  intros Hx Hok Hoff.
  destruct (blocks_and_tail _ (slice_to (CrcWriter.buf x) (CrcWriter.n x) ++ p)
              (Nat.le_refl _)) as (bs & t & H1 & Hall & Ht).
  exists (after_blocks x bs t (len p)).
  split; [exact (Write_state ok ok_reliable x p bs t Hx Hok Hoff Hall Ht H1) |].
  split; [apply (after_blocks_idle x bs t (len p) Hx Hall Ht) |].
  split; [apply (ok_pushes ok ok_reliable); exact Hok | apply int64_idem].
Qed.

Lemma write_item_Write (x : CrcWriter.Writer S) (it : item) :
  write_item x it = CrcWriter.Write_err x (item_bytes it).
Proof. destruct it as [[] v | [] v]; reflexivity. Qed.

(** The typed writes, in order, are one [Write] of their bytes. *)
Lemma write_items_Write (l : list item) :
  forall x : CrcWriter.Writer S,
    writer_idle x -> ok (CrcWriter.w x) ->
    int64 (CrcWriter.off x) = CrcWriter.off x ->
    exists x1,
      write_items x l = Some (None, x1) /\
      CrcWriter.Write x (concat (map item_bytes l))
      = Some (len (concat (map item_bytes l)), None, x1).
Proof.
  induction l as [| it l IH]; intros x Hx Hok Hoff.
  - exists x. split; reflexivity.
  - cbn [write_items map concat]. rewrite write_item_Write.
    destruct (Write_app ok ok_reliable x (item_bytes it)
                (concat (map item_bytes l)) Hx Hok Hoff)
      as (x1 & x2 & HW1 & HW2 & HW12).
    destruct (Write_ok x (item_bytes it) Hx Hok Hoff)
      as (x1' & HW1' & Hx1 & Hok1 & Hoff1).
    rewrite HW1 in HW1'. inversion HW1'. subst x1'.
    destruct (IH x1 Hx1 Hok1 Hoff1) as (x2' & HI & HW2').
    rewrite HW2 in HW2'. inversion HW2'. subst x2'.
    exists x2. unfold CrcWriter.Write_err. rewrite HW1. cbn [bind fst snd].
    split; [exact HI |]. rewrite HW12, len_app. reflexivity.
Qed.
End TypedWriteFacts.

Lemma len_item_bytes (it : item) :
  len (item_bytes it) = Z.of_nat (width_bytes (snd (item_kind it))).
Proof. destruct it; apply len_PutUint. Qed.

Lemma Uint_item_bytes (it : item) :
  item_fits it ->
  (if fst (item_kind it)
   then to_signed (width_bytes (snd (item_kind it))) (Uint (item_bytes it))
   else Uint (item_bytes it)) = item_value it.
Proof.
  destruct it as [w v | w v]; cbn [item_fits item_kind item_bytes item_value
                                   fst snd]; intros Hv.
  - rewrite Uint_PutUint. apply Z.mod_small. exact Hv.
  - rewrite Uint_PutUint. unfold to_unsigned at 1.
    rewrite Z.mod_mod by (apply Z.pow_nonzero; lia).
    fold (to_unsigned (width_bytes w) v).
    apply to_signed_to_unsigned; [destruct w; cbn; lia | exact Hv].
Qed.

(** A typed read in front of the bytes of a typed value gives the value. *)
Lemma read_item_ok (y : BlockReader.Reader BytesReader)
      (cs : list (list byte)) (it : item) (rest : list byte) :
  reader_ok y -> at_blocks y cs ->
  ahead y cs = item_bytes it ++ rest -> item_fits it ->
  exists y' cs',
    read_item y (item_kind it) = Some (item_value it, None, y') /\
    reader_ok y' /\ at_blocks y' cs' /\ ahead y' cs' = rest.
Proof.
  intros Hok Hat Ha Hfit.
  set (k := width_bytes (snd (item_kind it))).
  assert (Hlb : len (item_bytes it) = Z.of_nat k) by apply len_item_bytes.
  assert (Hlp : len (repeat x00 k) = Z.of_nat k)
    by (unfold len; rewrite repeat_length; reflexivity).
  destruct (proj1 (Read_stream y cs (repeat x00 k) Hok Hat))
    as (y' & cs' & HR & Hok' & Hat' & Ha' & _).
  { rewrite Hlp, Ha, len_app. pose proof (len_nonneg rest). lia. }
  rewrite Hlp, Ha in HR, Ha'.
  rewrite (slice_to_app_len _ _ _ Hlb) in HR.
  rewrite (slice_from_app_len _ _ _ Hlb) in Ha'.
  exists y', cs'. split; [| split; [exact Hok' | split; [exact Hat' | exact Ha']]].
  pose proof (Uint_item_bytes it Hfit) as HU.
  destruct it as [w v | w v]; destruct w;
    cbn [item_kind item_value read_item fst snd width_bytes k] in *;
    unfold BlockReader.ReadI8, BlockReader.ReadI16, BlockReader.ReadI32,
      BlockReader.ReadI64, BlockReader.ReadU16, BlockReader.ReadU32,
      BlockReader.ReadU64, BlockReader.ReadUint, BlockReader.ReadU8;
    rewrite HR; cbn [bind]; cbv iota beta;
    try (rewrite HU; reflexivity).
  - (* uint8 *)
    cbn [item_bytes width_bytes] in *. rewrite PutUint_S in *.
    cbn [nth]. rewrite Uint_cons in HU.
    change (Uint (PutUint 0 (Z.shiftr v 8))) with 0 in HU.
    rewrite Z.mul_0_r, Z.add_0_r in HU. rewrite HU. reflexivity.
  - (* int8 *)
    cbn [item_bytes width_bytes] in *. rewrite PutUint_S in *.
    cbn [nth]. rewrite Uint_cons in HU.
    change (Uint (PutUint 0 ?z)) with 0 in HU.
    rewrite Z.mul_0_r, Z.add_0_r in HU. rewrite HU. reflexivity.
Qed.

Lemma read_items_ok (l : list item) :
  forall (y : BlockReader.Reader BytesReader) (cs : list (list byte))
         (rest : list byte),
    reader_ok y -> at_blocks y cs ->
    ahead y cs = concat (map item_bytes l) ++ rest ->
    Forall item_fits l ->
    exists y',
      read_items y (map item_kind l) = Some (map item_value l, None, y').
Proof.
  induction l as [| it l IH]; intros y cs rest Hok Hat Ha Hfit.
  - exists y. reflexivity.
  - inversion Hfit as [| ? ? Hit Hl]; subst.
    cbn [map concat] in Ha. rewrite <- app_assoc in Ha.
    destruct (read_item_ok y cs it _ Hok Hat Ha Hit)
      as (y1 & cs1 & HR & Hok1 & Hat1 & Ha1).
    destruct (IH y1 cs1 rest Hok1 Hat1 Ha1 Hl) as (y2 & HI).
    exists y2. cbn [map read_items]. rewrite HR. cbn [bind]. cbv iota beta.
    rewrite HI. reflexivity.
Qed.

(** X12: Values written with the typed writes and flushed are read back, by
    the typed reads of the same widths in the same order, as they were
    written, wherever in the blocks they fall; the cipher maps blocks to
    blocks and Decrypt undoes Encrypt. *)
Theorem typed_values_round_trip
        (NewCipher : Z -> Cipher + error) (key : Z) (l : list item)
        (x : CrcWriter.Writer Buffer) :
  CrcWriter.NewWriter NewCipher [] key = inl x ->
  block_cipher (CrcWriter.c x) -> decrypt_inverts (CrcWriter.c x) ->
  Forall item_fits l ->
  exists x1 x2 (rd rd' : BlockReader.Reader BytesReader),
    write_items x l = Some (None, x1) /\
    CrcWriter.Flush x1 = (None, x2) /\
    BlockReader.NewReader NewCipher
      {| data := CrcWriter.w x2; pos := 0 |} key = inl rd /\
    read_items rd (map item_kind l) = Some (map item_value l, None, rd').
Proof.
  intros HN Hblock Hinv Hfit.
  pose proof (fresh_writer_idle _ _ _ _ HN) as Hidle.
  apply NewWriter_inl in HN as (c0 & Hkey & ->).
  cbn [CrcWriter.c] in Hblock, Hinv.
  set (x := {| CrcWriter.w := ([] : Buffer); CrcWriter.at_ := sink_WriterAt;
               CrcWriter.c := c0; CrcWriter.buf := empty; CrcWriter.n := 0;
               CrcWriter.off := 0; CrcWriter.crc := CRC.ZeroCRC;
               CrcWriter.NoZero := false |}) in *.
  destruct (write_items_Write _ Buffer_reliable l x Hidle I eq_refl)
    as (x1 & HI & HW).
  destruct (Write_Flush_state _ Buffer_reliable x (concat (map item_bytes l))
              Hidle eq_refl eq_refl I eq_refl)
    as (x1' & x2 & bs & HW' & HF & Hall & Hcat & Hw & _).
  rewrite HW in HW'. inversion HW'. subst x1'.
  rewrite Buffer_pushes in Hw. cbn [x CrcWriter.w CrcWriter.c app] in Hw.
  set (rd0 := BlockReader.Reset
                {| BlockReader.r := {| data := CrcWriter.w x2; pos := 0 |};
                   BlockReader.s := None; BlockReader.c := Some c0;
                   BlockReader.buf := empty; BlockReader.i := 0 |}
                {| data := CrcWriter.w x2; pos := 0 |}).
  assert (HNR : BlockReader.NewReader NewCipher
                  {| data := CrcWriter.w x2; pos := 0 |} key = inl rd0).
  { unfold BlockReader.NewReader. rewrite Hkey. reflexivity. }
  assert (Hall' : all_blocks (map (Encrypt c0) bs)).
  { apply all_blocks_map; [| exact Hall]. intros b Hb. apply (Hblock b Hb). }
  assert (Hok : reader_ok rd0).
  { split; [reflexivity |]. intros b Hb. apply (Hblock b Hb). }
  assert (Hat : at_blocks rd0 (map (Encrypt c0) bs)).
  { split; [exact Hall' |]. exists []. split; [exact Hw | reflexivity]. }
  assert (Ha : ahead rd0 (map (Encrypt c0) bs)
               = concat (map item_bytes l)
                 ++ padding (concat (map item_bytes l))).
  { unfold ahead. rewrite unread_needs_block by (left; cbn; lia).
    change (decrypt_of rd0) with (Decrypt c0).
    rewrite (decrypt_encrypt_blocks c0 bs Hinv Hall). exact Hcat. }
  destruct (read_items_ok l rd0 _ _ Hok Hat Ha Hfit) as (rd' & HRd).
  exists x1, x2, rd0, rd'. split; [exact HI |]. split; [exact HF |].
  split; [exact HNR | exact HRd].
Qed.

(** ** Writing in any number of pieces *)

Section PieceFacts.
Context {S : Type} {sinkS : Sink S}.
Variable ok : S -> Prop.
Hypothesis ok_reliable : reliable ok.

(** X13: However a payload is cut into pieces, writing the pieces one after
    the other leaves the writer, sink and checksum included, in the state in
    which one [Write] of the whole payload leaves it, and the counts add up to
    its length; on every sink whose [Write] does not fail. *)
Theorem Write_in_pieces (ps : list (list byte)) :
  forall x : CrcWriter.Writer S,
    writer_idle x -> ok (CrcWriter.w x) ->
    int64 (CrcWriter.off x) = CrcWriter.off x ->
    exists x',
      Write_pieces x ps = Some (len (concat ps), None, x') /\
      CrcWriter.Write x (concat ps) = Some (len (concat ps), None, x').
Proof.
  induction ps as [| p ps IH]; intros x Hx Hok Hoff.
  - exists x. split; reflexivity.
  - cbn [Write_pieces concat].
    destruct (Write_app ok ok_reliable x p (concat ps) Hx Hok Hoff)
      as (x1 & x2 & HW1 & HW2 & HW12).
    destruct (Write_ok ok ok_reliable x p Hx Hok Hoff)
      as (x1' & HW1' & Hx1 & Hok1 & Hoff1).
    rewrite HW1 in HW1'. inversion HW1'. subst x1'.
    destruct (IH x1 Hx1 Hok1 Hoff1) as (x2' & HP & HW2').
    rewrite HW2 in HW2'. inversion HW2'. subst x2'.
    exists x2. rewrite HW1. cbn [bind]. cbv iota beta. rewrite HP.
    cbn [bind]. cbv iota beta. rewrite len_app.
    split; [reflexivity | exact HW12].
Qed.
End PieceFacts.

(** ** Reserving a block and patching it *)

Lemma write_at_end (l p : list byte) : write_at l p (len l) = l ++ p.
Proof.
  unfold write_at. rewrite Z.sub_diag. cbn [Z.to_nat repeat].
  rewrite app_nil_r. unfold slice_to, slice_from, len.
  rewrite Nat2Z.id, firstn_all. rewrite skipn_all2.
  - rewrite app_nil_r. reflexivity.
  - pose proof (Zle_0_nat (length p)). lia.
Qed.

Lemma write_at_middle (a m z p : list byte) :
  len m = len p -> write_at (a ++ m ++ z) p (len a) = a ++ p ++ z.
Proof.
  intros Hm. unfold write_at.
  replace (Z.to_nat (len a - len (a ++ m ++ z))) with 0%nat
    by (rewrite !len_app; pose proof (len_nonneg m); pose proof (len_nonneg z); lia).
  cbn [repeat]. rewrite app_nil_r.
  unfold slice_to, slice_from, len in *.
  rewrite Nat2Z.id, firstn_app, firstn_all, Nat.sub_diag. cbn [firstn].
  rewrite app_nil_r.
  replace (Z.to_nat (Z.of_nat (length a) + Z.of_nat (length p)))
    with (length a + length m)%nat by lia.
  replace (skipn (length a + length m) (a ++ m ++ z)) with z; [reflexivity |].
  rewrite (app_assoc a m z), skipn_app, length_app, Nat.sub_diag.
  rewrite skipn_all2 by (rewrite length_app; lia). reflexivity.
Qed.

Lemma MemFile_reliable : reliable at_end.
Proof.
  intros d p Hd. split; [reflexivity |].
  unfold at_end in *. cbn. rewrite Hd, write_at_end, len_app. reflexivity.
Qed.

Lemma MemFile_pushes (c0 : Cipher) (bs : list (list byte)) :
  forall d : MemFile, at_end d ->
    fold_left (push c0) bs d
    = file_of (file_bytes d ++ concat (map (Encrypt c0) bs)).
Proof.
  induction bs as [| b bs IH]; intros d Hd.
  - cbn. rewrite app_nil_r. destruct d as [l q]. unfold at_end in Hd.
    cbn in *. subst q. reflexivity.
  - cbn [fold_left map concat]. rewrite IH.
    + unfold push. cbn [sink_Write MemFile_Sink MemFile_Write snd file_bytes].
      rewrite Hd, write_at_end, <- app_assoc. reflexivity.
    + apply (MemFile_reliable d (Encrypt c0 b) Hd).
Qed.

Lemma len_padded (P : list byte) : len (P ++ padding P) mod Block = 0.
Proof.
  rewrite len_app, len_padding. pose proof (len_nonneg P).
  pose proof (Z.mod_pos_bound (len P) Block ltac:(unfold Block; lia)) as Hm.
  pose proof (Z.div_mod (len P) Block ltac:(unfold Block; lia)) as Hd.
  destruct (Z.eq_dec (len P mod Block) 0) as [E | E].
  - rewrite E, Z.sub_0_r, Z.mod_same, Z.add_0_r by (unfold Block; lia).
    exact E.
  - rewrite (Z.mod_small (Block - len P mod Block)) by lia.
    replace (len P + (Block - len P mod Block))
      with ((len P / Block + 1) * Block) by lia.
    apply Z.mod_mul. unfold Block. lia.
Qed.

Lemma len_padded_bounds (P : list byte) :
  len P <= len (P ++ padding P) < len P + Block.
Proof.
  rewrite len_app, len_padding.
  pose proof (Z.mod_pos_bound (Block - len P mod Block) Block
                ltac:(unfold Block; lia)). lia.
Qed.

Lemma len_encrypted (c0 : Cipher) (bs : list (list byte)) :
  block_cipher c0 -> all_blocks bs ->
  len (concat (map (Encrypt c0) bs)) = len (concat bs).
Proof.
  intros Hc Hall.
  rewrite (len_concat_blocks _ (all_blocks_map _ _ (fun b Hb => proj1 (Hc b Hb)) Hall)).
  rewrite (len_concat_blocks _ Hall). unfold len. rewrite length_map.
  reflexivity.
Qed.

(** A block reserved with [WriteEmpty] and patched, after more data was
    written and flushed, with [WriteBlockAt] at the offset [WriteEmpty]
    returned, counted from where the file stood when the writer was given
    it. *)
Lemma reserve_patch_state (x : CrcWriter.Writer MemFile)
      (pre Q P b : list byte) :
  block_cipher (CrcWriter.c x) -> writer_idle x -> CrcWriter.n x = 0 ->
  CrcWriter.NoZero x = false -> CrcWriter.off x = 0 ->
  CrcWriter.w x = file_of pre -> CrcWriter.at_ x = sink_WriterAt ->
  len b = Block -> len pre + len Q + Block < 2 ^ 63 ->
  exists x1 o x2 x3 x4 x5 bq bp,
    CrcWriter.Write x Q = Some (len Q, None, x1) /\
    CrcWriter.WriteEmpty x1 = (o, None, x2) /\
    CrcWriter.Write x2 P = Some (len P, None, x3) /\
    CrcWriter.Flush x3 = (None, x4) /\
    CrcWriter.WriteBlockAt x4 b (len pre + o) = (None, x5) /\
    o = len (Q ++ padding Q) /\
    all_blocks bq /\ concat bq = Q ++ padding Q /\
    all_blocks bp /\ concat bp = P ++ padding P /\
    CrcWriter.w x4
    = file_of (pre ++ concat (map (Encrypt (CrcWriter.c x)) bq) ++ empty
               ++ concat (map (Encrypt (CrcWriter.c x)) bp)) /\
    CrcWriter.w x5
    = file_of (pre ++ concat (map (Encrypt (CrcWriter.c x)) bq)
               ++ Encrypt (CrcWriter.c x) b
               ++ concat (map (Encrypt (CrcWriter.c x)) bp)) /\
    CrcWriter.crc x5 = CrcWriter.crc x4 /\
    CrcWriter.off x5 = CrcWriter.off x4.
Proof.
  intros Hc Hx Hn HZ Hoff Hw Hat Hb Hmax.
  pose proof (len_nonneg pre) as Hpre0. pose proof (len_nonneg Q) as HQ0.
  assert (Hend : at_end (CrcWriter.w x)) by (rewrite Hw; reflexivity).
  destruct (Write_Flush_state at_end MemFile_reliable x Q Hx Hn HZ Hend)
    as (x1 & y & bq & HW1 & HF1 & Hallq & Hcq & Hwy & _ & Hoffy & Hny & Hendy
        & Hidley & Hcy & HZy & Haty).
  { rewrite Hoff. reflexivity. }
  rewrite Hoff, Z.add_0_l in Hoffy.
  pose proof (len_padded_bounds Q) as HlQ.
  rewrite int64_small in Hoffy by lia.
  rewrite MemFile_pushes, Hw in Hwy by exact Hend.
  cbn [file_bytes file_of] in Hwy.
  set (x2 := {| CrcWriter.w := snd (sink_Write (CrcWriter.w y) empty);
                CrcWriter.at_ := CrcWriter.at_ y; CrcWriter.c := CrcWriter.c y;
                CrcWriter.buf := CrcWriter.buf y; CrcWriter.n := CrcWriter.n y;
                CrcWriter.off := int64 (CrcWriter.off y + Block);
                CrcWriter.crc := CRC.UpdateCRC (CrcWriter.crc y) empty;
                CrcWriter.NoZero := CrcWriter.NoZero y |}).
  assert (HE : CrcWriter.WriteEmpty x1 = (len (Q ++ padding Q), None, x2)).
  { unfold CrcWriter.WriteEmpty. rewrite HF1.
    unfold x2. cbn [sink_Write MemFile_Sink MemFile_Write snd].
    rewrite Hoffy. reflexivity. }
  assert (Hw2 : CrcWriter.w x2
                = file_of ((pre ++ concat (map (Encrypt (CrcWriter.c x)) bq))
                           ++ empty)).
  { cbn [x2 CrcWriter.w sink_Write MemFile_Sink MemFile_Write snd]. rewrite Hwy.
    cbn [file_of file_bytes file_pos]. rewrite write_at_end. unfold file_of.
    rewrite (len_app (_ ++ _) empty). reflexivity. }
  assert (Hend2 : at_end (CrcWriter.w x2)) by (rewrite Hw2; reflexivity).
  destruct (Write_Flush_state at_end MemFile_reliable x2 P Hidley Hny HZy Hend2)
    as (x3 & x4 & bp & HW3 & HF3 & Hallp & Hcp & Hw4 & _ & _ & _ & _
        & _ & Hc4 & _ & Hat4).
  { cbn [x2 CrcWriter.off]. apply int64_idem. }
  rewrite MemFile_pushes, Hw2 in Hw4 by exact Hend2.
  cbn [file_bytes file_of x2 CrcWriter.c] in Hw4. rewrite Hcy in Hw4.
  cbn [x2 CrcWriter.c CrcWriter.at_] in Hc4, Hat4.
  rewrite Hcy in Hc4. rewrite Haty, Hat in Hat4.
  cbn [sink_WriterAt MemFile_Sink] in Hat4.
  assert (Hle : len (concat (map (Encrypt (CrcWriter.c x)) bq))
                = len (Q ++ padding Q)).
  { rewrite (len_encrypted _ _ Hc Hallq), Hcq. reflexivity. }
  assert (HlE : len empty = len (Encrypt (CrcWriter.c x) b)).
  { rewrite (proj1 (Hc b Hb)). reflexivity. }
  eexists x1, (len (Q ++ padding Q)), x2, x3, x4, _, bq, bp.
  split; [exact HW1 |]. split; [exact HE |]. split; [exact HW3 |].
  split; [exact HF3 |].
  split.
  { unfold CrcWriter.WriteBlockAt. rewrite Hat4, Hw4, Hc4.
    unfold MemFile_WriteAt.
    replace (len pre + len (Q ++ padding Q) <? 0) with false
      by (symmetry; apply Z.ltb_ge; lia).
    reflexivity. }
  cbn [CrcWriter.w CrcWriter.crc CrcWriter.off].
  split; [reflexivity |]. split; [exact Hallq |]. split; [exact Hcq |].
  split; [exact Hallp |]. split; [exact Hcp |].
  split; [rewrite Hw4, <- !app_assoc; reflexivity |].
  split; [| split; reflexivity].
  cbn [file_of file_bytes file_pos]. unfold file_of. f_equal.
  - rewrite <- Hle, <- len_app, <- !app_assoc.
    rewrite (app_assoc pre), write_at_middle by exact HlE.
    rewrite <- app_assoc. reflexivity.
  - rewrite !len_app, HlE. lia.
Qed.

(** X14: A block reserved with [WriteEmpty] and patched later: after [Q] was
    written, a block reserved, [P] written and all of it flushed,
    [WriteBlockAt] at the offset [WriteEmpty] returned, counted from where the
    file stood when the writer was given it, puts the encrypted block in the
    place of the reserved zeros, between the encrypted blocks of [Q] and of
    [P]; the file grows by nothing, and checksum and [Written()] stay as they
    were. *)
Theorem patch_fills_reserved_block (x : CrcWriter.Writer MemFile)
        (pre Q P b : list byte) :
  block_cipher (CrcWriter.c x) -> len (CrcWriter.buf x) = Block ->
  CrcWriter.NoZero x = false -> len b = Block ->
  len pre + len Q + Block < 2 ^ 63 ->
  exists x1 o x2 x3 x4 x5 bq bp,
    CrcWriter.Write (CrcWriter.Reset x (file_of pre)) Q
    = Some (len Q, None, x1) /\
    CrcWriter.WriteEmpty x1 = (o, None, x2) /\
    CrcWriter.Write x2 P = Some (len P, None, x3) /\
    CrcWriter.Flush x3 = (None, x4) /\
    CrcWriter.WriteBlockAt x4 b (len pre + o) = (None, x5) /\
    o = len (Q ++ padding Q) /\
    all_blocks bq /\ concat bq = Q ++ padding Q /\
    all_blocks bp /\ concat bp = P ++ padding P /\
    file_bytes (CrcWriter.w x4)
    = pre ++ concat (map (Encrypt (CrcWriter.c x)) bq) ++ empty
      ++ concat (map (Encrypt (CrcWriter.c x)) bp) /\
    file_bytes (CrcWriter.w x5)
    = pre ++ concat (map (Encrypt (CrcWriter.c x)) bq)
      ++ Encrypt (CrcWriter.c x) b
      ++ concat (map (Encrypt (CrcWriter.c x)) bp) /\
    CrcWriter.CRC x5 = CrcWriter.CRC x4 /\
    CrcWriter.Written x5 = CrcWriter.Written x4.
Proof.
  intros Hc Hbuf HZ Hb Hmax.
  destruct (reserve_patch_state (CrcWriter.Reset x (file_of pre)) pre Q P b)
    as (x1 & o & x2 & x3 & x4 & x5 & bq & bp & H1 & H2 & H3 & H4 & H5 & Ho
        & Hq & Hcq & Hp & Hcp & Hw4 & Hw5 & Hcrc & Hoff);
    try reflexivity; try assumption.
  { split; [exact Hbuf | cbn; unfold Block; lia]. }
  exists x1, o, x2, x3, x4, x5, bq, bp.
  rewrite Hw4, Hw5. unfold CrcWriter.CRC, CrcWriter.Written.
  repeat (split; [assumption || reflexivity |]). exact Hoff.
Qed.

(** [var buf [Block]byte; PutUint(buf[:], v)]: the bytes of the value,
    then zeros. *)
Lemma copy_into_empty (p : list byte) :
  len p <= Block ->
  fst (copy empty p) = p ++ slice_from empty (len p).
Proof.
  intros H. unfold copy, slice_from, len in *. cbn [fst].
  rewrite Nat2Z.id, firstn_all2; [reflexivity |].
  change (length empty) with 8%nat. unfold Block in H. lia.
Qed.

(** The typed patches hand [WriteBlockAt] the bytes of the typed write of
    the same type, followed by zeros. *)
Lemma write_patch_block {S : Type} {sinkS : Sink S}
      (x : CrcWriter.Writer S) (pt : patch) (o : Z) :
  write_patch x pt o
  = CrcWriter.WriteBlockAt x
      (item_bytes (patch_item pt)
       ++ slice_from empty (len (item_bytes (patch_item pt)))) o.
Proof.
  destruct pt as [v | v | v | v];
    cbn [write_patch patch_item item_bytes width_bytes];
    unfold CrcWriter.WriteI64At, CrcWriter.WriteI32At, CrcWriter.WriteU64At,
      CrcWriter.WriteU32At;
    rewrite copy_into_empty by (rewrite len_PutUint; unfold Block; lia);
    reflexivity.
Qed.

(** X15: A value patched into a reserved block is read back: after [Q] was
    written, a block reserved, [P] written, all of it flushed and the value
    patched in at the offset [WriteEmpty] returned, a reader made with the
    same key over the bytes of the file, sought to that offset, reads the
    value with the typed read of the same type; the cipher maps blocks to
    blocks and Decrypt undoes Encrypt. *)
Theorem patched_value_read_back
        (NewCipher : Z -> Cipher + error) (key : Z)
        (x : CrcWriter.Writer MemFile) (Q P : list byte) (pt : patch) :
  CrcWriter.NewWriter NewCipher (file_of []) key = inl x ->
  block_cipher (CrcWriter.c x) -> decrypt_inverts (CrcWriter.c x) ->
  item_fits (patch_item pt) -> len Q + len P < 2 ^ 62 ->
  exists x1 o x2 x3 x4 x5 (rd rd1 rd2 : BlockReader.Reader BytesReader),
    CrcWriter.Write x Q = Some (len Q, None, x1) /\
    CrcWriter.WriteEmpty x1 = (o, None, x2) /\
    CrcWriter.Write x2 P = Some (len P, None, x3) /\
    CrcWriter.Flush x3 = (None, x4) /\
    write_patch x4 pt o = (None, x5) /\
    BlockReader.NewReader NewCipher
      {| data := file_bytes (CrcWriter.w x5); pos := 0 |} key = inl rd /\
    BlockReader.Seek rd o SeekStart = (o, None, rd1) /\
    read_item rd1 (item_kind (patch_item pt))
    = Some (item_value (patch_item pt), None, rd2).
Proof.
  intros HN Hblock Hinv Hfit Hmax.
  pose proof (fresh_writer_idle _ _ _ _ HN) as Hidle.
  apply NewWriter_inl in HN as (c0 & Hkey & ->).
  cbn [CrcWriter.c] in Hblock, Hinv.
  set (it := patch_item pt) in *.
  set (blk := item_bytes it ++ slice_from empty (len (item_bytes it))).
  pose proof (len_nonneg Q) as HQ0. pose proof (len_nonneg P) as HP0.
  assert (Hlit : 0 < len (item_bytes it) <= Block).
  { rewrite len_item_bytes. unfold it. destruct pt; cbn; unfold Block; lia. }
  assert (Hblk : len blk = Block).
  { unfold blk. rewrite len_app, len_slice_from by (change (len empty) with Block; lia).
    change (len empty) with Block. lia. }
  match goal with |- context [CrcWriter.Write ?y Q] => set (x := y) end.
  destruct (reserve_patch_state x [] Q P blk)
    as (x1 & o & x2 & x3 & x4 & x5 & bq & bp & H1 & H2 & H3 & H4 & H5 & Ho
        & Hq & Hcq & Hp & Hcp & _ & Hw5 & _);
    try reflexivity; try assumption.
  { change (len (@nil byte)) with 0. unfold Block. lia. }
  change (len (@nil byte)) with 0 in H5. rewrite Z.add_0_l in H5.
  cbn [x CrcWriter.c app] in Hw5.
  set (rd0 := BlockReader.Reset
                {| BlockReader.r :=
                     {| data := file_bytes (CrcWriter.w x5); pos := 0 |};
                   BlockReader.s := None; BlockReader.c := Some c0;
                   BlockReader.buf := empty; BlockReader.i := 0 |}
                {| data := file_bytes (CrcWriter.w x5); pos := 0 |}).
  assert (HNR : BlockReader.NewReader NewCipher
                  {| data := file_bytes (CrcWriter.w x5); pos := 0 |} key
                = inl rd0).
  { unfold BlockReader.NewReader. rewrite Hkey. reflexivity. }
  set (bs := bq ++ blk :: bp).
  assert (Hall : all_blocks bs).
  { apply all_blocks_app. split; [exact Hq |]. constructor; assumption. }
  assert (Hall' : all_blocks (map (Encrypt c0) bs)).
  { apply all_blocks_map; [| exact Hall]. intros b Hb. apply (Hblock b Hb). }
  assert (Hdata : data (BlockReader.r rd0) = concat (map (Encrypt c0) bs)).
  { cbn [rd0 BlockReader.Reset BlockReader.r data]. rewrite Hw5.
    cbn [file_of file_bytes]. unfold bs.
    rewrite map_app, concat_app. cbn [map concat]. reflexivity. }
  assert (Hok : reader_ok rd0).
  { split; [reflexivity |]. intros b Hb. apply (Hblock b Hb). }
  pose proof (len_padded_bounds Q) as HlQ.
  pose proof (len_padded_bounds P) as HlP.
  assert (Hlen : len (concat (map (Encrypt c0) bs))
                 = len (Q ++ padding Q) + Block + len (P ++ padding P)).
  { rewrite (len_encrypted c0 bs Hblock Hall). unfold bs.
    rewrite concat_app. cbn [concat]. rewrite Hcq, Hcp, !len_app, Hblk. lia. }
  destruct (Seek_start_ahead rd0 (map (Encrypt c0) bs) o Hok eq_refl Hall' Hdata)
    as (rd1 & cs1 & HS & Hok1 & Hat1 & Ha1 & _).
  { rewrite Hlen. unfold Block in *. lia. }
  { rewrite Hlen, Ho. unfold Block in *. lia. }
  change (decrypt_of rd0) with (Decrypt c0) in Ha1.
  rewrite (decrypt_encrypt_blocks c0 bs Hinv Hall) in Ha1.
  unfold bs in Ha1. rewrite concat_app in Ha1. cbn [concat] in Ha1.
  rewrite Ho, <- Hcq, slice_from_app in Ha1.
  unfold blk in Ha1. rewrite <- app_assoc in Ha1.
  destruct (read_item_ok rd1 cs1 it _ Hok1 Hat1 Ha1 Hfit)
    as (rd2 & _ & HRd & _).
  exists x1, o, x2, x3, x4, x5, rd0, rd1, rd2.
  split; [exact H1 |]. split; [exact H2 |]. split; [exact H3 |].
  split; [exact H4 |]. split; [rewrite write_patch_block; exact H5 |].
  split; [exact HNR |]. split; [exact HS | exact HRd].
Qed.

(** ** The two checksum functions *)

(** X16: [UpdateCRC] is the standard update started from the complement of its
    argument: it leaves out the first complement of [simpleUpdate] and keeps
    the last. So on no bytes at all it returns the complement of its argument,
    where the standard function returns its argument. *)
Theorem UpdateCRC_as_Std (crc : Z) (p : list byte) :
  0 <= crc < 2 ^ 32 ->
  CRC.UpdateCRC crc p = CRC.UpdateCRCStd (not32 crc) p /\
  CRC.UpdateCRC crc [] = not32 crc /\
  CRC.UpdateCRCStd crc [] = crc.
Proof.
  intros H. unfold CRC.UpdateCRC, CRC.UpdateCRCStd, CRC.simpleUpdate.
  rewrite (not32_involutive crc H). cbn [fold_left].
  rewrite (not32_involutive crc H). repeat split.
Qed.

Lemma UpdateCRC_as_Std_witness :
  CRC.UpdateCRC 0x12345678 [x31; x32; x33]
  = CRC.UpdateCRCStd (not32 0x12345678) [x31; x32; x33] /\
  CRC.UpdateCRC 0x12345678 [] = 0xEDCBA987 /\
  CRC.UpdateCRCStd 0x12345678 [] = 0x12345678.
Proof.
  exact (UpdateCRC_as_Std 0x12345678 [x31; x32; x33] ltac:(lia)).
Defined.

(** ** Flushing twice *)

(** X17: A second [Flush] right after a [Flush] does nothing and reports
    success, whatever the first one reported: a block the sink refused is not
    offered again. *)
Theorem Flush_idempotent {S : Type} {sinkS : Sink S} (x : CrcWriter.Writer S) :
  CrcWriter.Flush (snd (CrcWriter.Flush x))
  = (None, snd (CrcWriter.Flush x)).
Proof.
  unfold CrcWriter.Flush at 2 3.
  destruct (CrcWriter.n x =? 0) eqn:E.
  - cbn [snd]. unfold CrcWriter.Flush. rewrite E. reflexivity.
  - unfold CrcWriter.flush.
    destruct (sink_Write _ _) as [[k err] d]. reflexivity.
Qed.

(** ** Typed reads and [ReadAligned] at the end of the data *)

Lemma Uint_app_zeros (a : list byte) (k : nat) :
  Uint (a ++ repeat x00 k) = Uint a.
Proof.
  induction a as [| v a IH].
  - induction k as [| k IHk]; [reflexivity |].
    cbn [app repeat] in *. rewrite Uint_cons, IHk. reflexivity.
  - cbn [app]. rewrite !Uint_cons, IH. reflexivity.
Qed.

Lemma slice_from_repeat {A} (v : A) (k : nat) (j : Z) :
  slice_from (repeat v k) j = repeat v (k - Z.to_nat j).
Proof.
  unfold slice_from. generalize (Z.to_nat j) as m. clear j.
  induction k as [| k IH]; intros [| m]; cbn [repeat skipn Nat.sub];
    try reflexivity.
  apply IH.
Qed.

(** X18: A typed read that finds fewer bytes than it asks for returns [io.EOF]
    together with a value: the little-endian value of the bytes that were
    left, converted to its type. The bytes are used up; every typed read after
    it returns 0 and [io.EOF]. *)
Theorem typed_read_at_end (x : BlockReader.Reader BytesReader)
        (cs : list (list byte)) (k : bool * width) :
  reader_ok x -> at_blocks x cs ->
  len (ahead x cs) < Z.of_nat (width_bytes (snd k)) ->
  exists x',
    read_item x k
    = Some (if fst k then to_signed (width_bytes (snd k)) (Uint (ahead x cs))
            else Uint (ahead x cs),
            Some EOF, x') /\
    forall k', exists x'', read_item x' k' = Some (0, Some EOF, x'').
Proof.
  assert (Hgen : forall (y : BlockReader.Reader BytesReader) cs' (w : nat),
             reader_ok y -> at_blocks y cs' -> len (ahead y cs') < Z.of_nat w ->
             exists y',
               BlockReader.Read y (repeat x00 w)
               = Some (len (ahead y cs'), Some EOF, y',
                       ahead y cs'
                       ++ repeat x00 (w - Z.to_nat (len (ahead y cs')))) /\
               reader_ok y' /\ at_blocks y' [] /\ ahead y' [] = []).
  { intros y cs' w Hok Hat Hlt.
    destruct (proj2 (Read_stream y cs' (repeat x00 w) Hok Hat))
      as (y' & HR & Hn & Hok' & Hat' & _).
    { unfold len at 2. rewrite repeat_length. exact Hlt. }
    exists y'. rewrite slice_from_repeat in HR.
    split; [exact HR |]. split; [exact Hok' |]. split; [exact Hat' |].
    unfold ahead. rewrite (unread_needs_block y' Hn). reflexivity. }
  assert (Hval : forall (y : BlockReader.Reader BytesReader) cs' k0,
             reader_ok y -> at_blocks y cs' ->
             len (ahead y cs') < Z.of_nat (width_bytes (snd k0)) ->
             exists y',
               read_item y k0
               = Some (if fst k0
                       then to_signed (width_bytes (snd k0)) (Uint (ahead y cs'))
                       else Uint (ahead y cs'),
                       Some EOF, y') /\
               reader_ok y' /\ at_blocks y' [] /\ ahead y' [] = []).
  { intros y cs' [sg w] Hok Hat Hlt. cbn [fst snd] in *.
    destruct (Hgen y cs' (width_bytes w) Hok Hat Hlt)
      as (y' & HR & Hrest).
    exists y'. split; [| exact Hrest].
    assert (H8 : w = W8 -> ahead y cs' = []).
    { intros ->. apply len_nil_inv. pose proof (len_nonneg (ahead y cs')).
      cbn in Hlt. lia. }
    destruct sg; destruct w; cbn [read_item width_bytes] in *;
      unfold BlockReader.ReadI8, BlockReader.ReadI16, BlockReader.ReadI32,
        BlockReader.ReadI64, BlockReader.ReadU16, BlockReader.ReadU32,
        BlockReader.ReadU64, BlockReader.ReadUint, BlockReader.ReadU8;
      rewrite HR; cbn [bind]; cbv iota beta;
      try (rewrite Uint_app_zeros; reflexivity);
      rewrite (H8 eq_refl); reflexivity. }
  intros Hok Hat Hlt.
  destruct (Hval x cs k Hok Hat Hlt) as (x' & HR & Hok' & Hat' & Ha').
  exists x'. split; [exact HR |]. intros k'.
  destruct (Hval x' [] k' Hok' Hat') as (x'' & HR' & _).
  { rewrite Ha'. destruct k' as [sg []]; cbn; lia. }
  exists x''. rewrite HR', Ha'. destruct k' as [[] []]; reflexivity.
Qed.

(** X19: [ReadAligned] at the end of the data, unless a whole block is still
    loaded: it delivers nothing and returns [io.EOF], and the bytes of the
    last block that were not read yet stay readable. *)
Theorem ReadAligned_at_end (x : BlockReader.Reader BytesReader)
        (p : list byte) :
  reader_ok x -> at_blocks x [] -> BlockReader.i x <> 0 ->
  exists x',
    BlockReader.ReadAligned x p = Some (0, Some EOF, x', p) /\
    unread x' = unread x.
Proof.
  intros Hok Hat Hi. pose proof Hok as [Hbuf _].
  destruct (Z.lt_ge_cases (BlockReader.i x) 0) as [Hneg | Hpos];
    [| destruct (Z.lt_ge_cases (BlockReader.i x) Block) as [Hin | Hout]].
  1, 3: assert (Hn : needs_block x) by (unfold needs_block; lia);
    unfold BlockReader.ReadAligned, BlockReader.Align;
    rewrite (Buffered_needs_block x Hn);
    replace (negb (Z.rem 0 Block =? 0)) with false by reflexivity;
    destruct (proj2 (Read_stream x [] empty Hok Hat))
      as (x' & HR & Hn' & _);
    [ unfold ahead; rewrite (unread_needs_block x Hn); vm_compute; reflexivity
    | exists x'; rewrite HR; cbn [bind]; cbv iota beta;
      split; [reflexivity |];
      rewrite (unread_needs_block x Hn), (unread_needs_block x' Hn');
      reflexivity ].
  destruct Hat as [_ (pre & Hdata & Hpos')].
  cbn [concat] in Hdata. rewrite app_nil_r in Hdata.
  exists x. split; [| reflexivity].
  unfold BlockReader.ReadAligned, BlockReader.Align, BlockReader.Buffered.
  replace (BlockReader.i x <? 0) with false by (symmetry; apply Z.ltb_ge; lia).
  replace (BlockReader.i x >=? Block) with false
    by (symmetry; rewrite Z.geb_leb; apply Z.leb_gt; lia).
  cbn [orb].
  replace (negb (Z.rem (Block - BlockReader.i x) Block =? 0)) with true.
  2:{ symmetry. apply negb_true_iff, Z.eqb_neq.
      rewrite Z.rem_small by lia. lia. }
  unfold BlockReader.readNext.
  cbn [src_ReadFull BytesReader_Source]. unfold BytesReader_ReadFull.
  rewrite Hbuf, Hdata, Hpos', slice_from_all by lia.
  replace (Block <=? 0) with false by reflexivity.
  change (len (@nil byte) =? 0) with true. cbv iota beta.
  destruct x as [r0 s0 c0 buf0 i0]. cbn [BlockReader.r BlockReader.s
    BlockReader.c BlockReader.buf BlockReader.i] in *.
  unfold copy. cbn [fst firstn length skipn]. rewrite firstn_nil. cbn [app].
  destruct r0 as [dt ps]. cbn [data pos] in *. subst. reflexivity.
Qed.

(** ** The offset on a sink that may fail *)

(** X20: On every sink, failing or not: any sequence of calls on a fresh writer
    runs to its end, and afterwards [Written()] less the pending bytes is a
    multiple of the block size; right after a further [Flush], successful or
    not, [Written()] itself is. *)
Theorem Written_aligned_on_any_sink {S : Type} {sinkS : Sink S}
        (NewCipher : Z -> Cipher + error) (d : S) (key : Z)
        (x : CrcWriter.Writer S) (calls : list call) :
  CrcWriter.NewWriter NewCipher d key = inl x ->
  exists obs x',
    run_crc x calls = Some (obs, x') /\
    0 <= CrcWriter.n x' < Block /\
    (CrcWriter.Written x' - CrcWriter.n x') mod Block = 0 /\
    CrcWriter.Written (snd (CrcWriter.Flush x')) mod Block = 0.
Proof.
  intros HN. pose proof (fresh_writer_idle _ _ _ _ HN) as Hidle.
  pose proof (fresh_writer_offset_aligned _ _ _ _ HN) as Hal.
  destruct (run_crc_total calls x Hidle) as ([obs x'] & HR & Hidle').
  pose proof (run_crc_offset_aligned calls x _ Hidle Hal HR) as Hal'.
  cbn [snd] in *. exists obs, x'. split; [exact HR |].
  split; [apply Hidle' |]. split; [exact Hal' |].
  unfold offset_aligned in Hal'. destruct Hidle' as [Hb Hn].
  unfold CrcWriter.Written, CrcWriter.Flush.
  destruct (CrcWriter.n x' =? 0) eqn:E.
  - apply Z.eqb_eq in E. rewrite E, Z.sub_0_r in Hal'. exact Hal'.
  - assert (Hoff : forall y : CrcWriter.Writer S,
               CrcWriter.off y = CrcWriter.off x' ->
               CrcWriter.n y = CrcWriter.n x' ->
               CrcWriter.off (snd (CrcWriter.flush y)) mod Block = 0).
    { intros y Ho Hny. unfold CrcWriter.flush.
      destruct (sink_Write _ _) as [[k err] d']. cbn [snd CrcWriter.off].
      rewrite int64_mod_Block, Ho, Hny, (int64_small (Block - CrcWriter.n x'))
        by (unfold Block in *; lia).
      replace (CrcWriter.off x' + (Block - CrcWriter.n x'))
        with (CrcWriter.off x' - CrcWriter.n x' + 1 * Block) by lia.
      rewrite Z.mod_add by (unfold Block; lia). exact Hal'. }
    destruct (negb (CrcWriter.NoZero x')
              && negb (CrcWriter.n x' =? len (CrcWriter.buf x')));
      apply Hoff; reflexivity.
Qed.

(** ** Seeking past the end *)

Lemma readNext_at_end (x : BlockReader.Reader BytesReader) :
  len (BlockReader.buf x) = Block ->
  len (data (BlockReader.r x)) <= pos (BlockReader.r x) ->
  BlockReader.readNext x = (Some EOF, x).
Proof.
  intros Hbuf Hpos. unfold BlockReader.readNext.
  cbn [src_ReadFull BytesReader_Source]. unfold BytesReader_ReadFull.
  rewrite Hbuf, slice_from_all by exact Hpos.
  replace (Block <=? 0) with false by reflexivity.
  change (len (@nil byte) =? 0) with true. cbv iota beta.
  destruct x as [r0 s0 c0 buf0 i0]. cbn [BlockReader.r BlockReader.s
    BlockReader.c BlockReader.buf BlockReader.i] in *.
  unfold copy. cbn [fst firstn length skipn]. rewrite firstn_nil. reflexivity.
Qed.

(** X21: [Seek] to an absolute offset at or past the end of the data, the data
    being whole blocks: an offset on a block boundary is accepted, and the
    next [Read] returns [io.EOF]; any other offset is refused with [io.EOF],
    the reader having tried to fetch the block that would hold it. *)
Theorem Seek_past_end (x : BlockReader.Reader BytesReader)
        (cs : list (list byte)) (o : Z) :
  reader_ok x -> BlockReader.s x = Some BytesReader_Seek ->
  all_blocks cs -> data (BlockReader.r x) = concat cs ->
  len (concat cs) <= o < 2 ^ 62 ->
  (o mod Block = 0 ->
   exists x',
     BlockReader.Seek x o SeekStart = (o, None, x') /\
     forall p, 0 < len p ->
       exists x'', BlockReader.Read x' p = Some (0, Some EOF, x'', p)) /\
  (o mod Block <> 0 ->
   exists x', BlockReader.Seek x o SeekStart = (0, Some EOF, x')).
Proof.
  intros Hok Hs Hall Hdata Ho. pose proof Hok as [Hbuf _].
  pose proof (len_nonneg (concat cs)) as Hc0.
  assert (Hrem : Z.rem o Block = o mod Block)
    by (apply Z.rem_mod_nonneg; unfold Block; lia).
  assert (Hmod : 0 <= o mod Block < Block)
    by (apply Z.mod_pos_bound; unfold Block; lia).
  assert (Hle : o mod Block <= o) by (apply Z.mod_le; unfold Block; lia).
  assert (E1 : BytesReader_Seek (BlockReader.r x) o SeekStart
               = (o, None, {| data := data (BlockReader.r x); pos := o |})).
  { unfold BytesReader_Seek. change (SeekStart =? SeekStart) with true.
    cbv iota. replace (o <? 0) with false by (symmetry; apply Z.ltb_ge; lia).
    reflexivity. }
  set (x1 := BlockReader.set_i
               (BlockReader.set_r x {| data := data (BlockReader.r x); pos := o |})
               (-1)).
  assert (Hx1 : len (data (BlockReader.r x1)) <= o).
  { cbn [x1 BlockReader.set_i BlockReader.set_r BlockReader.r data].
    rewrite Hdata. lia. }
  unfold BlockReader.Seek. rewrite Hs.
  change (SeekStart =? SeekCurrent) with false. cbv iota. rewrite E1.
  cbv iota beta zeta. fold x1. rewrite Hrem.
  split; intros Hal.
  - rewrite Hal. change (0 =? 0) with true. cbv iota.
    exists x1. split; [reflexivity |]. intros p Hp.
    exists x1. unfold BlockReader.Read.
    destruct (length p) as [| m] eqn:Elen;
      [unfold len in Hp; rewrite Elen in Hp; cbn in Hp; lia |].
    cbn [Nat.add BlockReader.Read_loop].
    replace (len p >? 0) with true by (symmetry; apply Z.gtb_lt; exact Hp).
    unfold BlockReader.read.
    change (BlockReader.i x1) with (-1).
    change ((-1 <? 0) || (-1 >=? Block)) with true. cbv iota.
    rewrite (readNext_at_end x1 Hbuf Hx1). reflexivity.
  - replace (o mod Block =? 0) with false
      by (symmetry; apply Z.eqb_neq; exact Hal).
    cbv iota.
    assert (E2 : BytesReader_Seek (BlockReader.r x1) (int64 (- (o mod Block)))
                   SeekCurrent
                 = (o - o mod Block, None,
                    {| data := data (BlockReader.r x);
                       pos := o - o mod Block |})).
    { unfold BytesReader_Seek.
      change (SeekCurrent =? SeekStart) with false.
      change (SeekCurrent =? SeekCurrent) with true. cbv iota.
      change (pos (BlockReader.r x1)) with o.
      rewrite (int64_small (- (o mod Block))) by (unfold Block in *; lia).
      rewrite (int64_small (o + - (o mod Block))) by (unfold Block in *; lia).
      replace (o + - (o mod Block)) with (o - o mod Block) by lia.
      replace (o - o mod Block <? 0) with false
        by (symmetry; apply Z.ltb_ge; lia).
      reflexivity. }
    rewrite E2. cbv iota beta zeta.
    match goal with |- context [BlockReader.readNext ?y] => set (x2 := y) end.
    rewrite (readNext_at_end x2).
    + exists x2. reflexivity.
    + exact Hbuf.
    + cbn [x2 x1 BlockReader.set_r BlockReader.set_i BlockReader.r data pos].
      rewrite Hdata, (len_concat_blocks cs Hall) in *.
      pose proof (Z.div_mod o Block ltac:(unfold Block; lia)) as Hd.
      assert (len cs <= o / Block).
      { apply Z.div_le_lower_bound; unfold Block in *; lia. }
      unfold Block in *. lia.
Qed.

(** ** The further properties on concrete inputs *)

Lemma demo_reader_ok (d : BytesReader) (b : list byte) (k : Z) :
  len b = Block -> reader_ok (demo_reader d b k).
Proof.
  intros Hb. split; [exact Hb |]. intros b' Hb'. apply (revCipher_block b' Hb').
Qed.

Lemma demo_blocks_all : all_blocks demo_blocks.
Proof. repeat constructor. Qed.

Lemma demo_pending_idle : writer_idle demo_pending.
Proof. split; [reflexivity | cbn; unfold Block; lia]. Qed.

Lemma Write_in_pieces_witness :
  exists x',
    Write_pieces demo_pending demo_pieces
    = Some (len (concat demo_pieces), None, x') /\
    CrcWriter.Write demo_pending (concat demo_pieces)
    = Some (len (concat demo_pieces), None, x').
Proof.
  exact (Write_in_pieces (fun _ : Buffer => True) Buffer_reliable demo_pieces
           demo_pending demo_pending_idle I eq_refl).
Defined.

Lemma Writer_checksum_of_payload_witness :
  exists x : CrcWriter.Writer Buffer,
    CrcWriter.NewWriter revNewCipher [] demo_key = inl x /\
    exists x1 x2,
      CrcWriter.Write x [x01; x02; x03] = Some (3, None, x1) /\
      CrcWriter.Flush x1 = (None, x2) /\
      CrcWriter.CRC x2
      = fold_left CRC.UpdateCRC [[x01; x02; x03; x00; x00; x00; x00; x00]]
                  CRC.ZeroCRC /\
      CrcWriter.CRC x2
      = CRC.UpdateCRCStd CRC.ZeroCRCStd
          [x01; x02; x03; x00; x00; x00; x00; x00].
Proof.
  eexists. split; [reflexivity |].
  destruct (Writer_checksum_of_payload (fun _ : Buffer => True) Buffer_reliable
              revNewCipher [] demo_key _ [x01; x02; x03] eq_refl I)
    as (x1 & x2 & HW & HF & Hbs & Hone).
  exists x1, x2. split; [exact HW |]. split; [exact HF |]. split.
  - apply Hbs; [repeat constructor | reflexivity].
  - apply Hone. cbn. unfold Block. lia.
Defined.

Lemma Reset_starts_clean_witness :
  exists y1 y2 y1' y2',
    CrcWriter.Write (CrcWriter.Reset demo_pending []) demo_payload
    = Some (len demo_payload, None, y1) /\
    CrcWriter.Flush y1 = (None, y2) /\
    CrcWriter.Write (CrcWriter.Reset demo_nozero_unset []) demo_payload
    = Some (len demo_payload, None, y1') /\
    CrcWriter.Flush y1' = (None, y2') /\
    CrcWriter.w y2 = CrcWriter.w y2' /\
    CrcWriter.CRC y2 = CrcWriter.CRC y2' /\
    CrcWriter.Written y2 = CrcWriter.Written y2' /\
    CrcWriter.Written y2 = int64 (len demo_payload + len (padding demo_payload)).
Proof.
  exact (Reset_starts_clean (fun _ : Buffer => True) Buffer_reliable
           demo_pending demo_nozero_unset [] demo_payload
           eq_refl eq_refl eq_refl eq_refl eq_refl I).
Defined.

Lemma NoZero_flush_keeps_old_bytes_witness :
  (exists x1 x2,
     CrcWriter.Write demo_nozero [x01; x02; x03] = Some (3, None, x1) /\
     CrcWriter.Flush x1 = (None, x2) /\
     CrcWriter.w x2
     = Encrypt revCipher [x01; x02; x03; x14; x15; x00; x00; x00] /\
     CrcWriter.crc x2
     = CRC.UpdateCRC CRC.ZeroCRC [x01; x02; x03; x14; x15; x00; x00; x00] /\
     CrcWriter.buf x2 = [x01; x02; x03; x14; x15; x00; x00; x00]) /\
  (exists x1,
     CrcWriter.Write demo_nozero [x01; x02; x03; x04; x05; x06; x07; x08]
     = Some (8, None, x1) /\
     CrcWriter.w x1
     = Encrypt revCipher [x01; x02; x03; x04; x05; x06; x07; x08] /\
     CrcWriter.buf x1 = empty /\ CrcWriter.n x1 = 0).
Proof.
  assert (Hidle : writer_idle demo_nozero)
    by (split; [reflexivity | cbn; unfold Block; lia]).
  split.
  - exact (proj1 (NoZero_flush_keeps_old_bytes (fun _ : Buffer => True)
                    Buffer_reliable demo_nozero [x01; x02; x03]
                    Hidle eq_refl eq_refl I eq_refl)
                 ltac:(cbn; unfold Block; lia)).
  - exact (proj2 (NoZero_flush_keeps_old_bytes (fun _ : Buffer => True)
                    Buffer_reliable demo_nozero
                    [x01; x02; x03; x04; x05; x06; x07; x08]
                    Hidle eq_refl eq_refl I eq_refl)
                 eq_refl).
Defined.

Lemma Written_counts_sink_and_pending_witness :
  exists x : CrcWriter.Writer Buffer,
    CrcWriter.NewWriter revNewCipher [x55; x66] demo_key = inl x /\
    exists obs x',
      run_crc x demo_calls = Some (obs, x') /\
      (len (CrcWriter.w x') - 2) mod Block = 0 /\
      CrcWriter.Written x'
      = int64 (len (CrcWriter.w x') - 2 + CrcWriter.n x') /\
      0 <= CrcWriter.n x' < Block /\
      CrcWriter.n (snd (CrcWriter.Flush x')) = 0 /\
      CrcWriter.n (snd (CrcWriter.WriteEmpty x')) = 0.
Proof.
  eexists. split; [reflexivity |].
  exact (Written_counts_sink_and_pending revNewCipher [x55; x66] demo_key _
           demo_calls eq_refl revCipher_block).
Defined.

Lemma demo_fresh_ok : reader_ok demo_fresh.
Proof. apply demo_reader_ok. reflexivity. Qed.

Lemma demo_inside_ok : reader_ok demo_inside.
Proof. apply demo_reader_ok. reflexivity. Qed.

Lemma demo_whole_ok : reader_ok demo_whole.
Proof. apply demo_reader_ok. reflexivity. Qed.

Lemma demo_fresh_at : at_blocks demo_fresh demo_blocks.
Proof.
  split; [exact demo_blocks_all |]. exists []. split; reflexivity.
Qed.

Lemma demo_inside_at :
  at_blocks demo_inside [[x10; x0f; x0e; x0d; x0c; x0b; x0a; x09]].
Proof.
  split; [repeat constructor |].
  exists [x08; x07; x06; x05; x04; x03; x02; x01]. split; reflexivity.
Qed.

Lemma Read_in_pieces_witness :
  exists x1 x2 x12 b1 b2,
    BlockReader.Read demo_fresh (repeat x00 3) = Some (3, None, x1, b1) /\
    BlockReader.Read x1 (repeat x00 7) = Some (7, None, x2, b2) /\
    BlockReader.Read demo_fresh (repeat x00 3 ++ repeat x00 7)
    = Some (3 + 7, None, x12, b1 ++ b2) /\
    lpos x2 = lpos x12.
Proof.
  exact (Read_in_pieces demo_fresh demo_blocks (repeat x00 3) (repeat x00 7)
           demo_fresh_ok demo_fresh_at
           ltac:(vm_compute; discriminate)).
Defined.

Lemma Read_past_end_witness :
  exists x',
    BlockReader.Read demo_inside (repeat x00 20)
    = Some (13, Some EOF, x',
            [x04; x05; x06; x07; x08; x09; x0a; x0b; x0c; x0d; x0e; x0f; x10;
             x00; x00; x00; x00; x00; x00; x00]) /\
    forall q, 0 < len q ->
      exists x'', BlockReader.Read x' q = Some (0, Some EOF, x'', q).
Proof.
  exact (Read_past_end demo_inside [[x10; x0f; x0e; x0d; x0c; x0b; x0a; x09]]
           (repeat x00 20) demo_inside_ok demo_inside_at
           ltac:(vm_compute; reflexivity)).
Defined.

Lemma Seek_current_reports_position_witness :
  exists x1 b x2,
    BlockReader.Read demo_fresh (repeat x00 3) = Some (3, None, x1, b) /\
    BlockReader.Seek x1 0 SeekCurrent = (3, None, x2) /\
    pos (BlockReader.r x1) mod Block = 0 /\
    3 <= pos (BlockReader.r x1) < 3 + Block.
Proof.
  destruct (Seek_current_reports_position demo_fresh demo_blocks (repeat x00 3)
              demo_fresh_ok eq_refl demo_blocks_all
              eq_refl eq_refl ltac:(left; cbn; lia)
              ltac:(vm_compute; reflexivity) ltac:(vm_compute; discriminate))
    as (x1 & b & x2 & HR & HS & Hpos).
  exists x1, b, x2. split; [exact HR |]. split; [exact HS |].
  apply Hpos. vm_compute. reflexivity.
Defined.

Lemma ReadAligned_delivers_block_witness :
  (exists x',
     BlockReader.ReadAligned demo_inside (repeat x00 8)
     = Some (8, None, x', [x09; x0a; x0b; x0c; x0d; x0e; x0f; x10]) /\
     BlockReader.Buffered x' = 0 /\ at_blocks x' []) /\
  (exists x',
     BlockReader.ReadAligned demo_whole (repeat x00 5)
     = Some (5, None, x', [x01; x02; x03; x04; x05]) /\
     BlockReader.Buffered x' = 0 /\
     at_blocks x' [[x10; x0f; x0e; x0d; x0c; x0b; x0a; x09]]).
Proof.
  split.
  - exact (ReadAligned_delivers_block demo_inside
             [x10; x0f; x0e; x0d; x0c; x0b; x0a; x09] [] (repeat x00 8)
             demo_inside_ok demo_inside_at).
  - exact (ReadAligned_delivers_block demo_whole
             [x10; x0f; x0e; x0d; x0c; x0b; x0a; x09] [] (repeat x00 5)
             demo_whole_ok demo_inside_at).
Defined.

Lemma Reader_Reset_drops_block_witness :
  exists x',
    BlockReader.Read
      (BlockReader.Reset demo_inside {| data := concat demo_blocks; pos := 8 |})
      (repeat x00 5)
    = Some (5, None, x', [x09; x0a; x0b; x0c; x0d]).
Proof.
  exact (Reader_Reset_drops_block demo_inside
           {| data := concat demo_blocks; pos := 8 |}
           [[x10; x0f; x0e; x0d; x0c; x0b; x0a; x09]] (repeat x00 5)
           demo_inside_ok ltac:(repeat constructor) eq_refl
           ltac:(split; vm_compute; discriminate)
           ltac:(vm_compute; discriminate)).
Defined.

Lemma Seek_failure_drops_unread_witness :
  exists x',
    BlockReader.Seek demo_inside (-1) SeekStart
    = (0, Some (ErrNew "bytes.Reader.Seek: negative position"%string), x') /\
    BlockReader.r x' = BlockReader.r demo_inside /\
    BlockReader.Buffered demo_inside = 5 /\
    BlockReader.Buffered x' = 0 /\
    exists x'',
      BlockReader.Read x' (repeat x00 5)
      = Some (5, None, x'', [x09; x0a; x0b; x0c; x0d]).
Proof.
  destruct (Seek_failure_drops_unread demo_inside
              [[x10; x0f; x0e; x0d; x0c; x0b; x0a; x09]] (-1)
              demo_inside_ok eq_refl demo_inside_at
              ltac:(lia))
    as (x' & HS & Hr & HB & HR).
  exists x'. split; [exact HS |]. split; [exact Hr |].
  split; [reflexivity |]. split; [exact HB |].
  exact (HR (repeat x00 5) ltac:(vm_compute; discriminate)).
Defined.

Lemma demo_items_fit : Forall item_fits demo_items.
Proof. repeat constructor; cbn; lia. Qed.

Lemma typed_values_round_trip_witness :
  exists x : CrcWriter.Writer Buffer,
    CrcWriter.NewWriter revNewCipher [] demo_key = inl x /\
    exists x1 x2 rd rd',
      write_items x demo_items = Some (None, x1) /\
      CrcWriter.Flush x1 = (None, x2) /\
      BlockReader.NewReader revNewCipher
        {| data := CrcWriter.w x2; pos := 0 |} demo_key = inl rd /\
      read_items rd (map item_kind demo_items)
      = Some ([200; -2; 305419896; -1; -128; 65535; -2147483648;
               18446744073709551615], None, rd').
Proof.
  eexists. split; [reflexivity |].
  exact (typed_values_round_trip revNewCipher demo_key demo_items _ eq_refl
           revCipher_block revCipher_inverts demo_items_fit).
Defined.

Lemma patch_fills_reserved_block_witness :
  exists x1 o x2 x3 x4 x5,
    CrcWriter.Write (CrcWriter.Reset demo_used (file_of [x55; x66]))
                    [x01; x02; x03]
    = Some (3, None, x1) /\
    CrcWriter.WriteEmpty x1 = (o, None, x2) /\
    CrcWriter.Write x2 [x04; x05] = Some (2, None, x3) /\
    CrcWriter.Flush x3 = (None, x4) /\
    CrcWriter.WriteBlockAt x4 [x21; x22; x23; x24; x25; x26; x27; x28] (2 + o)
    = (None, x5) /\
    o = 8 /\
    file_bytes (CrcWriter.w x4)
    = [x55; x66] ++ [x00; x00; x00; x00; x00; x03; x02; x01]
      ++ [x00; x00; x00; x00; x00; x00; x00; x00]
      ++ [x00; x00; x00; x00; x00; x00; x05; x04] /\
    file_bytes (CrcWriter.w x5)
    = [x55; x66] ++ [x00; x00; x00; x00; x00; x03; x02; x01]
      ++ [x28; x27; x26; x25; x24; x23; x22; x21]
      ++ [x00; x00; x00; x00; x00; x00; x05; x04] /\
    CrcWriter.CRC x5 = CrcWriter.CRC x4 /\
    CrcWriter.Written x5 = CrcWriter.Written x4.
Proof.
  destruct (patch_fills_reserved_block demo_used [x55; x66] [x01; x02; x03]
              [x04; x05] [x21; x22; x23; x24; x25; x26; x27; x28]
              revCipher_block eq_refl eq_refl eq_refl
              ltac:(vm_compute; reflexivity))
    as (x1 & o & x2 & x3 & x4 & x5 & bq & bp & H1 & H2 & H3 & H4 & H5
        & Ho & Hq & Hcq & Hp & Hcp & Hw4 & Hw5 & Hcrc & Hoff).
  assert (Eq : bq = [[x01; x02; x03; x00; x00; x00; x00; x00]]).
  { apply blocks_unique; [exact Hq | repeat constructor | exact Hcq]. }
  assert (Ep : bp = [[x04; x05; x00; x00; x00; x00; x00; x00]]).
  { apply blocks_unique; [exact Hp | repeat constructor | exact Hcp]. }
  subst bq bp.
  exists x1, o, x2, x3, x4, x5.
  repeat (split; [assumption |]). exact Hoff.
Defined.

Lemma patched_value_read_back_witness :
  exists x : CrcWriter.Writer MemFile,
    CrcWriter.NewWriter revNewCipher (file_of []) demo_key = inl x /\
    exists x1 o x2 x3 x4 x5 rd rd1 rd2,
      CrcWriter.Write x demo_payload = Some (len demo_payload, None, x1) /\
      CrcWriter.WriteEmpty x1 = (o, None, x2) /\
      CrcWriter.Write x2 [x04; x05] = Some (2, None, x3) /\
      CrcWriter.Flush x3 = (None, x4) /\
      CrcWriter.WriteI32At x4 (-2) o = (None, x5) /\
      BlockReader.NewReader revNewCipher
        {| data := file_bytes (CrcWriter.w x5); pos := 0 |} demo_key
      = inl rd /\
      BlockReader.Seek rd o SeekStart = (o, None, rd1) /\
      BlockReader.ReadI32 rd1 = Some (-2, None, rd2).
Proof.
  eexists. split; [reflexivity |].
  exact (patched_value_read_back revNewCipher demo_key _ demo_payload
           [x04; x05] (PatchI32 (-2)) eq_refl revCipher_block
           revCipher_inverts ltac:(cbn; lia) ltac:(vm_compute; reflexivity)).
Defined.

Lemma demo_tail_ok : reader_ok demo_tail.
Proof. apply demo_reader_ok. reflexivity. Qed.

Lemma demo_tail_at : at_blocks demo_tail [].
Proof.
  split; [constructor |]. exists (concat demo_blocks). split; reflexivity.
Qed.

Lemma typed_read_at_end_witness :
  exists x',
    BlockReader.ReadI32 demo_tail = Some (4111, Some EOF, x') /\
    forall k', exists x'', read_item x' k' = Some (0, Some EOF, x'').
Proof.
  exact (typed_read_at_end demo_tail [] (true, W32) demo_tail_ok demo_tail_at
           ltac:(vm_compute; reflexivity)).
Defined.

Lemma ReadAligned_at_end_witness :
  exists x',
    BlockReader.ReadAligned demo_tail (repeat x00 8)
    = Some (0, Some EOF, x', repeat x00 8) /\
    unread x' = [x0f; x10].
Proof.
  exact (ReadAligned_at_end demo_tail (repeat x00 8) demo_tail_ok demo_tail_at
           ltac:(cbn; lia)).
Defined.

Lemma Written_aligned_on_any_sink_witness :
  exists x : CrcWriter.Writer Bounded,
    CrcWriter.NewWriter revNewCipher {| stored := []; room := 4 |} demo_key
    = inl x /\
    exists obs x',
      run_crc x demo_calls = Some (obs, x') /\
      0 <= CrcWriter.n x' < Block /\
      (CrcWriter.Written x' - CrcWriter.n x') mod Block = 0 /\
      CrcWriter.Written (snd (CrcWriter.Flush x')) mod Block = 0.
Proof.
  eexists. split; [reflexivity |].
  exact (Written_aligned_on_any_sink revNewCipher {| stored := []; room := 4 |}
           demo_key _ demo_calls eq_refl).
Defined.

Lemma Seek_past_end_witness :
  (exists x',
     BlockReader.Seek demo_inside 24 SeekStart = (24, None, x') /\
     forall p, 0 < len p ->
       exists x'', BlockReader.Read x' p = Some (0, Some EOF, x'', p)) /\
  (exists x', BlockReader.Seek demo_inside 19 SeekStart = (0, Some EOF, x')).
Proof.
  split.
  - exact (proj1 (Seek_past_end demo_inside demo_blocks 24 demo_inside_ok
                    eq_refl demo_blocks_all eq_refl
                    ltac:(split; vm_compute; [discriminate | reflexivity]))
                 eq_refl).
  - exact (proj2 (Seek_past_end demo_inside demo_blocks 19 demo_inside_ok
                    eq_refl demo_blocks_all eq_refl
                    ltac:(split; vm_compute; [discriminate | reflexivity]))
                 ltac:(vm_compute; discriminate)).
Defined.
